(** * Road index of the FGCU traffic system: model and verification

    The repository carries two implementations of the same road index:
    [src/netlify-deploy/src/data/roadIndex.ts] (bounding boxes kept in an
    RBush tree) and [src/netlify-deploy/src/trafficSystem.js] (a uniform
    grid keyed by the cell of a road's midpoint), plus the signal loader
    of [trafficSystem.js] and the PCI joiner.  JavaScript numbers are read
    as real numbers, with [Infinity] and [NaN] added where the code can
    produce them; the rounding of binary64 arithmetic is left out, except
    in [parseInt], whose answer is the rounded number. *)

From Stdlib Require Import Reals Lra Lia ZArith List String Ascii Classical_Prop.
From stdpp Require Import base option list gmap strings.

Open Scope R_scope.

(** ** JavaScript numbers *)

(** A number of the code that is not [-Infinity]: a finite value,
    [Infinity], or [NaN].  Distances, scores and coordinates are such
    numbers; [-Infinity] is the start value of the bounding-box scan of
    [fromOSMWay], which it never survives, and a possible answer of
    [parseInt]. *)
Inductive number : Type :=
  | Fin (r : R)
  | PosInf
  | NaN.

(** Any number: what [parseInt] answers and a property bag holds. *)
Inductive anyNumber : Type :=
  | Num (n : number)
  | NegInf.
Coercion Num : number >-> anyNumber.

(** [Math.min(a, b)]. *)
Definition num_min (a b : number) : number :=
  match a, b with
  | NaN, _ | _, NaN => NaN
  | PosInf, x | x, PosInf => x
  | Fin x, Fin y => Fin (Rmin x y)
  end.

(** [a * k] for a finite positive factor [k]. *)
Definition num_scale (a : number) (k : R) : number :=
  match a with
  | Fin x => Fin (x * k)
  | PosInf => PosInf
  | NaN => NaN
  end.

(** [a < b] for a finite [b]: false on [Infinity] and on [NaN]. *)
Definition num_ltb (a : number) (b : R) : bool :=
  match a with
  | Fin x => if Rlt_dec x b then true else false
  | _ => false
  end.

(** [Math.floor] of a finite number. *)
Definition floor (x : R) : Z := Int_part x.

(** ** Geometry utilities *)

Module Geometry.

Definition metersPerDegree : R := 111320.

(** [pointToLineDistance(px, py, x1, y1, x2, y2)] of roadIndex.ts; the
    clamp is written with two comparisons there and with
    [Math.max(0, Math.min(1, param))] in trafficSystem.js. *)
Definition clamp01 (param : R) : R :=
  if Rlt_dec param 0 then 0
  else if Rlt_dec 1 param then 1
  else param.

Definition pointToLineDistance (px py x1 y1 x2 y2 : R) : R :=
  let A := px - x1 in
  let B := py - y1 in
  let C := x2 - x1 in
  let D := y2 - y1 in
  let dot := A * C + B * D in
  let lenSq := C * C + D * D in
  if Req_dec_T lenSq 0 then sqrt (A * A + B * B)
  else
    let param := clamp01 (dot / lenSq) in
    let xx := x1 + param * C in
    let yy := y1 + param * D in
    let dx := px - xx in
    let dy := py - yy in
    sqrt (dx * dx + dy * dy).

(** The loop of [distanceToRoad] over the flat array
    [lon, lat, lon, lat, ...]: it runs while [i < positions.length - 2]
    and reads [positions[i .. i+3]]; with three entries left the fourth
    read is [undefined] and the distance is [NaN]. *)
Fixpoint minSegmentDistance (lon lat : R) (positions : list R)
    (minDistance : number) : number :=
  match positions with
  | x1 :: y1 :: rest =>
      match rest with
      | x2 :: y2 :: _ =>
          minSegmentDistance lon lat rest
            (num_min minDistance
               (Fin (pointToLineDistance lon lat x1 y1 x2 y2)))
      | [ _ ] => num_min minDistance NaN
      | [] => minDistance
      end
  | _ => minDistance
  end.

End Geometry.

(** ** Values, tags and parsing *)

(** A value stored in a property bag of the code. *)
Inductive jsval : Type :=
  | VUndefined
  | VNull
  | VNumber (n : anyNumber)
  | VString (s : string)
  | VBool (b : bool).

(** Reading property [k] of an object: [undefined] when it is absent. *)
Definition prop (o : gmap string jsval) (k : string) : jsval :=
  default VUndefined (o !! k).

(** The tag mapping of an OSM element; tag values are strings. *)
Definition truthyTag (tags : gmap string string) (k : string) : option string :=
  match tags !! k with
  | Some s => if String.eqb s "" then None else Some s
  | None => None
  end.

Module Parse.

Definition isDigit (c : ascii) : bool :=
  (48 <=? nat_of_ascii c)%nat && (nat_of_ascii c <=? 57)%nat.

(** White space skipped by [parseInt] at the front of a text: TAB, LF,
    VT, FF, CR and the space in one byte, and, a text being the bytes of
    its UTF-8 form, the other white-space characters in two or three:
    U+00A0, U+1680, U+2000 to U+200A, U+2028, U+2029, U+202F, U+205F,
    U+3000 and U+FEFF. *)
Definition isWhite (c : ascii) : bool :=
  let n := nat_of_ascii c in
  (n =? 32)%nat || ((9 <=? n)%nat && (n <=? 13)%nat).

Definition isWhite2 (c d : ascii) : bool :=
  (nat_of_ascii c =? 194)%nat && (nat_of_ascii d =? 160)%nat.

Definition isWhite3 (c d e : ascii) : bool :=
  let c := nat_of_ascii c in
  let d := nat_of_ascii d in
  let e := nat_of_ascii e in
  ((c =? 225) && (d =? 154) && (e =? 128))%nat
  || ((c =? 226) && (d =? 128)
      && (((128 <=? e) && (e <=? 138)) || (e =? 168) || (e =? 169) || (e =? 175)))%nat
  || ((c =? 226) && (d =? 129) && (e =? 159))%nat
  || ((c =? 227) && (d =? 128) && (e =? 128))%nat
  || ((c =? 239) && (d =? 187) && (e =? 191))%nat.

Fixpoint skipWhite (s : string) : string :=
  match s with
  | String c r =>
      if isWhite c then skipWhite r
      else
        match r with
        | String d r1 =>
            if isWhite2 c d then skipWhite r1
            else
              match r1 with
              | String e r2 => if isWhite3 c d e then skipWhite r2 else s
              | EmptyString => s
              end
        | EmptyString => s
        end
  | EmptyString => s
  end.

Definition digitVal (radix : Z) (c : ascii) : option Z :=
  let n := Z.of_nat (nat_of_ascii c) in
  let v :=
    if isDigit c then Some (n - 48)%Z
    else if ((97 <=? n) && (n <=? 122))%Z then Some (n - 87)%Z
    else if ((65 <=? n) && (n <=? 90))%Z then Some (n - 55)%Z
    else None in
  match v with
  | Some d => if (d <? radix)%Z then Some d else None
  | None => None
  end.

(** The longest run of digits at the front of [s]; [None] when it is empty. *)
Fixpoint parseDigits (radix : Z) (s : string) (acc : option Z) : option Z :=
  match s with
  | String c r =>
      match digitVal radix c with
      | Some d => parseDigits radix r (Some (radix * default 0%Z acc + d)%Z)
      | None => acc
      end
  | EmptyString => acc
  end.

(** The Number value of a whole number [z >= 0]: the binary64 number
    nearest to it, a tie going to the even significand, and [Infinity]
    from [2^1024 - 2^970] on.  Up to [2^53] every whole number is its own
    value; beyond, [z] lies between [2^(e+52)] and [2^(e+53)] and is
    rounded to a multiple of [2^e]. *)
Definition numberOf (z : Z) : number :=
  if (z <? 2 ^ 53)%Z then Fin (IZR z)
  else
    let e := (Z.log2 z - 52)%Z in
    let q := Z.shiftr z e in
    let r := (z - Z.shiftl q e)%Z in
    let half := Z.shiftl 1 (e - 1) in
    let q' :=
      if (r <? half)%Z then q
      else if (half <? r)%Z then (q + 1)%Z
      else if Z.even q then q else (q + 1)%Z in
    if (2 ^ 1024 <=? Z.shiftl q' e)%Z then PosInf else Fin (IZR (Z.shiftl q' e)).

(** [-n]. *)
Definition negate (n : number) : anyNumber :=
  match n with
  | Fin x => Fin (- x)
  | PosInf => NegInf
  | NaN => NaN
  end.

(** [parseInt(s)] with no radix argument: white space, a sign, [0x] or
    [0X] for base 16, then the longest run of digits of the base; the
    whole number read is turned into a Number.  (Beyond twenty significant
    decimal digits ECMAScript lets an engine round the digits that follow;
    V8 rounds the whole number once, as here.) *)
Definition parseInt (s : string) : anyNumber :=
  let s1 := skipWhite s in
  let '(sign, s2) :=
    match s1 with
    | String "-" r => ((-1)%Z, r)
    | String "+" r => (1%Z, r)
    | _ => (1%Z, s1)
    end in
  let '(radix, s3) :=
    match s2 with
    | String "0" (String "x" r) => (16%Z, r)
    | String "0" (String "X" r) => (16%Z, r)
    | _ => (10%Z, s2)
    end in
  match parseDigits radix s3 None with
  | Some z => if (sign <? 0)%Z then negate (numberOf z) else numberOf z
  | None => NaN
  end.

(** [s.replace(/[^0-9]/g, '')]. *)
Fixpoint stripNonDigits (s : string) : string :=
  match s with
  | String c r =>
      if isDigit c then String c (stripNonDigits r) else stripNonDigits r
  | EmptyString => EmptyString
  end.

(** [tags.lanes ? parseInt(tags.lanes) : undefined]. *)
Definition lanesOf (tags : gmap string string) : jsval :=
  match truthyTag tags "lanes" with
  | Some s => VNumber (parseInt s)
  | None => VUndefined
  end.

(** [tags.maxspeed ? parseInt(tags.maxspeed.replace(/[^0-9]/g, '')) : undefined]. *)
Definition maxspeedOf (tags : gmap string string) : jsval :=
  match truthyTag tags "maxspeed" with
  | Some s => VNumber (parseInt (stripNonDigits s))
  | None => VUndefined
  end.

End Parse.

(** ** Road segments and OSM elements *)

(** A geometry point of an OSM way, [{lon, lat}]. *)
Module Point.
Record t : Type := mk { lon : R; lat : R }.
End Point.

(** An element of [osmData.elements]: a way carries [geometry], a node
    carries [lon] and [lat].  [id] is the identifier as the template
    string prints it. *)
Module Element.
Record t : Type := mk {
  type : string;
  id : string;
  tags : option (gmap string string);
  geometry : option (list Point.t);
  lon : R;
  lat : R
}.
End Element.

Module OsmData.
Record t : Type := mk { elements : option (list Element.t) }.
End OsmData.

(** [RoadSegment] of roadIndex.ts.  [positions] is the flat array
    [lon, lat, lon, lat, ...]; [cesiumPositions] belongs to rendering and
    is left out. *)
Module RoadSegment.
Record t : Type := mk {
  id : string;
  name : string;
  kind : string;
  positions : list R;
  bbox : R * R * R * R;
  length : R;
  midpoint : R * R;
  metadata : option (gmap string jsval)
}.

(** [road.metadata = m] on the road object. *)
Definition setMetadata (road : t) (m : gmap string jsval) : t :=
  mk (id road) (name road) (kind road) (positions road) (bbox road)
     (length road) (midpoint road) (Some m).
End RoadSegment.

Module TrafficMetrics.
Inductive TrafficLevel : Type := HEAVY | MODERATE | LIGHT | MINIMAL.
Record t : Type := mk {
  currentVolume : R;
  forecast1h : R;
  forecast4h : R;
  forecast24h : R;
  level : TrafficLevel;
  lastUpdated : string;
  signalCount : nat
}.
End TrafficMetrics.

Module Geo.

(** [Math.atan2(y, x)]. *)
Definition atan2 (y x : R) : R :=
  if Rlt_dec 0 x then atan (y / x)
  else if Rlt_dec x 0 then
    (if Rlt_dec y 0 then atan (y / x) - PI else atan (y / x) + PI)
  else if Rlt_dec 0 y then PI / 2
  else if Rlt_dec y 0 then - (PI / 2)
  else 0.

(** One step of the length loop of [fromOSMWay], over the reals.  There
    [a] never leaves [0, 1]; in binary64 the rounded [a] can exceed 1 for
    two points close to opposite ends of the globe, where
    [Math.sqrt(1 - a)] and the distance are [NaN].  What is stated of the
    value of a distance keeps away from such points. *)
Definition haversine (lon1 lat1 lon2 lat2 : R) : R :=
  let dLat := (lat2 - lat1) * PI / 180 in
  let dLon := (lon2 - lon1) * PI / 180 in
  let a := sin (dLat / 2) * sin (dLat / 2) +
           cos (lat1 * PI / 180) * cos (lat2 * PI / 180) *
           sin (dLon / 2) * sin (dLon / 2) in
  let c := 2 * atan2 (sqrt a) (sqrt (1 - a)) in
  6371000 * c.

(** The length loop: same bounds as the distance loop above.  With an
    even number of entries the fourth read never fails. *)
Fixpoint polylineLength (positions : list R) (len : R) : R :=
  match positions with
  | lon1 :: lat1 :: rest =>
      match rest with
      | lon2 :: lat2 :: _ =>
          polylineLength rest (len + haversine lon1 lat1 lon2 lat2)
      | _ => len
      end
  | _ => len
  end.

(** [distanceToRoad(lon, lat, road)]: the same text in both classes. *)
Definition distanceToRoad (lon lat : R) (road : RoadSegment.t) : number :=
  num_scale
    (Geometry.minSegmentDistance lon lat (RoadSegment.positions road) PosInf)
    Geometry.metersPerDegree.

End Geo.

(** ** Building a segment from a way *)

Module Build.

(** [positions.push(point.lon, point.lat)] for every point. *)
Definition flatten (geometry : list Point.t) : list R :=
  flat_map (fun p => [Point.lon p; Point.lat p]) geometry.

(** The bounding-box scan.  [Math.min(Infinity, x) = x] and
    [Math.max(-Infinity, x) = x], so after the first point the four
    accumulators are that point's coordinates; the scan is started
    there. *)
Definition scanBBox (first : Point.t) (rest : list Point.t) : R * R * R * R :=
  fold_left
    (fun '(minLon, minLat, maxLon, maxLat) point =>
       (Rmin minLon (Point.lon point), Rmin minLat (Point.lat point),
        Rmax maxLon (Point.lon point), Rmax maxLat (Point.lat point)))
    rest
    (Point.lon first, Point.lat first, Point.lon first, Point.lat first).

(** [Math.floor(positions.length / 4) * 2]. *)
Definition midIdx (positions : list R) : nat :=
  (List.length positions / 4) * 2.

Definition nameOf (tags : gmap string string) : string :=
  match truthyTag tags "name" with
  | Some s => s
  | None =>
      match truthyTag tags "ref" with
      | Some s => s
      | None => "Unnamed " ++ default "road"%string (truthyTag tags "highway")
      end
  end.

Definition kindOf (tags : gmap string string) : string :=
  default "unknown"%string (truthyTag tags "highway").

Definition surfaceOf (tags : gmap string string) : jsval :=
  match tags !! "surface" with
  | Some s => VString s
  | None => VUndefined
  end.

(** The body shared by the two [fromOSMWay]: they differ in the
    metadata object only, which [mkMetadata] builds from the tags. *)
Definition fromOSMWay (mkMetadata : gmap string string -> gmap string jsval)
    (way : Element.t) : string + RoadSegment.t :=
  match Element.geometry way with
  | Some (first :: second :: more) =>
      let geometry := first :: second :: more in
      let positions := flatten geometry in
      let mid := midIdx positions in
      let tags := default ∅ (Element.tags way) in
      inr (RoadSegment.mk
             ("osm_way_" ++ Element.id way)
             (nameOf tags)
             (kindOf tags)
             positions
             (scanBBox first (second :: more))
             (Geo.polylineLength positions 0)
             (nth mid positions 0, nth (mid + 1) positions 0)
             (Some (mkMetadata tags)))
  | _ => inl "Invalid OSM way geometry"%string
  end.

End Build.

(** ** Effects: console output, exceptions, object state *)

Inductive logEntry : Type :=
  | LogAddedRoad (name id : string)
  | LogLoadingRoads
  | WarnFailedWay (id error : string)
  | LogLoadedRoads (roadCount : nat)
  | LogLoadingSignals
  | LogAddedSignal (roadName : option string)
  | WarnNoNearbyRoad (lon lat : R)
  | LogLoadedSignals (signalCount : nat)
  | LogEnsuringPCI
  | LogGeneratedSynthetic (syntheticCount : nat).

Definition isWarning (e : logEntry) : bool :=
  match e with
  | WarnFailedWay _ _ | WarnNoNearbyRoad _ _ => true
  | _ => false
  end.

Inductive outcome (A : Type) : Type :=
  | Return (a : A)
  | Throw (error : string).
Arguments Return {A} a.
Arguments Throw {A} error.

(** A method of an object with state [S]: it reads and writes the fields
    and the console, and returns or throws.  An [async] method is read as
    the settled promise. *)
Definition M (S A : Type) : Type :=
  S -> list logEntry -> outcome A * S * list logEntry.

Definition ret {S A} (a : A) : M S A := fun s c => (Return a, s, c).

Definition bind {S A B} (m : M S A) (k : A -> M S B) : M S B :=
  fun s c =>
    match m s c with
    | (Return a, s', c') => k a s' c'
    | (Throw e, s', c') => (Throw e, s', c')
    end.

Definition throw {S A} (e : string) : M S A := fun s c => (Throw e, s, c).
Definition gets {S A} (f : S -> A) : M S A := fun s c => (Return (f s), s, c).
Definition modify {S} (f : S -> S) : M S unit := fun s c => (Return tt, f s, c).
Definition console {S} (e : logEntry) : M S unit :=
  fun s c => (Return tt, s, c ++ [e]).

Declare Scope js_scope.
Delimit Scope js_scope with js.
Notation "'do' x <- m ;; k" := (bind m (fun x => k))
  (at level 10, x name, m at level 99, k at level 200) : js_scope.
Notation "'run' m ;; k" := (bind m (fun _ => k))
  (at level 10, m at level 99, k at level 200) : js_scope.

(** [for (const x of xs) body], with the loop variables in [acc]. *)
Fixpoint forOf {S A X} (xs : list X) (acc : A) (body : A -> X -> M S A) : M S A :=
  match xs with
  | [] => ret acc
  | x :: rest => bind (body acc x) (fun acc' => forOf rest acc' body)
  end.

(** Running a method of a part of the state. *)
Definition zoom {S T A} (proj : S -> T) (inj : T -> S -> S) (m : M T A) : M S A :=
  fun s c =>
    match m (proj s) c with
    | (r, t, c') => (r, inj t s, c')
    end.

(** ** A JavaScript [Map] with string keys

    [values()] iterates in insertion order and [set] on a present key
    keeps the key's place. *)
Module JSMap.

Definition t (V : Type) : Type := list (string * V).

Fixpoint get {V} (k : string) (m : t V) : option V :=
  match m with
  | [] => None
  | (k', v) :: rest => if String.eqb k k' then Some v else get k rest
  end.

Fixpoint set {V} (k : string) (v : V) (m : t V) : t V :=
  match m with
  | [] => [(k, v)]
  | (k', v') :: rest =>
      if String.eqb k k' then (k, v) :: rest else (k', v') :: set k v rest
  end.

Definition values {V} (m : t V) : list V := map snd m.
Definition keys {V} (m : t V) : list string := map fst m.
Definition size {V} (m : t V) : nat := List.length m.

End JSMap.

(** ** RBush

    The tree is a package the index imports; only its declaration
    [RBushClass] is in the repository.  It is taken as an interface with
    the contract of the package: [all] returns the inserted items and
    [search] those of them whose box meets the query box, both in an order
    the tree chooses. *)

Module BBox.
Record t : Type := mk { minX : R; minY : R; maxX : R; maxY : R }.
End BBox.

Module RTreeItem.
Record t : Type := mk {
  minX : R; minY : R; maxX : R; maxY : R;
  roadId : string
}.
End RTreeItem.

Definition Rleb (a b : R) : bool := if Rle_dec a b then true else false.

(** Closed boxes meet: [b.minX <= a.maxX && b.minY <= a.maxY &&
    b.maxX >= a.minX && b.maxY >= a.minY]. *)
Definition intersects (a : BBox.t) (b : RTreeItem.t) : bool :=
  Rleb (RTreeItem.minX b) (BBox.maxX a) && Rleb (RTreeItem.minY b) (BBox.maxY a)
  && Rleb (BBox.minX a) (RTreeItem.maxX b) && Rleb (BBox.minY a) (RTreeItem.maxY b).

Class RBush (T : Type) : Type := {
  rb_new : T;
  rb_insert : RTreeItem.t -> T -> T;
  rb_search : BBox.t -> T -> list RTreeItem.t;
  rb_all : T -> list RTreeItem.t;
  rb_all_new : rb_all rb_new = [];
  rb_all_insert : forall item tree, rb_all (rb_insert item tree) ≡ₚ item :: rb_all tree;
  rb_search_all : forall box tree,
    rb_search box tree ≡ₚ filter (fun item => intersects box item = true) (rb_all tree)
}.

(** The linear scan that meets the contract: items kept in insertion order. *)
Definition scanInsert (item : RTreeItem.t) (tree : list RTreeItem.t) : list RTreeItem.t :=
  tree ++ [item].
Definition scanSearch (box : BBox.t) (tree : list RTreeItem.t) : list RTreeItem.t :=
  filter (fun item => intersects box item = true) tree.

(** The linear scan is an RBush. *)
#[export] Instance scanTree : RBush (list RTreeItem.t).
Proof.
  refine {| rb_new := [];
            rb_insert := scanInsert;
            rb_search := scanSearch;
            rb_all := fun tree => tree |}.
  - reflexivity.
  - intros item tree. unfold scanInsert. symmetry. apply Permutation_cons_append.
  - intros box tree. reflexivity.
Defined.

(** ** The scan shared by the two [findNearest] *)

Module Scan.

(** One turn of the loop over the candidates: [nearestRoad] and
    [nearestDistance] are the loop variables; a candidate the roads map
    does not know is skipped ([if (!road) continue]). *)
Definition step (lon lat : R) (acc : option RoadSegment.t * R)
    (candidate : option RoadSegment.t) : option RoadSegment.t * R :=
  match candidate with
  | None => acc
  | Some road =>
      match Geo.distanceToRoad lon lat road with
      | Fin distance =>
          if Rlt_dec distance (snd acc) then (Some road, distance) else acc
      | _ => acc
      end
  end.

Definition nearest (lon lat maxDistanceMeters : R)
    (candidates : list (option RoadSegment.t)) : option RoadSegment.t :=
  match candidates with
  | [] => None
  | _ => fst (fold_left (step lon lat) candidates (None, maxDistanceMeters))
  end.

End Scan.

(** [element.type === 'way' && element.tags?.highway && element.geometry]. *)
Definition isRoadWay (element : Element.t) : bool :=
  String.eqb (Element.type element) "way"
  && match Element.tags element with
     | Some tags => bool_decide (is_Some (truthyTag tags "highway"))
     | None => false
     end
  && bool_decide (is_Some (Element.geometry element)).

(** ** roadIndex.ts: the index over an RBush tree *)

Module RTree.

Record RoadIndex (T : Type) : Type := mk {
  roads : JSMap.t RoadSegment.t;
  spatialIndex : T;
  trafficData : gmap string TrafficMetrics.t
}.
Arguments mk {T} roads spatialIndex trafficData.
Arguments roads {T} r.
Arguments spatialIndex {T} r.
Arguments trafficData {T} r.

Record Stats : Type := mkStats {
  roadCount : nat;
  indexSize : nat;
  trafficDataCount : nat
}.

Section Methods.
Context {T : Type} `{RBush T}.

Definition new : RoadIndex T := mk [] rb_new ∅.

Definition itemOf (segment : RoadSegment.t) : RTreeItem.t :=
  let '(x0, y0, x1, y1) := RoadSegment.bbox segment in
  RTreeItem.mk x0 y0 x1 y1 (RoadSegment.id segment).

Definition addRoad (segment : RoadSegment.t) : M (RoadIndex T) unit :=
  (run modify (fun st =>
         mk (JSMap.set (RoadSegment.id segment) segment (roads st))
            (spatialIndex st) (trafficData st)) ;;
   run modify (fun st =>
         mk (roads st) (rb_insert (itemOf segment) (spatialIndex st))
            (trafficData st)) ;;
   console (LogAddedRoad (RoadSegment.name segment) (RoadSegment.id segment)))%js.

Definition searchBbox (lon lat maxDistanceMeters : R) : BBox.t :=
  let maxDistanceDeg := maxDistanceMeters / 111320 in
  BBox.mk (lon - maxDistanceDeg) (lat - maxDistanceDeg)
          (lon + maxDistanceDeg) (lat + maxDistanceDeg).

(** The candidates of the search, each resolved through the roads map. *)
Definition candidates (lon lat maxDistanceMeters : R) (st : RoadIndex T)
    : list (option RoadSegment.t) :=
  map (fun candidate => JSMap.get (RTreeItem.roadId candidate) (roads st))
      (rb_search (searchBbox lon lat maxDistanceMeters) (spatialIndex st)).

Definition findNearest (lon lat maxDistanceMeters : R)
    : M (RoadIndex T) (option RoadSegment.t) :=
  gets (fun st =>
          Scan.nearest lon lat maxDistanceMeters
            (candidates lon lat maxDistanceMeters st)).

Definition getRoad (id : string) : M (RoadIndex T) (option RoadSegment.t) :=
  gets (fun st => JSMap.get id (roads st)).

Definition getAllRoads : M (RoadIndex T) (list RoadSegment.t) :=
  gets (fun st => JSMap.values (roads st)).

Definition setTrafficData (roadId : string) (metrics : TrafficMetrics.t)
    : M (RoadIndex T) unit :=
  modify (fun st =>
            mk (roads st) (spatialIndex st) (<[roadId := metrics]> (trafficData st))).

Definition getTrafficData (roadId : string)
    : M (RoadIndex T) (option TrafficMetrics.t) :=
  gets (fun st => trafficData st !! roadId).

Definition mkMetadata (tags : gmap string string) : gmap string jsval :=
  {[ "lanes"%string := Parse.lanesOf tags;
     "maxspeed"%string := Parse.maxspeedOf tags;
     "surface"%string := Build.surfaceOf tags ]}.

Definition fromOSMWay (way : Element.t) : string + RoadSegment.t :=
  Build.fromOSMWay mkMetadata way.

(** The body of the loop of [loadFromOSM], [try] and [catch] included.
    The method resolves to nothing ([Promise<void>]); the count is only
    written to the console. *)
Definition loadStep (roadCount : nat) (element : Element.t) : M (RoadIndex T) nat :=
  (if isRoadWay element then
     match fromOSMWay element with
     | inr road => run addRoad road ;; ret (S roadCount)
     | inl error =>
         run console (WarnFailedWay (Element.id element) error) ;;
         ret roadCount
     end
   else ret roadCount)%js.

Definition loadFromOSM (osmData : OsmData.t) : M (RoadIndex T) unit :=
  (run console LogLoadingRoads ;;
   match OsmData.elements osmData with
   | None => throw "Invalid OSM data format"
   | Some elements =>
       do roadCount <- forOf elements 0%nat loadStep ;;
       console (LogLoadedRoads roadCount)
   end)%js.

Definition getStats : M (RoadIndex T) Stats :=
  gets (fun st =>
          mkStats (JSMap.size (roads st))
                  (List.length (rb_all (spatialIndex st)))
                  (size (trafficData st))).

End Methods.

End RTree.

(** ** trafficSystem.js: the index over a uniform grid *)

Module Grid.

Record RoadIndex : Type := mk {
  roads : JSMap.t RoadSegment.t;
  trafficData : gmap string TrafficMetrics.t;
  spatialGrid : gmap (Z * Z) (list string)
}.

Record Stats : Type := mkStats {
  roadCount : nat;
  trafficDataCount : nat
}.

Definition gridSize : R := 1 / 1000.

Definition new : RoadIndex := mk [] ∅ ∅.

(** The key is the string [gridX,gridY]; the pair of integers stands for it. *)
Definition getGridKey (lon lat : R) : Z * Z :=
  (floor (lon / gridSize), floor (lat / gridSize)).

Definition addRoad (road : RoadSegment.t) : M RoadIndex unit :=
  (run modify (fun st =>
         mk (JSMap.set (RoadSegment.id road) road (roads st))
            (trafficData st) (spatialGrid st)) ;;
   let gridKey := getGridKey (fst (RoadSegment.midpoint road))
                             (snd (RoadSegment.midpoint road)) in
   run modify (fun st =>
         match spatialGrid st !! gridKey with
         | Some _ => st
         | None => mk (roads st) (trafficData st) (<[gridKey := []]> (spatialGrid st))
         end) ;;
   run modify (fun st =>
         mk (roads st) (trafficData st)
            (<[gridKey := default [] (spatialGrid st !! gridKey) ++ [RoadSegment.id road]]>
               (spatialGrid st))) ;;
   console (LogAddedRoad (RoadSegment.name road) ""))%js.

Definition searchRadius : Z := 2.

(** [for (let d = -searchRadius; d <= searchRadius; d++)]. *)
Definition offsets : list Z := seqZ (- searchRadius) (2 * searchRadius + 1).

Definition candidates (lon lat : R) (st : RoadIndex) : list (option RoadSegment.t) :=
  let centerGridX := floor (lon / gridSize) in
  let centerGridY := floor (lat / gridSize) in
  flat_map (fun dx =>
    flat_map (fun dy =>
      let gridKey := ((centerGridX + dx)%Z, (centerGridY + dy)%Z) in
      let cellRoads := default [] (spatialGrid st !! gridKey) in
      map (fun roadId => JSMap.get roadId (roads st)) cellRoads)
    offsets)
  offsets.

Definition findNearest (lon lat maxDistanceMeters : R)
    : M RoadIndex (option RoadSegment.t) :=
  gets (fun st => Scan.nearest lon lat maxDistanceMeters (candidates lon lat st)).

Definition mkMetadata (tags : gmap string string) : gmap string jsval :=
  {[ "lanes"%string := Parse.lanesOf tags;
     "maxspeed"%string := Parse.maxspeedOf tags;
     "surface"%string := Build.surfaceOf tags;
     "pci"%string := VNull ]}.

Definition fromOSMWay (way : Element.t) : string + RoadSegment.t :=
  Build.fromOSMWay mkMetadata way.

(** The body of the loop of [loadFromOSM], [try] and [catch] included. *)
Definition loadStep (roadCount : nat) (element : Element.t) : M RoadIndex nat :=
  (if isRoadWay element then
     match fromOSMWay element with
     | inr road => run addRoad road ;; ret (S roadCount)
     | inl error =>
         run console (WarnFailedWay (Element.id element) error) ;;
         ret roadCount
     end
   else ret roadCount)%js.

Definition loadFromOSM (osmData : OsmData.t) : M RoadIndex nat :=
  (run console LogLoadingRoads ;;
   match OsmData.elements osmData with
   | None => throw "Invalid OSM data format"
   | Some elements =>
       do roadCount <- forOf elements 0%nat loadStep ;;
       run console (LogLoadedRoads roadCount) ;;
       ret roadCount
   end)%js.

Definition getRoad (id : string) : M RoadIndex (option RoadSegment.t) :=
  gets (fun st => JSMap.get id (roads st)).

Definition getAllRoads : M RoadIndex (list RoadSegment.t) :=
  gets (fun st => JSMap.values (roads st)).

Definition setTrafficData (roadId : string) (metrics : TrafficMetrics.t)
    : M RoadIndex unit :=
  modify (fun st =>
            mk (roads st) (<[roadId := metrics]> (trafficData st)) (spatialGrid st)).

Definition getTrafficData (roadId : string) : M RoadIndex (option TrafficMetrics.t) :=
  gets (fun st => trafficData st !! roadId).

Definition getStats : M RoadIndex Stats :=
  gets (fun st => mkStats (JSMap.size (roads st)) (size (trafficData st))).

End Grid.

(** ** trafficSystem.js: traffic signals *)

Module SignalManager.

(** [signal_${lon}_${lat}]: the two coordinates stand for the string. *)
Definition SignalId : Type := (R * R)%type.

(** What [viewer.entities.add] is given, without the billboard. *)
Record Entity : Type := mkEntity {
  entityId : SignalId;
  entityName : string;
  propType : string;
  propRoadId : option string;
  propRoadName : string;
  propLon : R;
  propLat : R
}.

Record Signal : Type := mkSignal {
  id : SignalId;
  lon : R;
  lat : R;
  roadId : option string;
  roadName : string;
  entity : Entity
}.

Record t : Type := mk {
  viewerEntities : list Entity;
  roadIndex : Grid.RoadIndex;
  signals : list Signal;
  signalEntities : list (SignalId * Entity)
}.

Definition new (roadIndex : Grid.RoadIndex) : t := mk [] roadIndex [] [].

Definition sameId (a b : SignalId) : bool :=
  (if Req_dec_T (fst a) (fst b) then true else false)
  && (if Req_dec_T (snd a) (snd b) then true else false).

(** [this.signalEntities.set(signalId, entity)]. *)
Fixpoint setEntity (k : SignalId) (v : Entity) (m : list (SignalId * Entity))
    : list (SignalId * Entity) :=
  match m with
  | [] => [(k, v)]
  | (k', v') :: rest =>
      if sameId k k' then (k, v) :: rest else (k', v') :: setEntity k v rest
  end.

Definition addSignal (lon lat : R) (nearestRoad : option RoadSegment.t)
    : M t Signal :=
  let signalId := (lon, lat) in
  let entity :=
    mkEntity signalId
      ("🚦 Traffic Signal • " ++
         match nearestRoad with
         | Some road => RoadSegment.name road
         | None => "Unknown Road"
         end)
      "traffic_signal"
      (option_map RoadSegment.id nearestRoad)
      (match nearestRoad with
       | Some road => RoadSegment.name road
       | None => "Unknown"
       end)
      lon lat in
  let signal :=
    mkSignal signalId lon lat
      (option_map RoadSegment.id nearestRoad)
      (match nearestRoad with
       | Some road => RoadSegment.name road
       | None => "Unknown"
       end)
      entity in
  (run modify (fun st =>
         mk (viewerEntities st ++ [entity]) (roadIndex st) (signals st)
            (signalEntities st)) ;;
   run modify (fun st =>
         mk (viewerEntities st) (roadIndex st) (signals st ++ [signal])
            (signalEntities st)) ;;
   run modify (fun st =>
         mk (viewerEntities st) (roadIndex st) (signals st)
            (setEntity signalId entity (signalEntities st))) ;;
   run console (LogAddedSignal (option_map RoadSegment.name nearestRoad)) ;;
   ret signal)%js.

(** [element.type === "node" && element.tags?.highway === "traffic_signals"]. *)
Definition isSignalNode (element : Element.t) : bool :=
  String.eqb (Element.type element) "node"
  && match Element.tags element with
     | Some tags =>
         match tags !! "highway" with
         | Some v => String.eqb v "traffic_signals"
         | None => false
         end
     | None => false
     end.

Definition onIndex {A} (m : M Grid.RoadIndex A) : M t A :=
  zoom roadIndex
       (fun idx st => mk (viewerEntities st) idx (signals st) (signalEntities st))
       m.

(** The body of the loop of [loadFromOSM]. *)
Definition loadStep (signalCount : nat) (element : Element.t) : M t nat :=
  (if isSignalNode element then
     do nearestRoad <-
       onIndex (Grid.findNearest (Element.lon element) (Element.lat element) 25) ;;
     match nearestRoad with
     | Some road =>
         run addSignal (Element.lon element) (Element.lat element) (Some road) ;;
         ret (S signalCount)
     | None =>
         run console (WarnNoNearbyRoad (Element.lon element) (Element.lat element)) ;;
         ret signalCount
     end
   else ret signalCount)%js.

Definition loadFromOSM (osmData : OsmData.t) : M t nat :=
  (run console LogLoadingSignals ;;
   match OsmData.elements osmData with
   | None => throw "TypeError: osmData.elements is not iterable"
   | Some elements =>
       do signalCount <- forOf elements 0%nat loadStep ;;
       run console (LogLoadedSignals signalCount) ;;
       ret signalCount
   end)%js.


End SignalManager.

(** ** PCI joiner *)

Module PCIJoiner.

Record PCIRecord : Type := mkRecord {
  id : string;
  location : R * R;
  pci : R;
  condition : string;
  lastInspection : string;
  surface : string
}.


(** [Math.round(x)]. *)
Definition round (x : R) : R := IZR (floor (x + 1 / 2)).

(** [calculateDistance]: the haversine step of [fromOSMWay] again. *)
Definition calculateDistance (lon1 lat1 lon2 lat2 : R) : R :=
  Geo.haversine lon1 lat1 lon2 lat2.

(** [findNearestPCI]: the record found and its rounded [distance]. *)
Definition findNearestPCI (pciData : list PCIRecord) (lon lat maxDistanceMeters : R)
    : option (PCIRecord * R) :=
  fst (fold_left
         (fun '(nearestPCI, nearestDistance) pci =>
            let distance :=
              calculateDistance lon lat (fst (location pci)) (snd (location pci)) in
            if Rlt_dec distance nearestDistance
            then (Some (pci, round distance), distance)
            else (nearestPCI, nearestDistance))
         pciData (None, maxDistanceMeters)).

(** [road.metadata = road.metadata || {}]. *)
Definition metadataOrEmpty (road : RoadSegment.t) : gmap string jsval :=
  default ∅ (RoadSegment.metadata road).

(** The console lines of [joinToRoads]. *)
Inductive JoinLog : Type :=
  | LogJoining
  | LogJoined (pci : R) (name : string) (distance : R)
  | LogNoPCIData (name : string)
  | LogJoinComplete (joinCount total : nat).

(** One turn of the loop of [joinToRoads]; the road object is changed
    in place, the model hands the changed road back, with the console line
    of the turn. *)
Definition joinRoad (pciData : list PCIRecord) (road : RoadSegment.t)
    : RoadSegment.t * bool * JoinLog :=
  let '(lon, lat) := RoadSegment.midpoint road in
  match findNearestPCI pciData lon lat 50 with
  | Some (nearestPCI, distance) =>
      (RoadSegment.setMetadata road
         (<["pciDistance"%string := VNumber (Fin distance)]>
          (<["pciSurface"%string := VString (surface nearestPCI)]>
           (<["pciLastInspection"%string := VString (lastInspection nearestPCI)]>
            (<["pciCondition"%string := VString (condition nearestPCI)]>
             (<["pci"%string := VNumber (Fin (pci nearestPCI))]>
              (metadataOrEmpty road)))))),
       true,
       LogJoined (pci nearestPCI) (RoadSegment.name road) distance)
  | None =>
      (RoadSegment.setMetadata road
         (<["pciCondition"%string := VString "Unknown"]>
          (<["pci"%string := VNull]> (metadataOrEmpty road))),
       false,
       LogNoPCIData (RoadSegment.name road))
  end.

(** [joinToRoads(roads)]: the roads as the loop leaves them, the count
    returned, and the console lines. *)
Definition joinToRoads (pciData : list PCIRecord) (roads : list RoadSegment.t)
    : list RoadSegment.t * nat * list JoinLog :=
  let '(done, joinCount, log) :=
    fold_left
      (fun '(done, joinCount, log) road =>
         let '(road', joined, line) := joinRoad pciData road in
         (done ++ [road'], if joined then S joinCount else joinCount, log ++ [line]))
      roads ([], 0%nat, [LogJoining]) in
  (done, joinCount, log ++ [LogJoinComplete joinCount (List.length roads)]).

(** [getPCICategory(pci)], [None] for [null] and [undefined]. *)
Definition getPCICategory (pci : option number) : string :=
  match pci with
  | None => "Unknown"
  | Some (Fin x) =>
      if Rle_dec 80 x then "Excellent"
      else if Rle_dec 70 x then "Good"
      else if Rle_dec 60 x then "Fair"
      else "Poor"
  | Some PosInf => "Excellent"
  | Some NaN => "Poor"
  end.

(** [getPCIColor(pci)], with the thresholds of [getPCICategory]. *)
Definition getPCIColor (pci : option number) : string :=
  match pci with
  | None => "#888888"
  | Some (Fin x) =>
      if Rle_dec 80 x then "#00ff00"
      else if Rle_dec 70 x then "#90ee90"
      else if Rle_dec 60 x then "#ffd700"
      else "#ff4444"
  | Some PosInf => "#00ff00"
  | Some NaN => "#ff4444"
  end.

(** What the generator reads from its surroundings: the draws of
    [Math.random()] still to come and the clock of [new Date()]. *)
Record Runtime : Type := mkRuntime {
  draws : nat -> R;
  clock : R
}.

Definition mathRandom : M Runtime R :=
  fun s c => (Return (draws s 0%nat), mkRuntime (fun n => draws s (S n)) (clock s), c).

Record SyntheticPCI : Type := mkSynthetic {
  synPci : R;
  synCondition : string;
  synLastInspection : string;
  synSurface : string;
  synthetic : bool
}.

Definition basePCIOf (kind : string) : R :=
  if String.eqb kind "trunk" || String.eqb kind "primary" then 80
  else if String.eqb kind "residential" || String.eqb kind "service" then 65
  else 75.

Section Dates.
  (** [new Date(ms).toISOString().split('T')[0]], the runtime's date printer. *)
Variable toISODate : R -> string.

Definition getRandomInspectionDate : M Runtime string :=
  (do now <- gets clock ;;
   let oneYearAgo := now - 365 * 24 * 60 * 60 * 1000 in
   do r <- mathRandom ;;
   let randomTime := oneYearAgo + r * (now - oneYearAgo) in
   ret (toISODate randomTime))%js.

Definition generateSyntheticPCI (road : RoadSegment.t) : M Runtime SyntheticPCI :=
  (let basePCI := basePCIOf (RoadSegment.kind road) in
   do r <- mathRandom ;;
   let variation := (r - 1 / 2) * 20 in
   let finalPCI := Rmax 40 (Rmin 95 (basePCI + variation)) in
   do lastInspection <- getRandomInspectionDate ;;
   do r' <- mathRandom ;;
   ret (mkSynthetic (round finalPCI)
          (getPCICategory (Some (Fin finalPCI)))
          lastInspection
          (if Rlt_dec (3 / 10) r' then "Asphalt" else "Concrete")
          true))%js.

(** [!road.metadata || road.metadata.pci === null]. *)
Definition lacksPCI (road : RoadSegment.t) : bool :=
  match RoadSegment.metadata road with
  | None => true
  | Some m => match m !! "pci" with Some VNull => true | _ => false end
  end.

(** One turn of the loop of [ensureAllRoadsHavePCI]: the roads gone
    through so far and the count are the loop variables. *)
Definition fillStep (acc : list RoadSegment.t * nat) (road : RoadSegment.t)
    : M Runtime (list RoadSegment.t * nat) :=
  let '(done, syntheticCount) := acc in
  if lacksPCI road then
    (do syntheticPCI <- generateSyntheticPCI road ;;
     ret (done ++
            [RoadSegment.setMetadata road
               (<["pciSynthetic"%string := VBool true]>
                (<["pciSurface"%string := VString (synSurface syntheticPCI)]>
                 (<["pciLastInspection"%string := VString (synLastInspection syntheticPCI)]>
                  (<["pciCondition"%string := VString (synCondition syntheticPCI)]>
                   (<["pci"%string := VNumber (Fin (synPci syntheticPCI))]>
                    (metadataOrEmpty road))))))],
          S syntheticCount))%js
  else ret (done ++ [road], syntheticCount).

(** [ensureAllRoadsHavePCI(roads)], from its first console line to its
    last.  The roads are changed in place; the model returns them, in the
    order of the array, with the count the method returns. *)
Definition ensureAllRoadsHavePCI (roads : list RoadSegment.t)
    : M Runtime (list RoadSegment.t * nat) :=
  (run console LogEnsuringPCI ;;
   do filled <- forOf roads ([], 0%nat) fillStep ;;
   run console (LogGeneratedSynthetic (snd filled)) ;;
   ret filled)%js.

End Dates.

End PCIJoiner.

(** ** The forecast chart of the info panel

    [drawForecastChart(data)] of [TrafficInfoPanel] draws on the 2D
    context of the canvas; the calls it makes on the context are recorded
    in order.  [width] and [height] are those of the canvas, and [data] an
    array of finite numbers. *)

Module TrafficInfoPanel.

Inductive CanvasCall : Type :=
  | ClearRect (x y w h : R)
  | SetStrokeStyle (style : string)
  | SetLineWidth (w : R)
  | SetFillStyle (style : string)
  | BeginPath
  | MoveTo (x : number) (y : R)
  | LineTo (x : number) (y : R)
  | Stroke
  | Arc (x : number) (y radius startAngle endAngle : R)
  | Fill.

Definition padding : R := 10.

(** [Math.max(...data)] and [Math.min(...data)] of an array that is not
    empty. *)
Definition maxOf (first : R) (rest : list R) : R := fold_left Rmax rest first.
Definition minOf (first : R) (rest : list R) : R := fold_left Rmin rest first.

(** [maxVal - minVal || 1]. *)
Definition rangeOf (maxVal minVal : R) : R :=
  if Req_dec_T (maxVal - minVal) 0 then 1 else maxVal - minVal.

(** [padding + (i * chartWidth) / (data.length - 1)]; for an array of one
    value the quotient is [0 / 0]. *)
Definition xOf (chartWidth : R) (n i : nat) : number :=
  if (n =? 1)%nat then NaN
  else Fin (padding + (INR i * chartWidth) / (INR n - 1)).

(** [padding + chartHeight - ((data[i] - minVal) / range) * chartHeight]. *)
Definition yOf (chartHeight minVal range v : R) : R :=
  padding + chartHeight - ((v - minVal) / range) * chartHeight.

(** The five horizontal grid lines. *)
Definition gridLines (width chartHeight : R) : list CanvasCall :=
  flat_map (fun i =>
              let y := padding + (INR i * chartHeight) / 4 in
              [BeginPath; MoveTo (Fin padding) y; LineTo (Fin (width - padding)) y; Stroke])
           (seq 0 5).

(** The data line: [moveTo] for the first value, [lineTo] for the
    others. *)
Definition dataLine (point : nat -> R -> number * R) (data : list R) : list CanvasCall :=
  imap (fun i v =>
          if (i =? 0)%nat then MoveTo (fst (point i v)) (snd (point i v))
          else LineTo (fst (point i v)) (snd (point i v)))
       data.

(** The data points: one filled circle of radius 3 for each value. *)
Definition dataPoints (point : nat -> R -> number * R) (data : list R) : list CanvasCall :=
  concat (imap (fun i v =>
                  [BeginPath; Arc (fst (point i v)) (snd (point i v)) 3 0 (2 * PI); Fill])
               data).

Definition drawForecastChart (width height : R) (data : list R) : list CanvasCall :=
  ClearRect 0 0 width height ::
  match data with
  | [] => []
  | first :: rest =>
      let chartWidth := width - 2 * padding in
      let chartHeight := height - 2 * padding in
      let maxVal := maxOf first rest in
      let minVal := minOf first rest in
      let range := rangeOf maxVal minVal in
      let point := fun i v =>
        (xOf chartWidth (List.length data) i, yOf chartHeight minVal range v) in
      [SetStrokeStyle "rgba(255, 255, 255, 0.1)"; SetLineWidth 1]
        ++ gridLines width chartHeight
        ++ [SetStrokeStyle "#00d4ff"; SetLineWidth 2; BeginPath]
        ++ dataLine point data
        ++ [Stroke; SetFillStyle "#00d4ff"]
        ++ dataPoints point data
  end.

End TrafficInfoPanel.

(** ** Arrays handed to the caller

    [Array.from(this.roads.values())] builds a new array object on every
    call.  Array objects live in a heap indexed by reference; the index of
    roadIndex.ts keeps its roads in a [Map] and in the tree and holds no
    reference into that heap. *)

Module Caller.

Abbreviation ArrayHeap := (gmap positive (list RoadSegment.t)).

Record World (T : Type) : Type := mkWorld {
  index : RTree.RoadIndex T;
  arrays : ArrayHeap
}.
Arguments mkWorld {T} index arrays.
Arguments index {T} w.
Arguments arrays {T} w.

(** [Array.from(xs)]: a reference no array has yet. *)
Definition arrayFrom (xs : list RoadSegment.t) (h : ArrayHeap) : positive * ArrayHeap :=
  let ref := fresh (dom h) in (ref, <[ref := xs]> h).

(** [getAllRoads()] as the caller sees it: the reference of the new array. *)
Definition getAllRoads {T} `{RBush T} (w : World T) : positive * World T :=
  match RTree.getAllRoads (index w) [] with
  | (Return xs, st, _) =>
      let '(ref, h) := arrayFrom xs (arrays w) in (ref, mkWorld st h)
  | (Throw _, st, _) => (1%positive, mkWorld st (arrays w))
  end.

(** Any change the caller makes to the array behind [ref]: [push], [pop],
    [sort], an assignment to an entry. *)
Definition mutateArray {T} (ref : positive)
    (change : list RoadSegment.t -> list RoadSegment.t) (w : World T) : World T :=
  mkWorld (index w) (alter change ref (arrays w)).

End Caller.

(** ** Vocabulary of the statements *)

(** The state an object is left in by a call, whatever the call returns. *)
Definition stateAfter {S A} (m : M S A) (s : S) : S := snd (fst (m s [])).

(** What a call returns. *)
Definition resultOf {S A} (m : M S A) (s : S) : outcome A := fst (fst (m s [])).

(** What a call writes to the console. *)
Definition consoleOf {S A} (m : M S A) (s : S) : list logEntry := snd (m s []).

(** No character of [s] is a decimal digit. *)
Fixpoint noDigit (s : string) : bool :=
  match s with
  | String c r => negb (Parse.isDigit c) && noDigit r
  | EmptyString => true
  end.

(** A way the loader takes, and a way it has to skip: fewer than two
    geometry points. *)
Definition loadable (element : Element.t) : bool :=
  isRoadWay element
  && bool_decide (2 <= List.length (default [] (Element.geometry element)))%nat.

Definition malformed (element : Element.t) : bool :=
  isRoadWay element
  && bool_decide (List.length (default [] (Element.geometry element)) < 2)%nat.

(** The segments a loader builds from a batch, in the order of the batch. *)
Definition segmentsOf (fromWay : Element.t -> string + RoadSegment.t)
    (elements : list Element.t) : list RoadSegment.t :=
  omap (fun element =>
          match fromWay element with
          | inr road => Some road
          | inl _ => None
          end)
       (List.filter loadable elements).

Definition setRoad (m : JSMap.t RoadSegment.t) (road : RoadSegment.t)
    : JSMap.t RoadSegment.t :=
  JSMap.set (RoadSegment.id road) road m.

(** A residential way whose lane count is the word [two] and whose speed
    limit is the word [fast]. *)
Definition wayWithWords : Element.t :=
  Element.mk "way" "42"
    (Some {[ "highway"%string := "residential"%string;
             "lanes"%string := "two"%string;
             "maxspeed"%string := "fast"%string ]})
    (Some [Point.mk 0 0; Point.mk 1 1]) 0 0.


(** The warning written for a skipped way. *)
Definition warnOf (element : Element.t) : logEntry :=
  WarnFailedWay (Element.id element) "Invalid OSM way geometry".

(** Scenario 4: ten residential ways, the fifth with a single point; and
    the same batch without the fifth. *)
Definition residentialWay (id : string) (points : list Point.t) : Element.t :=
  Element.mk "way" id (Some {[ "highway"%string := "residential"%string ]})
             (Some points) 0 0.

Definition twoPoints : list Point.t := [Point.mk 0 0; Point.mk 1 1].

Definition batchOfNine : list Element.t :=
  [ residentialWay "1" twoPoints; residentialWay "2" twoPoints;
    residentialWay "3" twoPoints; residentialWay "4" twoPoints;
    residentialWay "6" twoPoints; residentialWay "7" twoPoints;
    residentialWay "8" twoPoints; residentialWay "9" twoPoints;
    residentialWay "10" twoPoints ].

Definition batchOfTen : list Element.t :=
  [ residentialWay "1" twoPoints; residentialWay "2" twoPoints;
    residentialWay "3" twoPoints; residentialWay "4" twoPoints;
    residentialWay "5" [Point.mk 0 0];
    residentialWay "6" twoPoints; residentialWay "7" twoPoints;
    residentialWay "8" twoPoints; residentialWay "9" twoPoints;
    residentialWay "10" twoPoints ].

(** The operations that change an index. *)
Inductive op : Type :=
  | AddRoad (segment : RoadSegment.t)
  | LoadFromOSM (osmData : OsmData.t)
  | SetTrafficData (roadId : string) (metrics : TrafficMetrics.t).

Definition gridCall (o : op) : M Grid.RoadIndex unit :=
  match o with
  | AddRoad segment => Grid.addRoad segment
  | LoadFromOSM osmData => bind (Grid.loadFromOSM osmData) (fun _ => ret tt)
  | SetTrafficData roadId metrics => Grid.setTrafficData roadId metrics
  end.

Definition rtreeCall {T} `{RBush T} (o : op) : M (RTree.RoadIndex T) unit :=
  match o with
  | AddRoad segment => RTree.addRoad segment
  | LoadFromOSM osmData => RTree.loadFromOSM osmData
  | SetTrafficData roadId metrics => RTree.setTrafficData roadId metrics
  end.

(** The index after a sequence of operations on a fresh one. *)
Definition gridAfter (ops : list op) : Grid.RoadIndex :=
  fold_left (fun st o => stateAfter (gridCall o) st) ops Grid.new.

Definition rtreeAfter {T} `{RBush T} (ops : list op) : RTree.RoadIndex T :=
  fold_left (fun st o => stateAfter (rtreeCall o) st) ops RTree.new.

(** The data-model invariant of a segment's box: every position lies
    within it. *)
Fixpoint boxCovers (box : R * R * R * R) (positions : list R) : Prop :=
  match positions with
  | x :: y :: rest =>
      let '(minLon, minLat, maxLon, maxLat) := box in
      minLon <= x <= maxLon /\ minLat <= y <= maxLat /\ boxCovers box rest
  | _ => True
  end.

Definition wellBoxed (segment : RoadSegment.t) : Prop :=
  boxCovers (RoadSegment.bbox segment) (RoadSegment.positions segment).

(** Segments handed to [addRoad] directly respect the invariant; the
    loader's own segments are shown to. *)
Definition opBoxed (o : op) : Prop :=
  match o with
  | AddRoad segment => wellBoxed segment
  | _ => True
  end.

(** The distance in meters [distanceToRoad] gives a segment from a point
    is the finite number [d]. *)
Definition distanceIs (lon lat : R) (road : RoadSegment.t) (d : R) : Prop :=
  Geo.distanceToRoad lon lat road = Fin d.

(** No segment of [roads] is strictly nearer than [d]. *)
Definition noneNearer (lon lat d : R) (roads : list RoadSegment.t) : Prop :=
  forall road x, road ∈ roads -> distanceIs lon lat road x -> d <= x.

(** The brute-force reference: the scan run over every segment of the
    roads map. *)
Definition linearScan (lon lat maxDistanceMeters : R)
    (roads : JSMap.t RoadSegment.t) : option RoadSegment.t :=
  Scan.nearest lon lat maxDistanceMeters (map Some (JSMap.values roads)).

(** The midpoint of [road] lies in the block of cells the grid query
    scans around the cell of the query point. *)
Definition inWindow (lon lat : R) (road : RoadSegment.t) : Prop :=
  let '(gx, gy) := Grid.getGridKey (fst (RoadSegment.midpoint road))
                                   (snd (RoadSegment.midpoint road)) in
  let '(cx, cy) := Grid.getGridKey lon lat in
  (cx - 2 <= gx <= cx + 2)%Z /\ (cy - 2 <= gy <= cy + 2)%Z.

(** Every segment among [cands] is at [d] or farther ([strict]: farther). *)
Definition allFar (lon lat : R) (strict : bool) (d : R) (cands : list (option RoadSegment.t)) : Prop :=
  forall road x, Some road ∈ cands -> distanceIs lon lat road x ->
                 if strict then d < x else d <= x.

(** [(x1, y1, x2, y2)] is one of the consecutive-position sub-segments
    of the flat array. *)
Fixpoint hasSegment (positions : list R) (seg : R * R * R * R) : Prop :=
  match positions with
  | x1 :: y1 :: rest =>
      match rest with
      | x2 :: y2 :: _ => seg = (x1, y1, x2, y2)
      | _ => False
      end \/ hasSegment rest seg
  | _ => False
  end.

(** The straight-line distance between two points, in the unit of the
    coordinates. *)
Definition planarDistance (px py qx qy : R) : R :=
  sqrt ((px - qx) * (px - qx) + (py - qy) * (py - qy)).

(** The distance from a point to one sub-segment of a polyline. *)
Definition segmentDistance (lon lat : R) (seg : R * R * R * R) : R :=
  let '(x1, y1, x2, y2) := seg in Geometry.pointToLineDistance lon lat x1 y1 x2 y2.

(** The point [(x, y)] lies on the polyline of a flat array of
    positions: on one of its consecutive sub-segments, ends included. *)
Definition onPolyline (positions : list R) (x y : R) : Prop :=
  exists x1 y1 x2 y2 t,
    hasSegment positions (x1, y1, x2, y2) /\ 0 <= t <= 1 /\
    x = x1 + t * (x2 - x1) /\ y = y1 + t * (y2 - y1).

(** The true distance of a segment from a point, as geometry has it and
    in the unit of [distanceToRoad]: the least straight-line distance, in
    degrees, from the point to a point of the segment's polyline, times
    111320 meters.  It is that of a segment whose positions are those of
    two points or more; [distanceIs] above is what the code computes. *)
Definition trueDistance (lon lat : R) (road : RoadSegment.t) (d : R) : Prop :=
  (exists geometry,
     RoadSegment.positions road = Build.flatten geometry /\
     (2 <= List.length geometry)%nat) /\
  (exists x y,
     onPolyline (RoadSegment.positions road) x y /\
     d = 111320 * planarDistance lon lat x y) /\
  (forall x y,
     onPolyline (RoadSegment.positions road) x y ->
     d <= 111320 * planarDistance lon lat x y).

(** A point lies in a box. *)
Definition inBox (box : R * R * R * R) (p : Point.t) : Prop :=
  let '(minLon, minLat, maxLon, maxLat) := box in
  minLon <= Point.lon p <= maxLon /\ minLat <= Point.lat p <= maxLat.

(** The roads map and the tree know the same segments: keys are not
    repeated, a segment is stored under its own id with its item in the
    tree, and every item of the tree names a stored segment. *)
Definition rtreeConsistent {T} `{RBush T} (st : RTree.RoadIndex T) : Prop :=
  NoDup (JSMap.keys (RTree.roads st)) /\
  (forall id road, JSMap.get id (RTree.roads st) = Some road ->
     RoadSegment.id road = id /\
     RTree.itemOf road ∈ rb_all (RTree.spatialIndex st)) /\
  (forall item, item ∈ rb_all (RTree.spatialIndex st) ->
     is_Some (JSMap.get (RTreeItem.roadId item) (RTree.roads st))).

(** The same for the grid: a segment's id sits in the cell of its
    midpoint, and every id of a cell names a stored segment. *)
Definition gridConsistent (st : Grid.RoadIndex) : Prop :=
  NoDup (JSMap.keys (Grid.roads st)) /\
  (forall id road, JSMap.get id (Grid.roads st) = Some road ->
     RoadSegment.id road = id /\
     id ∈ default [] (Grid.spatialGrid st !!
                        Grid.getGridKey (fst (RoadSegment.midpoint road))
                                        (snd (RoadSegment.midpoint road)))) /\
  (forall key cell id, Grid.spatialGrid st !! key = Some cell -> id ∈ cell ->
     is_Some (JSMap.get id (Grid.roads st))).

(** The grid cell of a segment: that of its midpoint. *)
Definition gridKeyOf (road : RoadSegment.t) : Z * Z :=
  Grid.getGridKey (fst (RoadSegment.midpoint road)) (snd (RoadSegment.midpoint road)).

(** The order in which the grid query reaches the segments of [segments]
    (given in insertion order): cell by cell, west to east and, in a
    column, south to north; inside a cell in insertion order. *)
Definition scanOrder (lon lat : R) (segments : list RoadSegment.t) : list RoadSegment.t :=
  let centerGridX := floor (lon / Grid.gridSize) in
  let centerGridY := floor (lat / Grid.gridSize) in
  flat_map (fun dx =>
    flat_map (fun dy =>
      filter (fun road => gridKeyOf road = ((centerGridX + dx)%Z, (centerGridY + dy)%Z))
             segments)
    Grid.offsets)
  Grid.offsets.

(** [a] stands in [l] before any [b]. *)
Definition reachedBefore {A} (a b : A) (l : list A) : Prop :=
  exists front back, l = front ++ a :: back /\ b ∉ front.

(** Two ways near the point (0, 0): a short residential one, 11 m to the
    north, and a primary one that starts at the point and runs one degree
    east, so that its midpoint vertex is far away. *)
Definition wayNear : Element.t :=
  Element.mk "way" "1" (Some {[ "highway"%string := "residential"%string ]})
    (Some [Point.mk 0 (1 / 10000); Point.mk (1 / 10000) (1 / 10000)]) 0 0.

Definition wayLong : Element.t :=
  Element.mk "way" "2" (Some {[ "highway"%string := "primary"%string ]})
    (Some [Point.mk 0 0; Point.mk 1 0]) 0 0.

(** Scenario 1: two parallel ways 40 m apart, 20 m east and 20 m west of
    the point (0, 0); one degree is 111320 m. *)
Definition wayEast : Element.t :=
  Element.mk "way" "1" (Some {[ "highway"%string := "residential"%string ]})
    (Some [Point.mk (1 / 5566) 0; Point.mk (1 / 5566) (1 / 10000)]) 0 0.

Definition wayWest : Element.t :=
  Element.mk "way" "2" (Some {[ "highway"%string := "residential"%string ]})
    (Some [Point.mk (- (1 / 5566)) 0; Point.mk (- (1 / 5566)) (1 / 10000)]) 0 0.

(** Scenario 1 with hand-made segments: 20 m east and 20 m west of the
    point (0, 0). *)
Definition eastRoad : RoadSegment.t :=
  RoadSegment.mk "e" "East" "residential"
    [1 / 5566; 0; 1 / 5566; 1 / 10000]
    (1 / 5566, 0, 1 / 5566, 1 / 10000) 0 (1 / 5566, 1 / 10000) None.

Definition westRoad : RoadSegment.t :=
  RoadSegment.mk "w" "West" "residential"
    [- (1 / 5566); 0; - (1 / 5566); 1 / 10000]
    (- (1 / 5566), 0, - (1 / 5566), 1 / 10000) 0 (- (1 / 5566), 1 / 10000) None.

(** A hand-made segment from the point (0, 0) one degree to the east. *)
Definition longRoad : RoadSegment.t :=
  RoadSegment.mk "b" "B" "primary" [0; 0; 1; 0] (0, 0, 1, 0) 0 (1, 0) None.

(** A hand-made segment of Fort Myers whose box has latitude and
    longitude in each other's place: [minLat, minLon, maxLat, maxLon]. *)
Definition swappedBoxRoad : RoadSegment.t :=
  RoadSegment.mk "s" "Swapped" "residential"
    [-81773 / 1000; 26463 / 1000; -81772 / 1000; 26463 / 1000]
    (26463 / 1000, -81773 / 1000, 26463 / 1000, -81772 / 1000)
    100 (-81772 / 1000, 26463 / 1000) None.

(** The road the signal loader finds for a node: [findNearest] at 25 m. *)
Definition nearestTo (idx : Grid.RoadIndex) (element : Element.t) : option RoadSegment.t :=
  Scan.nearest (Element.lon element) (Element.lat element) 25
    (Grid.candidates (Element.lon element) (Element.lat element) idx).

(** The signal nodes of a batch that find a road, each with its road, and
    those that find none. *)
Definition associated (idx : Grid.RoadIndex) (elements : list Element.t)
    : list (Element.t * RoadSegment.t) :=
  omap (fun element =>
          if SignalManager.isSignalNode element then
            match nearestTo idx element with
            | Some road => Some (element, road)
            | None => None
            end
          else None)
       elements.

Definition orphaned (idx : Grid.RoadIndex) (elements : list Element.t) : list Element.t :=
  List.filter (fun element =>
                 SignalManager.isSignalNode element
                 && match nearestTo idx element with
                    | Some _ => false
                    | None => true
                    end)
              elements.

(** The entity and the signal [addSignal] builds for a node and its road. *)
Definition entityFor (p : Element.t * RoadSegment.t) : SignalManager.Entity :=
  let '(element, road) := p in
  SignalManager.mkEntity (Element.lon element, Element.lat element)
    ("🚦 Traffic Signal • " ++ RoadSegment.name road)
    "traffic_signal" (Some (RoadSegment.id road)) (RoadSegment.name road)
    (Element.lon element) (Element.lat element).

Definition signalFor (p : Element.t * RoadSegment.t) : SignalManager.Signal :=
  let '(element, road) := p in
  SignalManager.mkSignal (Element.lon element, Element.lat element)
    (Element.lon element) (Element.lat element)
    (Some (RoadSegment.id road)) (RoadSegment.name road) (entityFor p).

(** The map of entities after the signals of [found] are added. *)
Definition entitiesAfter (found : list (Element.t * RoadSegment.t))
    (se : list (SignalManager.SignalId * SignalManager.Entity))
    : list (SignalManager.SignalId * SignalManager.Entity) :=
  fold_left (fun m p =>
               SignalManager.setEntity (Element.lon (fst p), Element.lat (fst p))
                                       (entityFor p) m)
            found se.

Definition warnOrphan (element : Element.t) : logEntry :=
  WarnNoNearbyRoad (Element.lon element) (Element.lat element).

(** What the loop of the signal loader writes to the console. *)
Definition signalLog (idx : Grid.RoadIndex) (elements : list Element.t) : list logEntry :=
  flat_map (fun element =>
              if SignalManager.isSignalNode element then
                match nearestTo idx element with
                | Some road => [LogAddedSignal (Some (RoadSegment.name road))]
                | None => [warnOrphan element]
                end
              else [])
           elements.

(** A traffic-signal node at a point. *)
Definition signalNode (id : string) (lon lat : R) : Element.t :=
  Element.mk "node" id (Some {[ "highway"%string := "traffic_signals"%string ]})
             None lon lat.

(** A snapshot of traffic metrics. *)
Definition sampleMetrics : TrafficMetrics.t :=
  TrafficMetrics.mk 1200 1300 900 400 TrafficMetrics.HEAVY "2025-01-01T00:00:00Z" 0.

(** What the synthetic fill does to a road that lacks a PCI value: the
    value written is the rounded sum of the base score of the road's kind
    and a jitter, it lies in [40, 95] and within 10 points of the base
    score, it is a whole number, the record is flagged, and nothing but
    the metadata is touched. *)
Definition syntheticFilled (road road' : RoadSegment.t) : Prop :=
  exists (m' : gmap string jsval) (jitter : R) (z : Z),
    road' = RoadSegment.setMetadata road m' /\
    -10 <= jitter < 10 /\
    IZR z = PCIJoiner.round (PCIJoiner.basePCIOf (RoadSegment.kind road) + jitter) /\
    prop m' "pci" = VNumber (Fin (IZR z)) /\
    40 <= IZR z <= 95 /\
    -10 <= IZR z - PCIJoiner.basePCIOf (RoadSegment.kind road) <= 10 /\
    prop m' "pciSynthetic" = VBool true.

(** The fill, road by road: filled when the PCI value was lacking, left
    alone otherwise. *)
Definition fillOutcome (road road' : RoadSegment.t) : Prop :=
  if PCIJoiner.lacksPCI road then syntheticFilled road road' else road' = road.

(** Every draw of [Math.random()] lies in [0, 1). *)
Definition drawsInUnit (rt : PCIJoiner.Runtime) : Prop :=
  forall n, 0 <= PCIJoiner.draws rt n < 1.

(** A residential road the join left without a PCI value, and a runtime
    whose draws are all one half. *)
Definition unmatchedRoad : RoadSegment.t :=
  RoadSegment.mk "osm_way_7" "Unnamed residential" "residential"
    [0; 0; 1; 0] (0, 0, 1, 0) 0 (1, 0)
    (Some {[ "pci"%string := VNull; "pciCondition"%string := VString "Unknown" ]}).

Definition halfRuntime : PCIJoiner.Runtime := PCIJoiner.mkRuntime (fun _ => 1 / 2) 0.

(** ** Vocabulary of the further properties *)

(** The segments a sequence of operations hands to [addRoad], in order:
    those the caller adds and those a loader builds from its batch. *)
Definition addedBy (fromWay : Element.t -> string + RoadSegment.t) (ops : list op)
    : list RoadSegment.t :=
  flat_map (fun o =>
              match o with
              | AddRoad segment => [segment]
              | LoadFromOSM osmData =>
                  segmentsOf fromWay (default [] (OsmData.elements osmData))
              | SetTrafficData _ _ => []
              end)
           ops.

(** The segments of a list that carry an id, and the last of them. *)
Definition withId (id : string) (segments : list RoadSegment.t) : list RoadSegment.t :=
  filter (fun segment => RoadSegment.id segment = id) segments.

Definition lastWithId (id : string) (segments : list RoadSegment.t)
    : option RoadSegment.t :=
  last (withId id segments).

(** The ids of a list, each once, in the order of their first
    appearance. *)
Definition firstSeen (ids : list string) : list string :=
  reverse (remove_dups (reverse ids)).

(** The metrics a sequence of operations hands to [setTrafficData], in
    order, and the last of them for a road id. *)
Definition metricsSet (ops : list op) : list (string * TrafficMetrics.t) :=
  flat_map (fun o =>
              match o with
              | SetTrafficData roadId metrics => [(roadId, metrics)]
              | _ => []
              end)
           ops.

Definition lastMetrics (roadId : string) (ops : list op) : option TrafficMetrics.t :=
  snd <$> last (filter (fun p => fst p = roadId) (metricsSet ops)).

(** What [addRoad] does to the grid, and [setTrafficData] to the
    traffic-data map. *)
Definition fileUnder (grid : gmap (Z * Z) (list string)) (road : RoadSegment.t)
    : gmap (Z * Z) (list string) :=
  <[gridKeyOf road := default [] (grid !! gridKeyOf road) ++ [RoadSegment.id road]]> grid.

Definition setMetric (data : gmap string TrafficMetrics.t)
    (p : string * TrafficMetrics.t) : gmap string TrafficMetrics.t :=
  <[fst p := snd p]> data.

(** The quantity [a] of the haversine formula, whose square root and
    that of [1 - a] are taken. *)
Definition haversineA (lon1 lat1 lon2 lat2 : R) : R :=
  let dLat := (lat2 - lat1) * PI / 180 in
  let dLon := (lon2 - lon1) * PI / 180 in
  sin (dLat / 2) * sin (dLat / 2) +
  cos (lat1 * PI / 180) * cos (lat2 * PI / 180) * sin (dLon / 2) * sin (dLon / 2).

(** Each point of a way is at most [deg] degrees from the next, in
    latitude and in longitude. *)
Fixpoint stepsWithin (deg : R) (geometry : list Point.t) : Prop :=
  match geometry with
  | p :: rest =>
      match rest with
      | q :: _ =>
          Rabs (Point.lat q - Point.lat p) <= deg /\
          Rabs (Point.lon q - Point.lon p) <= deg
      | [] => True
      end /\ stepsWithin deg rest
  | [] => True
  end.

(** The distance [findNearestPCI] computes for a record. *)
Definition pciDistanceTo (lon lat : R) (record : PCIJoiner.PCIRecord) : R :=
  PCIJoiner.calculateDistance lon lat
    (fst (PCIJoiner.location record)) (snd (PCIJoiner.location record)).

(** The record [joinToRoads] finds for a road: the nearest one within
    50 m of the road's midpoint. *)
Definition pciMatch (pciData : list PCIJoiner.PCIRecord) (road : RoadSegment.t)
    : option (PCIJoiner.PCIRecord * R) :=
  PCIJoiner.findNearestPCI pciData
    (fst (RoadSegment.midpoint road)) (snd (RoadSegment.midpoint road)) 50.

Definition matched (pciData : list PCIJoiner.PCIRecord) (road : RoadSegment.t) : bool :=
  match pciMatch pciData road with
  | Some _ => true
  | None => false
  end.

(** The metadata keys the join writes for a matched road. *)
Definition pciKeys : list string :=
  [ "pci"; "pciCondition"; "pciLastInspection"; "pciSurface"; "pciDistance" ]%string.

(** What the join does to one road: nothing but the metadata changes; a
    matched road gets the five values of its record, an unmatched one a
    [null] score and the condition [Unknown]; every other key is left as
    it was. *)
Definition joinOutcome (pciData : list PCIJoiner.PCIRecord)
    (road road' : RoadSegment.t) : Prop :=
  exists m' : gmap string jsval,
    road' = RoadSegment.setMetadata road m' /\
    match pciMatch pciData road with
    | Some (record, distance) =>
        prop m' "pci" = VNumber (Fin (PCIJoiner.pci record)) /\
        prop m' "pciCondition" = VString (PCIJoiner.condition record) /\
        prop m' "pciLastInspection" = VString (PCIJoiner.lastInspection record) /\
        prop m' "pciSurface" = VString (PCIJoiner.surface record) /\
        prop m' "pciDistance" = VNumber (Fin distance) /\
        forall k, k ∉ pciKeys -> m' !! k = PCIJoiner.metadataOrEmpty road !! k
    | None =>
        prop m' "pci" = VNull /\
        prop m' "pciCondition" = VString "Unknown" /\
        forall k, k <> "pci"%string -> k <> "pciCondition"%string ->
                  m' !! k = PCIJoiner.metadataOrEmpty road !! k
    end.

(** The console line of the join for one road. *)
Definition joinLine (pciData : list PCIJoiner.PCIRecord) (road : RoadSegment.t)
    : PCIJoiner.JoinLog :=
  match pciMatch pciData road with
  | Some (record, distance) =>
      PCIJoiner.LogJoined (PCIJoiner.pci record) (RoadSegment.name road) distance
  | None => PCIJoiner.LogNoPCIData (RoadSegment.name road)
  end.

(** A road carries a PCI score that is a finite number. *)
Definition hasScore (road : RoadSegment.t) : Prop :=
  exists (m : gmap string jsval) (x : R),
    RoadSegment.metadata road = Some m /\ prop m "pci" = VNumber (Fin x).



(** The centres of the circles among the calls on a canvas, in order. *)
Definition arcCentres (calls : list TrafficInfoPanel.CanvasCall) : list (number * R) :=
  omap (fun call =>
          match call with
          | TrafficInfoPanel.Arc x y _ _ _ => Some (x, y)
          | _ => None
          end)
       calls.

(** A call keeps to the chart: a point a path is taken to has finite
    coordinates in the padded area, at least 10 from every edge of the
    canvas; a circle has its centre there and a radius of 3, so that the
    circle itself reaches out of the padded area and stays 7 or more from
    every edge. *)
Definition insideChart (width height : R) (call : TrafficInfoPanel.CanvasCall) : Prop :=
  match call with
  | TrafficInfoPanel.MoveTo x y | TrafficInfoPanel.LineTo x y =>
      exists x', x = Fin x' /\ 10 <= x' <= width - 10 /\ 10 <= y <= height - 10
  | TrafficInfoPanel.Arc x y radius _ _ =>
      exists x',
        x = Fin x' /\ 10 <= x' <= width - 10 /\ 10 <= y <= height - 10 /\
        radius = 3 /\
        7 <= x' - radius /\ x' + radius <= width - 7 /\
        7 <= y - radius /\ y + radius <= height - 7
  | _ => True
  end.

(** Unfolding the plumbing of a method call. *)
Ltac unfold_js :=
  unfold stateAfter, resultOf, consoleOf, bind, ret, gets, modify, console, throw, zoom.

(** * Verification *)

(** ** Segment construction *)

Section Construction.

Lemma flatten_length (geometry : list Point.t) :
    List.length (Build.flatten geometry) = (2 * List.length geometry)%nat.
Proof.
    induction geometry as [|p rest IH]; [reflexivity|].
    change (Build.flatten (p :: rest))
      with (Point.lon p :: Point.lat p :: Build.flatten rest).
    simpl List.length. rewrite IH. lia.
Qed.

  (** Entry [2i] of the flat array is the longitude of point [i], entry
      [2i+1] its latitude. *)
Lemma flatten_nth (geometry : list Point.t) (i : nat) (p : Point.t) :
    geometry !! i = Some p ->
    nth (2 * i) (Build.flatten geometry) 0 = Point.lon p /\
    nth (2 * i + 1) (Build.flatten geometry) 0 = Point.lat p.
Proof.
    revert i. induction geometry as [|q rest IH]; intros i Hi.
    - discriminate.
    - destruct i as [|i].
      + simpl in Hi. injection Hi as ->. simpl. auto.
      + simpl in Hi. apply IH in Hi.
        replace (2 * S i)%nat with (S (S (2 * i))) by lia.
        replace (S (S (2 * i)) + 1)%nat with (S (S (2 * i + 1))) by lia.
        exact Hi.
Qed.

Lemma midIdx_flatten (geometry : list Point.t) :
    Build.midIdx (Build.flatten geometry) = (2 * (List.length geometry / 2))%nat.
Proof.
    unfold Build.midIdx. rewrite flatten_length.
    change 4%nat with (2 * 2)%nat.
    rewrite Nat.Div0.div_mul_cancel_l by lia. lia.
Qed.

  (** What [fromOSMWay] returns for a way with two points or more. *)
Lemma fromOSMWay_ok mkMetadata (way : Element.t) (geometry : list Point.t) :
    Element.geometry way = Some geometry ->
    (2 <= List.length geometry)%nat ->
    exists first rest,
      geometry = first :: rest /\
      Build.fromOSMWay mkMetadata way =
        inr (RoadSegment.mk
               ("osm_way_" ++ Element.id way)
               (Build.nameOf (default ∅ (Element.tags way)))
               (Build.kindOf (default ∅ (Element.tags way)))
               (Build.flatten geometry)
               (Build.scanBBox first rest)
               (Geo.polylineLength (Build.flatten geometry) 0)
               (nth (Build.midIdx (Build.flatten geometry)) (Build.flatten geometry) 0,
                nth (Build.midIdx (Build.flatten geometry) + 1) (Build.flatten geometry) 0)
               (Some (mkMetadata (default ∅ (Element.tags way))))).
Proof.
    intros Hg Hlen. unfold Build.fromOSMWay. rewrite Hg.
    destruct geometry as [|first [|second more]]; simpl in Hlen; try lia.
    exists first, (second :: more). split; reflexivity.
Qed.

  (** A way with fewer than two points, or none, is refused. *)
Lemma fromOSMWay_invalid mkMetadata (way : Element.t) :
    match Element.geometry way with
    | Some geometry => (List.length geometry < 2)%nat
    | None => True
    end ->
    Build.fromOSMWay mkMetadata way = inl "Invalid OSM way geometry"%string.
Proof.
    unfold Build.fromOSMWay.
    destruct (Element.geometry way) as [[|first [|second more]]|]; simpl;
      intros Hlen; try reflexivity; lia.
Qed.

End Construction.

(** C6.  For a way with [n >= 2] geometry points both [fromOSMWay] build a
    segment whose midpoint is the coordinate pair of the input point at
    index [floor(n/2)]. *)
Theorem fromOSMWay_midpoint (way : Element.t) (geometry : list Point.t) :
  Element.geometry way = Some geometry ->
  (2 <= List.length geometry)%nat ->
  exists p segTs segJs,
    geometry !! (List.length geometry / 2)%nat = Some p /\
    RTree.fromOSMWay way = inr segTs /\
    Grid.fromOSMWay way = inr segJs /\
    RoadSegment.midpoint segTs = (Point.lon p, Point.lat p) /\
    RoadSegment.midpoint segJs = (Point.lon p, Point.lat p).
Proof.
  intros Hg Hlen.
  assert (Hmid : (List.length geometry / 2 < List.length geometry)%nat)
    by (apply Nat.div_lt; lia).
  destruct (lookup_lt_is_Some_2 geometry _ Hmid) as [p Hp].
  destruct (fromOSMWay_ok RTree.mkMetadata way geometry Hg Hlen)
    as (first & rest & _ & Hts).
  destruct (fromOSMWay_ok Grid.mkMetadata way geometry Hg Hlen)
    as (first' & rest' & _ & Hjs).
  destruct (flatten_nth geometry _ p Hp) as [Hlon Hlat].
  eexists p, _, _. split; [exact Hp|].
  split; [exact Hts|]. split; [exact Hjs|].
  simpl. rewrite midIdx_flatten, Hlon, Hlat. auto.
Qed.

(** Three points: the midpoint is the second one. *)
Lemma fromOSMWay_midpoint_witness :
  exists p segTs segJs,
    [Point.mk 1 2; Point.mk 3 4; Point.mk 5 6] !! 1%nat = Some p /\
    RTree.fromOSMWay
      (Element.mk "way" "7" None (Some [Point.mk 1 2; Point.mk 3 4; Point.mk 5 6]) 0 0)
      = inr segTs /\
    Grid.fromOSMWay
      (Element.mk "way" "7" None (Some [Point.mk 1 2; Point.mk 3 4; Point.mk 5 6]) 0 0)
      = inr segJs /\
    RoadSegment.midpoint segTs = (Point.lon p, Point.lat p) /\
    RoadSegment.midpoint segJs = (Point.lon p, Point.lat p).
Proof.
  apply (fromOSMWay_midpoint
           (Element.mk "way" "7" None (Some [Point.mk 1 2; Point.mk 3 4; Point.mk 5 6]) 0 0)
           [Point.mk 1 2; Point.mk 3 4; Point.mk 5 6]).
  - reflexivity.
  - simpl. lia.
Defined.

(** ** Numeric tags *)

Section NumericTags.

Lemma digitVal_nondigit (c : ascii) :
    Parse.isDigit c = false -> Parse.digitVal 10 c = None.
Proof.
    intros Hc. unfold Parse.digitVal. rewrite Hc.
    set (n := Z.of_nat (nat_of_ascii c)).
    destruct ((97 <=? n)%Z && (n <=? 122)%Z) eqn:Hlow.
    - apply andb_prop in Hlow as [H1 H2].
      apply Z.leb_le in H1. apply Z.leb_le in H2.
      destruct (n - 87 <? 10)%Z eqn:Hlt; [apply Z.ltb_lt in Hlt; lia | reflexivity].
    - destruct ((65 <=? n)%Z && (n <=? 90)%Z) eqn:Hup; [|reflexivity].
      apply andb_prop in Hup as [H1 H2].
      apply Z.leb_le in H1. apply Z.leb_le in H2.
      destruct (n - 55 <? 10)%Z eqn:Hlt; [apply Z.ltb_lt in Hlt; lia | reflexivity].
Qed.

Lemma noDigit_tail (c : ascii) (r : string) :
    noDigit (String c r) = true -> noDigit r = true.
Proof. simpl. intros H. apply andb_prop in H as [_ Hr]. exact Hr. Qed.

Lemma skipWhite_noDigit (s : string) :
    noDigit s = true -> noDigit (Parse.skipWhite s) = true.
Proof.
    assert (Hgen : forall n s, (String.length s <= n)%nat ->
              noDigit s = true -> noDigit (Parse.skipWhite s) = true).
    { induction n as [|n IH]; intros t Hlen Ht.
      - destruct t; [exact Ht | simpl in Hlen; lia].
      - destruct t as [|c r]; [exact Ht|].
        cbn [Parse.skipWhite]. simpl in Hlen.
        pose proof (noDigit_tail c r Ht) as Hr.
        destruct (Parse.isWhite c); [apply IH; [lia | exact Hr]|].
        destruct r as [|d r1]; [exact Ht|].
        simpl in Hlen. pose proof (noDigit_tail d r1 Hr) as Hr1.
        destruct (Parse.isWhite2 c d); [apply IH; [lia | exact Hr1]|].
        destruct r1 as [|e r2]; [exact Ht|].
        simpl in Hlen. pose proof (noDigit_tail e r2 Hr1) as Hr2.
        destruct (Parse.isWhite3 c d e); [apply IH; [lia | exact Hr2]|].
        exact Ht. }
    apply (Hgen (String.length s) s). lia.
Qed.

Lemma parseDigits_noDigit (s : string) :
    noDigit s = true -> Parse.parseDigits 10 s None = None.
Proof.
    destruct s as [|c r]; simpl; [reflexivity|].
    intros H. apply andb_prop in H as [Hc _].
    apply negb_true_iff in Hc. rewrite (digitVal_nondigit c Hc). reflexivity.
Qed.

  (** A text without any digit does not parse. *)
Lemma parseInt_noDigit (s : string) :
    noDigit s = true -> Parse.parseInt s = NaN.
Proof.
    intros H. apply skipWhite_noDigit in H. unfold Parse.parseInt.
    destruct (Parse.skipWhite s) as [|c r] eqn:Hs; [reflexivity|].
    assert (Hcr := H). simpl in H. apply andb_prop in H as [Hc Hr].
    assert (Hplain : forall t, noDigit t = true ->
              match
                (let '(radix, s3) :=
                   match t with
                   | String "0" (String "x" r0) => (16%Z, r0)
                   | String "0" (String "X" r0) => (16%Z, r0)
                   | _ => (10%Z, t)
                   end in
                 Parse.parseDigits radix s3 None)
              with Some _ => False | None => True end).
    { intros t Ht. destruct t as [|d t']; [exact I|].
      assert (Hd : Parse.isDigit d = false).
      { simpl in Ht. apply andb_prop in Ht as [Hd _]. now apply negb_true_iff in Hd. }
      assert (Hne : d <> "0"%char) by (intros ->; discriminate Hd).
      assert (Hrad :
        match String d t' with
        | String "0" (String "x" r0) => (16%Z, r0)
        | String "0" (String "X" r0) => (16%Z, r0)
        | _ => (10%Z, String d t')
        end = (10%Z, String d t')).
      { destruct d as [[] [] [] [] [] [] [] []]; try reflexivity.
        exfalso. apply Hne. reflexivity. }
      rewrite Hrad. rewrite (parseDigits_noDigit _ Ht). exact I. }
    assert (Hsign :
      exists sign t, noDigit t = true /\
        match String c r with
        | String "-" r0 => ((-1)%Z, r0)
        | String "+" r0 => (1%Z, r0)
        | _ => (1%Z, String c r)
        end = (sign, t)).
    { destruct (ascii_dec c "-") as [->|Hm]; [exists (-1)%Z, r; auto|].
      destruct (ascii_dec c "+") as [->|Hp]; [exists 1%Z, r; auto|].
      exists 1%Z, (String c r). split; [exact Hcr|].
      destruct c as [[] [] [] [] [] [] [] []]; try reflexivity;
        exfalso; (apply Hm; reflexivity) || (apply Hp; reflexivity). }
    destruct Hsign as (sign & t & Ht & ->).
    specialize (Hplain t Ht).
    destruct (match t with
              | String "0" (String "x" r0) => (16%Z, r0)
              | String "0" (String "X" r0) => (16%Z, r0)
              | _ => (10%Z, t)
              end) as [radix s3].
    destruct (Parse.parseDigits radix s3 None); [contradiction | reflexivity].
Qed.

Lemma stripNonDigits_noDigit (s : string) :
    noDigit s = true -> Parse.stripNonDigits s = EmptyString.
Proof.
    induction s as [|c r IH]; simpl; [reflexivity|].
    intros H. apply andb_prop in H as [Hc Hr].
    apply negb_true_iff in Hc. rewrite Hc. auto.
Qed.

Lemma truthyTag_None (tags : gmap string string) (k : string) :
    truthyTag tags k = None <-> tags !! k = None \/ tags !! k = Some EmptyString.
Proof.
    unfold truthyTag. destruct (tags !! k) as [s|]; [|tauto].
    destruct (String.eqb_spec s "") as [->|Hne]; split; intros H.
    - right. reflexivity.
    - reflexivity.
    - discriminate.
    - destruct H as [H|H]; [discriminate | congruence].
Qed.

Lemma truthyTag_Some (tags : gmap string string) (k s : string) :
    truthyTag tags k = Some s <-> tags !! k = Some s /\ s <> EmptyString.
Proof.
    unfold truthyTag. destruct (tags !! k) as [s'|].
    - destruct (String.eqb_spec s' "") as [->|Hne]; split; intros H.
      + discriminate.
      + destruct H as [H Hne]. congruence.
      + injection H as ->. auto.
      + destruct H as [H _]. exact H.
    - split; [discriminate | intros [H _]; discriminate].
Qed.

End NumericTags.

Lemma metadata_lanes_maxspeed (tags : gmap string string) (m : gmap string jsval) :
  m = RTree.mkMetadata tags \/ m = Grid.mkMetadata tags ->
  prop m "lanes" = Parse.lanesOf tags /\ prop m "maxspeed" = Parse.maxspeedOf tags.
Proof.
  intros [-> | ->]; unfold prop, RTree.mkMetadata, Grid.mkMetadata;
    split; reflexivity.
Qed.

(** C5, as the code has it.  With two points or more [fromOSMWay] builds
    the segment whatever the lane-count and speed-limit tags hold.  A tag
    that is missing or empty leaves the field [undefined]; a tag that is
    present is handed to [parseInt] (the speed limit after every non-digit
    is removed) and the field is that number, which is [NaN], not
    [undefined], when the text holds no digit. *)
Theorem fromOSMWay_numeric_tags (way : Element.t) (geometry : list Point.t) :
  Element.geometry way = Some geometry ->
  (2 <= List.length geometry)%nat ->
  let tags := default ∅ (Element.tags way) in
  exists segTs segJs mTs mJs,
    RTree.fromOSMWay way = inr segTs /\
    Grid.fromOSMWay way = inr segJs /\
    RoadSegment.metadata segTs = Some mTs /\
    RoadSegment.metadata segJs = Some mJs /\
    forall m, m = mTs \/ m = mJs ->
      (truthyTag tags "lanes" = None -> prop m "lanes" = VUndefined) /\
      (forall s, truthyTag tags "lanes" = Some s ->
         prop m "lanes" = VNumber (Parse.parseInt s) /\
         (noDigit s = true -> prop m "lanes" = VNumber NaN)) /\
      (truthyTag tags "maxspeed" = None -> prop m "maxspeed" = VUndefined) /\
      (forall s, truthyTag tags "maxspeed" = Some s ->
         prop m "maxspeed" = VNumber (Parse.parseInt (Parse.stripNonDigits s)) /\
         (noDigit s = true -> prop m "maxspeed" = VNumber NaN)).
Proof.
  intros Hg Hlen tags.
  destruct (fromOSMWay_ok RTree.mkMetadata way geometry Hg Hlen)
    as (first & rest & _ & Hts).
  destruct (fromOSMWay_ok Grid.mkMetadata way geometry Hg Hlen)
    as (first' & rest' & _ & Hjs).
  eexists _, _, (RTree.mkMetadata tags), (Grid.mkMetadata tags).
  split; [exact Hts|]. split; [exact Hjs|].
  split; [reflexivity|]. split; [reflexivity|].
  intros m Hm. destruct (metadata_lanes_maxspeed tags m Hm) as [Hl Hs].
  rewrite Hl, Hs. unfold Parse.lanesOf, Parse.maxspeedOf.
  repeat split.
  - intros ->. reflexivity.
  - rewrite H. reflexivity.
  - intros Hnd. rewrite H, (parseInt_noDigit s Hnd). reflexivity.
  - intros ->. reflexivity.
  - rewrite H. reflexivity.
  - intros Hnd. rewrite H, (stripNonDigits_noDigit s Hnd). reflexivity.
Qed.

Lemma fromOSMWay_numeric_tags_witness :
  let tags := default ∅ (Element.tags wayWithWords) in
  exists segTs segJs mTs mJs,
    RTree.fromOSMWay wayWithWords = inr segTs /\
    Grid.fromOSMWay wayWithWords = inr segJs /\
    RoadSegment.metadata segTs = Some mTs /\
    RoadSegment.metadata segJs = Some mJs /\
    forall m, m = mTs \/ m = mJs ->
      (truthyTag tags "lanes" = None -> prop m "lanes" = VUndefined) /\
      (forall s, truthyTag tags "lanes" = Some s ->
         prop m "lanes" = VNumber (Parse.parseInt s) /\
         (noDigit s = true -> prop m "lanes" = VNumber NaN)) /\
      (truthyTag tags "maxspeed" = None -> prop m "maxspeed" = VUndefined) /\
      (forall s, truthyTag tags "maxspeed" = Some s ->
         prop m "maxspeed" = VNumber (Parse.parseInt (Parse.stripNonDigits s)) /\
         (noDigit s = true -> prop m "maxspeed" = VNumber NaN)).
Proof.
  apply (fromOSMWay_numeric_tags wayWithWords [Point.mk 0 0; Point.mk 1 1]).
  - reflexivity.
  - simpl. lia.
Defined.

(** C5 fails as stated: the two worded tags come out as [NaN], in both
    implementations, where the claim wants them unset. *)
Lemma fromOSMWay_words_are_NaN :
  exists segTs segJs mTs mJs,
    RTree.fromOSMWay wayWithWords = inr segTs /\
    Grid.fromOSMWay wayWithWords = inr segJs /\
    RoadSegment.metadata segTs = Some mTs /\
    RoadSegment.metadata segJs = Some mJs /\
    prop mTs "lanes" = VNumber NaN /\ prop mTs "lanes" <> VUndefined /\
    prop mTs "maxspeed" = VNumber NaN /\ prop mTs "maxspeed" <> VUndefined /\
    prop mJs "lanes" = VNumber NaN /\ prop mJs "maxspeed" = VNumber NaN.
Proof.
  eexists _, _, _, _.
  split; [reflexivity|]. split; [reflexivity|].
  split; [reflexivity|]. split; [reflexivity|].
  repeat split; try reflexivity; discriminate.
Qed.

(** ** Bulk load *)

Section BulkLoad.

Lemma Grid_addRoad_run (road : RoadSegment.t) (st : Grid.RoadIndex) (c : list logEntry) :
    Grid.addRoad road st c =
      (Return tt, stateAfter (Grid.addRoad road) st,
       c ++ [LogAddedRoad (RoadSegment.name road) ""]).
Proof. reflexivity. Qed.

Lemma Grid_addRoad_roads (road : RoadSegment.t) (st : Grid.RoadIndex) :
    Grid.roads (stateAfter (Grid.addRoad road) st) = setRoad (Grid.roads st) road.
Proof.
    unfold Grid.addRoad. unfold_js. simpl.
    destruct (Grid.spatialGrid st !! _); reflexivity.
Qed.

Lemma Grid_addRoad_trafficData (road : RoadSegment.t) (st : Grid.RoadIndex) :
    Grid.trafficData (stateAfter (Grid.addRoad road) st) = Grid.trafficData st.
Proof.
    unfold Grid.addRoad. unfold_js. simpl.
    destruct (Grid.spatialGrid st !! _); reflexivity.
Qed.

Lemma Grid_addRoad_grid (road : RoadSegment.t) (st : Grid.RoadIndex) :
    let gridKey := Grid.getGridKey (fst (RoadSegment.midpoint road))
                                   (snd (RoadSegment.midpoint road)) in
    Grid.spatialGrid (stateAfter (Grid.addRoad road) st) =
      <[gridKey := default [] (Grid.spatialGrid st !! gridKey) ++ [RoadSegment.id road]]>
        (Grid.spatialGrid st).
Proof.
    intros gridKey. unfold Grid.addRoad. unfold_js. simpl. fold gridKey.
    destruct (Grid.spatialGrid st !! gridKey) eqn:Hk; simpl.
    - rewrite Hk. reflexivity.
    - rewrite lookup_insert_eq. simpl. rewrite insert_insert_eq. reflexivity.
Qed.

Context {T : Type} `{RBush T}.

Lemma RTree_addRoad_run (segment : RoadSegment.t) (st : RTree.RoadIndex T)
      (c : list logEntry) :
    RTree.addRoad segment st c =
      (Return tt, stateAfter (RTree.addRoad segment) st,
       c ++ [LogAddedRoad (RoadSegment.name segment) (RoadSegment.id segment)]).
Proof. reflexivity. Qed.

Lemma RTree_addRoad_state (segment : RoadSegment.t) (st : RTree.RoadIndex T) :
    stateAfter (RTree.addRoad segment) st =
      RTree.mk (setRoad (RTree.roads st) segment)
               (rb_insert (RTree.itemOf segment) (RTree.spatialIndex st))
               (RTree.trafficData st).
Proof. reflexivity. Qed.

  (** How the loaders treat one element. *)
Lemma loadable_builds mkMetadata (element : Element.t) :
    loadable element = true ->
    exists road, Build.fromOSMWay mkMetadata element = inr road.
Proof.
    unfold loadable. intros Hl. apply andb_prop in Hl as [Hway Hlen].
    apply bool_decide_eq_true in Hlen.
    destruct (Element.geometry element) as [geometry|] eqn:Hg; simpl in Hlen; [|lia].
    destruct (fromOSMWay_ok mkMetadata element geometry Hg Hlen) as (f & r & _ & Hb).
    eauto.
Qed.

Lemma malformed_fails mkMetadata (element : Element.t) :
    malformed element = true ->
    Build.fromOSMWay mkMetadata element = inl "Invalid OSM way geometry"%string.
Proof.
    unfold malformed. intros Hm. apply andb_prop in Hm as [Hway Hlen].
    apply bool_decide_eq_true in Hlen.
    apply fromOSMWay_invalid.
    destruct (Element.geometry element); simpl in Hlen; [exact Hlen | exact I].
Qed.

Lemma way_cases (element : Element.t) :
    (isRoadWay element = false /\ loadable element = false /\ malformed element = false) \/
    (isRoadWay element = true /\ loadable element = true /\ malformed element = false) \/
    (isRoadWay element = true /\ loadable element = false /\ malformed element = true).
Proof.
    unfold loadable, malformed. destruct (isRoadWay element); simpl; [|auto].
    right.
    destruct (decide (2 <= List.length (default [] (Element.geometry element)))%nat).
    - left. rewrite bool_decide_eq_true_2, bool_decide_eq_false_2 by lia. auto.
    - right. rewrite bool_decide_eq_false_2, bool_decide_eq_true_2 by lia. auto.
Qed.

End BulkLoad.

Section LoadLoops.

Lemma segmentsOf_cons fromWay (element : Element.t) (rest : list Element.t) :
    segmentsOf fromWay (element :: rest) =
      (if loadable element then
         match fromWay element with
         | inr road => [road]
         | inl _ => []
         end
       else []) ++ segmentsOf fromWay rest.
Proof.
    unfold segmentsOf. simpl. destruct (loadable element); [|reflexivity].
    simpl. destruct (fromWay element); reflexivity.
Qed.

Lemma filter_isWarning_app (a b : list logEntry) :
    List.filter isWarning (a ++ b) = List.filter isWarning a ++ List.filter isWarning b.
Proof. apply List.filter_app. Qed.

Lemma Grid_load_loop (elements : list Element.t) :
    forall (n : nat) (st : Grid.RoadIndex) (c : list logEntry),
    exists c',
      forOf elements n Grid.loadStep st c =
        (Return (n + List.length (List.filter loadable elements))%nat,
         fold_left (fun s road => stateAfter (Grid.addRoad road) s)
                   (segmentsOf Grid.fromOSMWay elements) st,
         c ++ c') /\
      List.filter isWarning c' = map warnOf (List.filter malformed elements).
Proof.
    induction elements as [|element rest IH]; intros n st c.
    - exists []. simpl. unfold ret. rewrite Nat.add_0_r, app_nil_r. auto.
    - simpl forOf. rewrite segmentsOf_cons. simpl List.filter.
      unfold bind at 1. unfold Grid.loadStep at 1.
      destruct (way_cases element) as [(Hw & Hl & Hm) | [(Hw & Hl & Hm) | (Hw & Hl & Hm)]];
        rewrite Hw, Hl, Hm.
      + unfold ret at 1. destruct (IH n st c) as (c' & Hrun & Hwarn).
        exists c'. rewrite Hrun. simpl. auto.
      + destruct (loadable_builds Grid.mkMetadata element Hl) as [road Hroad].
        unfold Grid.fromOSMWay. rewrite Hroad.
        unfold bind at 1. rewrite Grid_addRoad_run. unfold ret at 1.
        destruct (IH (S n) (stateAfter (Grid.addRoad road) st)
                     (c ++ [LogAddedRoad (RoadSegment.name road) ""]))
          as (c' & Hrun & Hwarn).
        exists (LogAddedRoad (RoadSegment.name road) "" :: c').
        rewrite Hrun. split.
        * simpl. f_equal; [f_equal; f_equal; lia|].
          rewrite <- app_assoc. reflexivity.
        * simpl. exact Hwarn.
      + unfold Grid.fromOSMWay. rewrite (malformed_fails Grid.mkMetadata element Hm).
        unfold bind at 1. unfold console at 1. unfold ret at 1.
        destruct (IH n st (c ++ [warnOf element])) as (c' & Hrun & Hwarn).
        exists (warnOf element :: c'). unfold warnOf in *. rewrite Hrun. split.
        * simpl. rewrite <- app_assoc. reflexivity.
        * simpl. rewrite Hwarn. reflexivity.
Qed.

Context {T : Type} `{RBush T}.

Lemma RTree_load_loop (elements : list Element.t) :
    forall (n : nat) (st : RTree.RoadIndex T) (c : list logEntry),
    exists c',
      forOf elements n RTree.loadStep st c =
        (Return (n + List.length (List.filter loadable elements))%nat,
         fold_left (fun s road => stateAfter (RTree.addRoad road) s)
                   (segmentsOf RTree.fromOSMWay elements) st,
         c ++ c') /\
      List.filter isWarning c' = map warnOf (List.filter malformed elements).
Proof.
    induction elements as [|element rest IH]; intros n st c.
    - exists []. simpl. unfold ret. rewrite Nat.add_0_r, app_nil_r. auto.
    - simpl forOf. rewrite segmentsOf_cons. simpl List.filter.
      unfold bind at 1. unfold RTree.loadStep at 1.
      destruct (way_cases element) as [(Hw & Hl & Hm) | [(Hw & Hl & Hm) | (Hw & Hl & Hm)]];
        rewrite Hw, Hl, Hm.
      + unfold ret at 1. destruct (IH n st c) as (c' & Hrun & Hwarn).
        exists c'. rewrite Hrun. simpl. auto.
      + destruct (loadable_builds RTree.mkMetadata element Hl) as [road Hroad].
        unfold RTree.fromOSMWay. rewrite Hroad.
        unfold bind at 1. rewrite RTree_addRoad_run. unfold ret at 1.
        destruct (IH (S n) (stateAfter (RTree.addRoad road) st)
                     (c ++ [LogAddedRoad (RoadSegment.name road) (RoadSegment.id road)]))
          as (c' & Hrun & Hwarn).
        exists (LogAddedRoad (RoadSegment.name road) (RoadSegment.id road) :: c').
        rewrite Hrun. split.
        * simpl. f_equal; [f_equal; f_equal; lia|].
          rewrite <- app_assoc. reflexivity.
        * simpl. exact Hwarn.
      + unfold RTree.fromOSMWay. rewrite (malformed_fails RTree.mkMetadata element Hm).
        unfold bind at 1. unfold console at 1. unfold ret at 1.
        destruct (IH n st (c ++ [warnOf element])) as (c' & Hrun & Hwarn).
        exists (warnOf element :: c'). unfold warnOf in *. rewrite Hrun. split.
        * simpl. rewrite <- app_assoc. reflexivity.
        * simpl. rewrite Hwarn. reflexivity.
Qed.

End LoadLoops.

Lemma segmentsOf_length mkMetadata (elements : list Element.t) :
  List.length (segmentsOf (Build.fromOSMWay mkMetadata) elements) =
  List.length (List.filter loadable elements).
Proof.
  induction elements as [|element rest IH]; [reflexivity|].
  rewrite segmentsOf_cons. simpl List.filter.
  destruct (loadable element) eqn:Hl; [|exact IH].
  destruct (loadable_builds mkMetadata element Hl) as [road ->].
  simpl. rewrite IH. reflexivity.
Qed.

(** C4, as the code has it.  For every batch both loaders run to the end:
    each way with fewer than two points is skipped on its own, with one
    warning on the console, and every way with two points or more is
    built and added, in the order of the batch.  The grid loader returns
    the number of segments added; the RBush loader returns nothing and
    writes that number to the console.  Neither computes the number of
    skipped ways: the warnings are all that tells of them. *)
Theorem loadFromOSM_report (elements : list Element.t) :
  let loaded := List.length (List.filter loadable elements) in
  (forall (st : Grid.RoadIndex) (c : list logEntry),
     exists c',
       Grid.loadFromOSM (OsmData.mk (Some elements)) st c =
         (Return loaded,
          fold_left (fun s road => stateAfter (Grid.addRoad road) s)
                    (segmentsOf Grid.fromOSMWay elements) st,
          c ++ [LogLoadingRoads] ++ c' ++ [LogLoadedRoads loaded]) /\
       List.filter isWarning c' = map warnOf (List.filter malformed elements)) /\
  (forall (T : Type) (RB : RBush T) (st : RTree.RoadIndex T) (c : list logEntry),
     exists c',
       RTree.loadFromOSM (OsmData.mk (Some elements)) st c =
         (Return tt,
          fold_left (fun s road => stateAfter (RTree.addRoad road) s)
                    (segmentsOf RTree.fromOSMWay elements) st,
          c ++ [LogLoadingRoads] ++ c' ++ [LogLoadedRoads loaded]) /\
       List.filter isWarning c' = map warnOf (List.filter malformed elements)) /\
  List.length (segmentsOf Grid.fromOSMWay elements) = loaded /\
  List.length (segmentsOf RTree.fromOSMWay elements) = loaded.
Proof.
  intros loaded. repeat split.
  - intros st c.
    destruct (Grid_load_loop elements 0 st (c ++ [LogLoadingRoads])) as (c' & Hrun & Hwarn).
    exists c'. split; [|exact Hwarn].
    unfold Grid.loadFromOSM. simpl OsmData.elements.
    unfold bind at 1. unfold console at 1.
    unfold bind at 1. rewrite Hrun.
    unfold bind, console, ret. simpl. subst loaded.
    rewrite <- !app_assoc. reflexivity.
  - intros T RB st c.
    destruct (RTree_load_loop elements 0 st (c ++ [LogLoadingRoads])) as (c' & Hrun & Hwarn).
    exists c'. split; [|exact Hwarn].
    unfold RTree.loadFromOSM. simpl OsmData.elements.
    unfold bind at 1. unfold console at 1.
    unfold bind at 1. rewrite Hrun.
    unfold console. simpl. subst loaded.
    rewrite <- !app_assoc. reflexivity.
  - apply segmentsOf_length.
  - apply segmentsOf_length.
Qed.

(** Scenario 4 on the code: nine segments, one warning. *)
Lemma batchOfTen_counts :
  List.length (List.filter loadable batchOfTen) = 9%nat /\
  List.filter malformed batchOfTen = [residentialWay "5" [Point.mk 0 0]] /\
  List.length (List.filter loadable batchOfNine) = 9%nat /\
  List.filter malformed batchOfNine = [].
Proof. repeat split; reflexivity. Qed.

(** C4 fails as stated.  On the batch of ten the RBush loader returns
    nothing, so no count comes back; the grid loader returns 9, the same
    value as for the batch without the malformed way, so the value says
    nothing of what was skipped; and the console holds one warning and the
    number loaded, no number of skipped ways. *)
Lemma loadFromOSM_no_skipped_count :
  resultOf (RTree.loadFromOSM (OsmData.mk (Some batchOfTen)))
           (RTree.new (T := list RTreeItem.t)) = Return tt /\
  resultOf (Grid.loadFromOSM (OsmData.mk (Some batchOfTen))) Grid.new = Return 9%nat /\
  resultOf (Grid.loadFromOSM (OsmData.mk (Some batchOfNine))) Grid.new = Return 9%nat /\
  List.length (List.filter malformed batchOfTen) = 1%nat /\
  List.length (List.filter malformed batchOfNine) = 0%nat /\
  consoleOf (Grid.loadFromOSM (OsmData.mk (Some batchOfTen))) Grid.new =
    [ LogLoadingRoads;
      LogAddedRoad "Unnamed residential" ""; LogAddedRoad "Unnamed residential" "";
      LogAddedRoad "Unnamed residential" ""; LogAddedRoad "Unnamed residential" "";
      WarnFailedWay "5" "Invalid OSM way geometry";
      LogAddedRoad "Unnamed residential" ""; LogAddedRoad "Unnamed residential" "";
      LogAddedRoad "Unnamed residential" ""; LogAddedRoad "Unnamed residential" "";
      LogAddedRoad "Unnamed residential" "";
      LogLoadedRoads 9 ].
Proof. repeat split; reflexivity. Qed.

(** ** The scan over the candidates *)

Section ScanFacts.

Variables lon lat : R.

Lemma allFar_nil strict d : allFar lon lat strict d [].
Proof. intros road x Hin. inversion Hin. Qed.

Lemma allFar_cons strict d c cands :
  allFar lon lat strict d (c :: cands) <->
  (forall road x, c = Some road -> distanceIs lon lat road x ->
                  if strict then d < x else d <= x) /\
  allFar lon lat strict d cands.
Proof.
  unfold allFar. split.
  - intros H. split.
    + intros road x -> Hd. apply (H road x); [left | exact Hd].
    + intros road x Hin Hd. apply (H road x); [right; exact Hin | exact Hd].
  - intros [Hc Hrest] road x Hin Hd. apply elem_of_cons in Hin as [Heq | Hin].
    + apply (Hc road x); auto.
    + apply (Hrest road x); auto.
Qed.

Lemma allFar_weaken d d' cands :
  d' <= d -> allFar lon lat false d cands -> allFar lon lat false d' cands.
Proof.
  intros Hle H road x Hin Hd. specialize (H road x Hin Hd). simpl in *. lra.
Qed.

Lemma allFar_strict d d' cands :
  d' < d -> allFar lon lat false d cands -> allFar lon lat true d' cands.
Proof.
  intros Hlt H road x Hin Hd. specialize (H road x Hin Hd). simpl in *. lra.
Qed.

(** The loop returns its start value when no candidate is nearer than the
    start distance; otherwise the first candidate of least distance. *)
Lemma scan_fold_spec (cands : list (option RoadSegment.t)) :
  forall b0 d0 b d,
    fold_left (Scan.step lon lat) cands (b0, d0) = (b, d) ->
    (b = b0 /\ d = d0 /\ allFar lon lat false d0 cands) \/
    (exists pre road post,
        cands = pre ++ Some road :: post /\ b = Some road /\
        distanceIs lon lat road d /\ d < d0 /\
        allFar lon lat true d pre /\ allFar lon lat false d post).
Proof.
  induction cands as [|c rest IH]; intros b0 d0 b d Hfold.
  - simpl in Hfold. injection Hfold as <- <-. left. auto using allFar_nil.
  - simpl in Hfold.
    assert (Hstep :
      (Scan.step lon lat (b0, d0) c = (b0, d0) /\
       forall road x, c = Some road -> distanceIs lon lat road x -> d0 <= x) \/
      (exists road x, c = Some road /\ distanceIs lon lat road x /\ x < d0 /\
                      Scan.step lon lat (b0, d0) c = (Some road, x))).
    { unfold Scan.step, distanceIs. destruct c as [road|].
      - destruct (Geo.distanceToRoad lon lat road) as [x| |] eqn:Hx; simpl.
        + destruct (Rlt_dec x d0) as [Hlt|Hge].
          * right. exists road, x. auto.
          * left. split; [reflexivity|]. intros road' x' [= <-] Hx'.
            rewrite Hx in Hx'. injection Hx' as <-. lra.
        + left. split; [reflexivity|]. intros road' x' [= <-] Hx'. congruence.
        + left. split; [reflexivity|]. intros road' x' [= <-] Hx'. congruence.
      - left. split; [reflexivity|]. intros road' x' Hc. discriminate. }
    destruct Hstep as [[Hsame Hfar] | (road & x & -> & Hx & Hlt & Hnew)].
    + rewrite Hsame in Hfold. apply IH in Hfold.
      destruct Hfold as [(-> & -> & Hall) | (pre & road & post & -> & -> & Hd & Hlt & Hpre & Hpost)].
      * left. split; [reflexivity|]. split; [reflexivity|].
        apply allFar_cons. auto.
      * right. exists (c :: pre), road, post. repeat split; auto.
        apply allFar_cons. split; [|exact Hpre].
        intros road' x' Hc Hx'. specialize (Hfar road' x' Hc Hx'). lra.
    + rewrite Hnew in Hfold. apply IH in Hfold.
      destruct Hfold as [(-> & -> & Hall) | (pre & road' & post & -> & -> & Hd & Hlt' & Hpre & Hpost)].
      * right. exists [], road, rest. repeat split; auto using allFar_nil.
      * right. exists (Some road :: pre), road', post. repeat split; auto; [lra|].
        apply allFar_cons. split; [|exact Hpre].
        intros r x' [= <-] Hx'. unfold distanceIs in *. rewrite Hx in Hx'.
        injection Hx' as <-. exact Hlt'.
Qed.

Lemma nearest_fold (maxDistanceMeters : R) (cands : list (option RoadSegment.t)) :
  Scan.nearest lon lat maxDistanceMeters cands =
  fst (fold_left (Scan.step lon lat) cands (None, maxDistanceMeters)).
Proof. destruct cands; reflexivity. Qed.

(** A segment comes back: it is the first candidate of least distance,
    and that distance is below the radius. *)
Lemma nearest_Some (maxDistanceMeters : R) (cands : list (option RoadSegment.t))
    (road : RoadSegment.t) :
  Scan.nearest lon lat maxDistanceMeters cands = Some road ->
  exists pre post d,
    cands = pre ++ Some road :: post /\
    distanceIs lon lat road d /\ d < maxDistanceMeters /\
    allFar lon lat true d pre /\ allFar lon lat false d post.
Proof.
  rewrite nearest_fold.
  destruct (fold_left _ cands (None, maxDistanceMeters)) as [b d] eqn:Hfold.
  simpl. intros ->. apply scan_fold_spec in Hfold.
  destruct Hfold as [(Hb & _) | (pre & road' & post & Hc & [= <-] & Hd & Hlt & Hpre & Hpost)].
  - discriminate.
  - exists pre, post, d. auto.
Qed.

(** Nothing comes back exactly when no candidate is below the radius. *)
Lemma nearest_None (maxDistanceMeters : R) (cands : list (option RoadSegment.t)) :
  Scan.nearest lon lat maxDistanceMeters cands = None <->
  allFar lon lat false maxDistanceMeters cands.
Proof.
  rewrite nearest_fold.
  destruct (fold_left _ cands (None, maxDistanceMeters)) as [b d] eqn:Hfold.
  simpl. apply scan_fold_spec in Hfold.
  destruct Hfold as [(-> & -> & Hall) | (pre & road & post & -> & -> & Hd & Hlt & Hpre & Hpost)].
  - tauto.
  - split; [discriminate|]. intros Hall. exfalso.
    specialize (Hall road d). simpl in Hall.
    assert (maxDistanceMeters <= d); [|lra].
    apply Hall; [|exact Hd]. apply elem_of_app. right. left.
Qed.

End ScanFacts.

(** ** The roads map *)

Section JSMapFacts.

Context {V : Type}.
Implicit Types (m : JSMap.t V) (k : string) (v : V).

Lemma JSMap_get_set_eq k v m : JSMap.get k (JSMap.set k v m) = Some v.
Proof.
  induction m as [|[k' v'] rest IH]; simpl.
  - rewrite String.eqb_refl. reflexivity.
  - destruct (String.eqb_spec k k') as [->|Hne]; simpl.
    + rewrite String.eqb_refl. reflexivity.
    + destruct (String.eqb_spec k k'); [contradiction | exact IH].
Qed.

Lemma JSMap_get_set_ne k k' v m :
  k <> k' -> JSMap.get k' (JSMap.set k v m) = JSMap.get k' m.
Proof.
  intros Hne. induction m as [|[k0 v0] rest IH]; simpl.
  - destruct (String.eqb_spec k' k); [congruence | reflexivity].
  - destruct (String.eqb_spec k k0) as [->|Hne0]; simpl.
    + destruct (String.eqb_spec k' k0); [congruence | reflexivity].
    + destruct (String.eqb_spec k' k0); [reflexivity | exact IH].
Qed.

Lemma JSMap_get_in k v m : JSMap.get k m = Some v -> (k, v) ∈ m.
Proof.
  induction m as [|[k' v'] rest IH]; simpl; [discriminate|].
  destruct (String.eqb_spec k k') as [->|Hne].
  - intros [= ->]. left.
  - intros H. right. auto.
Qed.

Lemma JSMap_in_get k v m :
  NoDup (JSMap.keys m) -> (k, v) ∈ m -> JSMap.get k m = Some v.
Proof.
  induction m as [|[k' v'] rest IH]; simpl; intros Hnd Hin.
  - inversion Hin.
  - apply NoDup_cons in Hnd as [Hnotin Hnd].
    apply elem_of_cons in Hin as [[= -> ->] | Hin].
    + rewrite String.eqb_refl. reflexivity.
    + destruct (String.eqb_spec k k') as [->|Hne]; [|auto].
      exfalso. apply Hnotin. unfold JSMap.keys.
      apply list_elem_of_fmap. exists (k', v). auto.
Qed.

Lemma JSMap_keys_set k v m :
  forall k', k' ∈ JSMap.keys (JSMap.set k v m) <-> k' = k \/ k' ∈ JSMap.keys m.
Proof.
  intros k'. induction m as [|[k0 v0] rest IH]; simpl.
  - rewrite elem_of_cons. split; intros [H|H]; auto.
  - destruct (String.eqb_spec k k0) as [->|Hne]; simpl.
    + rewrite !elem_of_cons. tauto.
    + rewrite !elem_of_cons. unfold JSMap.keys in IH. rewrite IH. tauto.
Qed.

Lemma JSMap_set_NoDup k v m :
  NoDup (JSMap.keys m) -> NoDup (JSMap.keys (JSMap.set k v m)).
Proof.
  induction m as [|[k0 v0] rest IH]; simpl; intros Hnd.
  - apply NoDup_cons. split; [intros H; inversion H | constructor].
  - apply NoDup_cons in Hnd as [Hnotin Hnd].
    destruct (String.eqb_spec k k0) as [->|Hne]; simpl.
    + apply NoDup_cons. auto.
    + apply NoDup_cons. split; [|auto].
      intros Hin. apply JSMap_keys_set in Hin as [-> | Hin]; auto.
Qed.

Lemma JSMap_values_get v m :
  NoDup (JSMap.keys m) ->
  (v ∈ JSMap.values m <-> exists k, JSMap.get k m = Some v).
Proof.
  intros Hnd. unfold JSMap.values. split.
  - intros Hin. apply list_elem_of_fmap in Hin as ([k v'] & -> & Hin).
    exists k. apply JSMap_in_get; assumption.
  - intros [k Hget]. apply JSMap_get_in in Hget.
    apply list_elem_of_fmap. exists (k, v). auto.
Qed.

Lemma JSMap_get_keys k m : is_Some (JSMap.get k m) <-> k ∈ JSMap.keys m.
Proof.
  induction m as [|[k' v'] rest IH]; simpl.
  - split; [intros [x Hx]; discriminate | intros H; inversion H].
  - rewrite elem_of_cons. destruct (String.eqb_spec k k') as [->|Hne].
    + split; eauto.
    + rewrite IH. unfold JSMap.keys. tauto.
Qed.

End JSMapFacts.

(** ** Geometry *)

Section GeometryFacts.

Lemma pairs_ind (P : list R -> Prop) :
  P [] -> (forall x, P [x]) -> (forall x y rest, P rest -> P (x :: y :: rest)) ->
  forall l, P l.
Proof.
  intros Hnil Hone Hstep l.
  assert (H : P l /\ forall x, P (x :: l)).
  { induction l as [|y rest [IH1 IH2]]; split; auto. }
  exact (proj1 H).
Qed.

Lemma clamp01_bounds (t : R) : 0 <= Geometry.clamp01 t <= 1.
Proof.
  unfold Geometry.clamp01.
  destruct (Rlt_dec t 0); [lra|]. destruct (Rlt_dec 1 t); lra.
Qed.

Lemma between_l (a b : R) : Rmin a b <= a <= Rmax a b.
Proof. split; [apply Rmin_l | apply Rmax_l]. Qed.

Lemma between_mix (a b t : R) :
  0 <= t <= 1 -> Rmin a b <= a + t * (b - a) <= Rmax a b.
Proof.
  intros Ht. unfold Rmin, Rmax. destruct (Rle_dec a b); nra.
Qed.

Lemma sqrt_sum_bounds (a b : R) :
  - sqrt (a * a + b * b) <= a <= sqrt (a * a + b * b) /\
  - sqrt (a * a + b * b) <= b <= sqrt (a * a + b * b).
Proof.
  assert (Hq : 0 <= a * a + b * b) by nra.
  pose proof (sqrt_pos (a * a + b * b)) as Hs.
  pose proof (sqrt_sqrt _ Hq) as Hss.
  set (s := sqrt (a * a + b * b)) in *.
  repeat split; nra.
Qed.

(** The distance to a sub-segment is the distance to a point of it. *)
Lemma pointToLineDistance_foot (px py x1 y1 x2 y2 : R) :
  exists xx yy,
    Rmin x1 x2 <= xx <= Rmax x1 x2 /\
    Rmin y1 y2 <= yy <= Rmax y1 y2 /\
    Geometry.pointToLineDistance px py x1 y1 x2 y2 =
      sqrt ((px - xx) * (px - xx) + (py - yy) * (py - yy)).
Proof.
  unfold Geometry.pointToLineDistance.
  destruct (Req_dec_T _ 0) as [Hz|Hnz].
  - exists x1, y1. auto using between_l.
  - set (t := Geometry.clamp01 _).
    exists (x1 + t * (x2 - x1)), (y1 + t * (y2 - y1)).
    pose proof (clamp01_bounds (((px - x1) * (x2 - x1) + (py - y1) * (y2 - y1)) /
                                ((x2 - x1) * (x2 - x1) + (y2 - y1) * (y2 - y1)))) as Ht.
    fold t in Ht. auto using between_mix.
Qed.

Lemma pointToLineDistance_nonneg (px py x1 y1 x2 y2 : R) :
  0 <= Geometry.pointToLineDistance px py x1 y1 x2 y2.
Proof.
  destruct (pointToLineDistance_foot px py x1 y1 x2 y2) as (xx & yy & _ & _ & ->).
  apply sqrt_pos.
Qed.

(** A finite result of the distance loop is the start value or the
    distance to one of the sub-segments. *)
Lemma minSegmentDistance_Fin (lon lat : R) (positions : list R) :
  forall acc m,
    Geometry.minSegmentDistance lon lat positions acc = Fin m ->
    acc = Fin m \/
    exists x1 y1 x2 y2,
      hasSegment positions (x1, y1, x2, y2) /\
      m = Geometry.pointToLineDistance lon lat x1 y1 x2 y2.
Proof.
  induction positions as [|x|x1 y1 rest IH] using pairs_ind; intros acc m Hm.
  - left. exact Hm.
  - left. exact Hm.
  - destruct rest as [|x2 [|y2 more]].
    + left. exact Hm.
    + simpl in Hm. destruct acc; discriminate.
    + change (Geometry.minSegmentDistance lon lat (x2 :: y2 :: more)
                (num_min acc (Fin (Geometry.pointToLineDistance lon lat x1 y1 x2 y2)))
              = Fin m) in Hm.
      apply IH in Hm as [Hacc | (a & b & c & d & Hseg & ->)].
      * destruct acc as [r| |]; simpl in Hacc; try discriminate.
        -- injection Hacc as <-. unfold Rmin.
           destruct (Rle_dec r _); [left; reflexivity|].
           right. exists x1, y1, x2, y2. split; [left; reflexivity | reflexivity].
        -- injection Hacc as <-.
           right. exists x1, y1, x2, y2. split; [left; reflexivity | reflexivity].
      * right. exists a, b, c, d. split; [right; exact Hseg | reflexivity].
Qed.

Lemma boxCovers_segment (box : R * R * R * R) (positions : list R) :
  forall x1 y1 x2 y2,
    boxCovers box positions -> hasSegment positions (x1, y1, x2, y2) ->
    let '(minLon, minLat, maxLon, maxLat) := box in
    minLon <= x1 <= maxLon /\ minLon <= x2 <= maxLon /\
    minLat <= y1 <= maxLat /\ minLat <= y2 <= maxLat.
Proof.
  destruct box as [[[minLon minLat] maxLon] maxLat].
  induction positions as [|x|a b rest IH] using pairs_ind;
    intros x1 y1 x2 y2 Hcov Hseg; try contradiction.
  destruct Hcov as (Ha & Hb & Hrest).
  destruct Hseg as [Hhere | Hlater].
  - destruct rest as [|c [|d more]]; try contradiction.
    injection Hhere as -> -> -> ->.
    destruct Hrest as (Hc & Hd & _). auto.
  - apply IH; assumption.
Qed.

(** A segment nearer than the radius has a box that meets the search box. *)
Lemma near_road_meets_box (lon lat maxDistanceMeters d : R) (road : RoadSegment.t) :
  wellBoxed road ->
  distanceIs lon lat road d ->
  d < maxDistanceMeters ->
  intersects (RTree.searchBbox lon lat maxDistanceMeters) (RTree.itemOf road) = true.
Proof.
  unfold wellBoxed, distanceIs, Geo.distanceToRoad. intros Hcov Hd Hlt.
  destruct (Geometry.minSegmentDistance lon lat (RoadSegment.positions road) PosInf)
    as [m| |] eqn:Hm; try discriminate.
  simpl in Hd. injection Hd as <-.
  apply minSegmentDistance_Fin in Hm as [Hm | (x1 & y1 & x2 & y2 & Hseg & ->)];
    [discriminate|].
  pose proof (boxCovers_segment _ _ x1 y1 x2 y2 Hcov Hseg) as Hbox.
  unfold RTree.itemOf, RTree.searchBbox, intersects.
  destruct (RoadSegment.bbox road) as [[[minLon minLat] maxLon] maxLat].
  destruct Hbox as (Hx1 & Hx2 & Hy1 & Hy2).
  destruct (pointToLineDistance_foot lon lat x1 y1 x2 y2)
    as (xx & yy & Hxx & Hyy & Heq).
  rewrite Heq in Hlt.
  destruct (sqrt_sum_bounds (lon - xx) (lat - yy)) as [Hdx Hdy].
  set (s := sqrt _) in *.
  unfold Geometry.metersPerDegree in Hlt.
  assert (Hs : s < maxDistanceMeters / 111320).
  { apply Rmult_lt_reg_r with 111320; [lra|]. field_simplify; lra. }
  assert (Hxlo : minLon <= xx).
  { eapply Rle_trans; [|exact (proj1 Hxx)]. unfold Rmin. destruct (Rle_dec x1 x2); lra. }
  assert (Hxhi : xx <= maxLon).
  { eapply Rle_trans; [exact (proj2 Hxx)|]. unfold Rmax. destruct (Rle_dec x1 x2); lra. }
  assert (Hylo : minLat <= yy).
  { eapply Rle_trans; [|exact (proj1 Hyy)]. unfold Rmin. destruct (Rle_dec y1 y2); lra. }
  assert (Hyhi : yy <= maxLat).
  { eapply Rle_trans; [exact (proj2 Hyy)|]. unfold Rmax. destruct (Rle_dec y1 y2); lra. }
  simpl. unfold Rleb.
  repeat match goal with
         | |- context [Rle_dec ?a ?b] => destruct (Rle_dec a b); [|exfalso; lra]
         end.
  reflexivity.
Qed.

End GeometryFacts.

(** ** The distance to a polyline *)

Section SegmentDistance.

Lemma clamp01_max_min (param : R) : Geometry.clamp01 param = Rmax 0 (Rmin 1 param).
Proof.
  unfold Geometry.clamp01, Rmax, Rmin.
  destruct (Rlt_dec param 0); destruct (Rlt_dec 1 param);
    destruct (Rle_dec 1 param); try lra;
    match goal with |- context [Rle_dec ?a ?b] => destruct (Rle_dec a b) end; lra.
Qed.

(** The distance is that to the point of the sub-segment at the clamped
    parameter. *)
Lemma pointToLineDistance_param (px py x1 y1 x2 y2 : R) :
  exists t,
    0 <= t <= 1 /\
    Geometry.pointToLineDistance px py x1 y1 x2 y2 =
      planarDistance px py (x1 + t * (x2 - x1)) (y1 + t * (y2 - y1)).
Proof.
  unfold Geometry.pointToLineDistance, planarDistance.
  destruct (Req_dec_T _ 0) as [Hz|Hnz].
  - exists 0. split; [lra|]. f_equal. ring.
  - eexists. split; [apply clamp01_bounds | reflexivity].
Qed.

(** No point of the sub-segment is nearer. *)
Lemma pointToLineDistance_least (px py x1 y1 x2 y2 t : R) :
  0 <= t <= 1 ->
  Geometry.pointToLineDistance px py x1 y1 x2 y2 <=
    planarDistance px py (x1 + t * (x2 - x1)) (y1 + t * (y2 - y1)).
Proof.
  intros Ht. unfold Geometry.pointToLineDistance, planarDistance.
  set (A := px - x1). set (B := py - y1). set (C := x2 - x1). set (D := y2 - y1).
  replace (px - (x1 + t * C)) with (A - t * C) by (unfold A; ring).
  replace (py - (y1 + t * D)) with (B - t * D) by (unfold B; ring).
  destruct (Req_dec_T (C * C + D * D) 0) as [Hz|Hnz].
  - assert (HC : C = 0) by nra. assert (HD : D = 0) by nra.
    rewrite HC, HD. apply sqrt_le_1_alt. lra.
  - assert (HL : 0 < C * C + D * D) by nra.
    set (L := C * C + D * D) in *. set (dot := A * C + B * D).
    set (q := dot / L).
    assert (Hdot : dot = q * L) by (unfold q; field; lra).
    replace (px - (x1 + Geometry.clamp01 q * C)) with (A - Geometry.clamp01 q * C)
      by (unfold A; ring).
    replace (py - (y1 + Geometry.clamp01 q * D)) with (B - Geometry.clamp01 q * D)
      by (unfold B; ring).
    apply sqrt_le_1_alt.
    assert (Hexp : forall s,
              (A - s * C) * (A - s * C) + (B - s * D) * (B - s * D) =
              A * A + B * B - 2 * s * (q * L) + s * s * L).
    { intros s. rewrite <- Hdot. unfold dot, L. ring. }
    rewrite !Hexp. clear Hexp Hdot Hnz. clearbody q. clearbody L. clearbody A B.
    unfold Geometry.clamp01.
    destruct (Rlt_dec q 0) as [Hneg|Hnneg].
    + assert (0 <= t * L * (t - 2 * q)); [|lra].
      apply Rmult_le_pos; [apply Rmult_le_pos|]; lra.
    + destruct (Rlt_dec 1 q) as [Hbig|Hnbig].
      * assert (0 <= (1 - t) * (L * (2 * q - 1 - t))); [|lra].
        apply Rmult_le_pos; [lra|]. apply Rmult_le_pos; lra.
      * assert (0 <= (t - q) * (t - q) * L); [|lra].
        apply Rmult_le_pos; [apply Rle_0_sqr | lra].
Qed.

(** The loop of [distanceToRoad] started at a finite value. *)
Lemma minSegmentDistance_from (lon lat : R) (geometry : list Point.t) :
  forall start,
    exists m,
      Geometry.minSegmentDistance lon lat (Build.flatten geometry) (Fin start) = Fin m /\
      m <= start /\
      (forall seg, hasSegment (Build.flatten geometry) seg -> m <= segmentDistance lon lat seg) /\
      (m = start \/
       exists seg, hasSegment (Build.flatten geometry) seg /\ m = segmentDistance lon lat seg).
Proof.
  induction geometry as [|p rest IH]; intros start.
  - exists start. simpl. repeat split; [lra | tauto | auto].
  - destruct rest as [|q rest].
    + exists start. simpl. repeat split; [lra | tauto | auto].
    + change (Build.flatten (p :: q :: rest))
        with (Point.lon p :: Point.lat p :: Build.flatten (q :: rest)).
      change (Build.flatten (q :: rest))
        with (Point.lon q :: Point.lat q :: Build.flatten rest) at 1.
      set (here := (Point.lon p, Point.lat p, Point.lon q, Point.lat q)).
      change (Geometry.minSegmentDistance lon lat
                (Point.lon p :: Point.lat p :: Point.lon q :: Point.lat q :: Build.flatten rest)
                (Fin start))
        with (Geometry.minSegmentDistance lon lat (Build.flatten (q :: rest))
                (Fin (Rmin start (segmentDistance lon lat here)))).
      destruct (IH (Rmin start (segmentDistance lon lat here)))
        as (m & Hrun & Hle & Hall & Hatt).
      exists m. split; [exact Hrun|].
      pose proof (Rmin_l start (segmentDistance lon lat here)) as Hl.
      pose proof (Rmin_r start (segmentDistance lon lat here)) as Hr.
      split; [lra|]. split.
      * intros seg Hseg.
        change (hasSegment (Point.lon p :: Point.lat p :: Build.flatten (q :: rest)) seg)
          with (match Build.flatten (q :: rest) with
                | x2 :: y2 :: _ => seg = (Point.lon p, Point.lat p, x2, y2)
                | _ => False
                end \/ hasSegment (Build.flatten (q :: rest)) seg) in Hseg.
        destruct Hseg as [Hhere | Hlater].
        -- change (seg = here) in Hhere. subst seg. lra.
        -- apply Hall. exact Hlater.
      * destruct Hatt as [Hm | (seg & Hseg & Hm)].
        -- unfold Rmin in Hm. destruct (Rle_dec start _); [left; exact Hm|].
           right. exists here. split; [left; reflexivity | exact Hm].
        -- right. exists seg. split; [right; exact Hseg | exact Hm].
Qed.

(** The loop started at [Infinity], on a polyline of two points or more. *)
Lemma minSegmentDistance_polyline (lon lat : R) (geometry : list Point.t) :
  (2 <= List.length geometry)%nat ->
  exists m seg,
    Geometry.minSegmentDistance lon lat (Build.flatten geometry) PosInf = Fin m /\
    hasSegment (Build.flatten geometry) seg /\ m = segmentDistance lon lat seg /\
    forall seg', hasSegment (Build.flatten geometry) seg' -> m <= segmentDistance lon lat seg'.
Proof.
  destruct geometry as [|p [|q rest]]; simpl List.length; try lia. intros _.
  set (here := (Point.lon p, Point.lat p, Point.lon q, Point.lat q)).
  destruct (minSegmentDistance_from lon lat (q :: rest) (segmentDistance lon lat here))
    as (m & Hrun & Hle & Hall & Hatt).
  assert (Hhere : hasSegment (Build.flatten (p :: q :: rest)) here) by (left; reflexivity).
  assert (Hlater : forall seg, hasSegment (Build.flatten (q :: rest)) seg ->
                               hasSegment (Build.flatten (p :: q :: rest)) seg).
  { intros seg Hseg. right. exact Hseg. }
  assert (Hsplit : forall seg, hasSegment (Build.flatten (p :: q :: rest)) seg ->
                               seg = here \/ hasSegment (Build.flatten (q :: rest)) seg).
  { intros seg [Hseg | Hseg]; [left; exact Hseg | right; exact Hseg]. }
  assert (Hgo : Geometry.minSegmentDistance lon lat (Build.flatten (p :: q :: rest)) PosInf
                = Fin m) by exact Hrun.
  destruct Hatt as [Hm | (seg & Hseg & Hm)].
  - exists m, here. split; [exact Hgo|]. split; [exact Hhere|]. split; [exact Hm|].
    intros seg' Hseg'. destruct (Hsplit seg' Hseg') as [-> | Hl]; [lra | auto].
  - exists m, seg. split; [exact Hgo|]. split; [auto|]. split; [exact Hm|].
    intros seg' Hseg'. destruct (Hsplit seg' Hseg') as [-> | Hl]; [lra | auto].
Qed.

(** A finite result of the loop started at [Infinity] needs two points
    or more and an even number of coordinates. *)
Lemma minSegmentDistance_even (lon lat : R) (positions : list R) :
  forall acc m,
    (2 <= List.length positions)%nat ->
    Geometry.minSegmentDistance lon lat positions acc = Fin m ->
    exists k, List.length positions = (2 * k)%nat.
Proof.
  induction positions as [|x|x1 y1 rest IH] using pairs_ind; intros acc m Hlen Hm;
    simpl in Hlen; try lia.
  destruct rest as [|x2 [|y2 more]].
  - exists 1%nat. reflexivity.
  - simpl in Hm. destruct acc; discriminate.
  - change (Geometry.minSegmentDistance lon lat (x2 :: y2 :: more)
              (num_min acc (Fin (Geometry.pointToLineDistance lon lat x1 y1 x2 y2)))
            = Fin m) in Hm.
    apply IH in Hm as [k Hk]; [|simpl; lia].
    exists (S k). simpl in *. lia.
Qed.

Lemma distanceIs_shape (lon lat d : R) (road : RoadSegment.t) :
  distanceIs lon lat road d ->
  0 <= d /\ exists k, (2 <= k)%nat /\ List.length (RoadSegment.positions road) = (2 * k)%nat.
Proof.
  unfold distanceIs, Geo.distanceToRoad. intros Hd.
  destruct (Geometry.minSegmentDistance lon lat (RoadSegment.positions road) PosInf)
    as [m| |] eqn:Hm; try discriminate.
  simpl in Hd. injection Hd as <-. split.
  - apply minSegmentDistance_Fin in Hm as [Hm | (x1 & y1 & x2 & y2 & _ & ->)];
      [discriminate|].
    pose proof (pointToLineDistance_nonneg lon lat x1 y1 x2 y2).
    unfold Geometry.metersPerDegree. nra.
  - destruct (RoadSegment.positions road) as [|x1 [|y1 [|x2 [|y2 more]]]] eqn:Hpos;
      try discriminate.
    rewrite <- Hpos in Hm.
    apply minSegmentDistance_even in Hm as [k Hk]; [|rewrite Hpos; simpl; lia].
    rewrite Hpos in Hk. exists k. split; [simpl in Hk; lia | exact Hk].
Qed.

End SegmentDistance.

(** ** The distance the code computes is the true distance *)

Section TrueDistance.

Lemma flatten_of_pairs (positions : list R) :
  forall k, List.length positions = (2 * k)%nat ->
            exists geometry, positions = Build.flatten geometry /\ List.length geometry = k.
Proof.
  induction positions as [|x|x y rest IH] using pairs_ind; intros k Hk.
  - exists []. simpl in Hk. split; [reflexivity | simpl; lia].
  - simpl in Hk. lia.
  - destruct k as [|k]; [simpl in Hk; lia|].
    destruct (IH k) as (geometry & -> & Hlen); [simpl in Hk; lia|].
    exists (Point.mk x y :: geometry). split; [reflexivity | simpl; lia].
Qed.

(** On a polyline of two points or more the loop of [distanceToRoad]
    ends on the true distance. *)
Lemma polyline_trueDistance (lon lat : R) (road : RoadSegment.t) (geometry : list Point.t) :
  RoadSegment.positions road = Build.flatten geometry ->
  (2 <= List.length geometry)%nat ->
  exists d, distanceIs lon lat road d /\ trueDistance lon lat road d.
Proof.
  intros Hpos Hlen.
  destruct (minSegmentDistance_polyline lon lat geometry Hlen)
    as (m & [[[x1 y1] x2] y2] & Hrun & Hseg & Hm & Hall).
  exists (m * 111320). split.
  - unfold distanceIs, Geo.distanceToRoad. rewrite Hpos, Hrun. reflexivity.
  - split; [exists geometry; auto|]. rewrite Hpos. split.
    + destruct (pointToLineDistance_param lon lat x1 y1 x2 y2) as (t & Ht & Heq).
      exists (x1 + t * (x2 - x1)), (y1 + t * (y2 - y1)). split.
      * exists x1, y1, x2, y2, t. auto.
      * rewrite Hm. simpl. rewrite Heq. ring.
    + intros x y (a1 & b1 & a2 & b2 & t & Hseg' & Ht & -> & ->).
      pose proof (Hall _ Hseg') as Hle. simpl in Hle.
      pose proof (pointToLineDistance_least lon lat a1 b1 a2 b2 t Ht) as Hleast.
      lra.
Qed.

Lemma trueDistance_unique (lon lat d d' : R) (road : RoadSegment.t) :
  trueDistance lon lat road d -> trueDistance lon lat road d' -> d = d'.
Proof.
  intros (_ & (x & y & Hon & ->) & Hleast) (_ & (x' & y' & Hon' & ->) & Hleast').
  specialize (Hleast x' y' Hon'). specialize (Hleast' x y Hon). lra.
Qed.

(** What the code computes for a segment, when it is a finite number, is
    the true distance; and a segment that has a true distance is given
    it. *)
Lemma distanceIs_true (lon lat d : R) (road : RoadSegment.t) :
  distanceIs lon lat road d <-> trueDistance lon lat road d.
Proof.
  split.
  - intros Hd.
    destruct (distanceIs_shape lon lat d road Hd) as (_ & k & Hk & Hlen).
    destruct (flatten_of_pairs _ k Hlen) as (geometry & Hpos & Hg).
    destruct (polyline_trueDistance lon lat road geometry Hpos) as (d' & Hd' & Htrue);
      [lia|].
    unfold distanceIs in Hd, Hd'. rewrite Hd in Hd'. injection Hd' as ->. exact Htrue.
  - intros Htrue. pose proof Htrue as ((geometry & Hpos & Hlen) & _).
    destruct (polyline_trueDistance lon lat road geometry Hpos Hlen) as (d' & Hd' & Htrue').
    rewrite (trueDistance_unique lon lat d d' road Htrue Htrue'). exact Hd'.
Qed.

End TrueDistance.

(** ** Boxes built by the loader *)

Section Boxes.

Lemma scanBBox_fold (rest : list Point.t) :
  forall box,
    let box' :=
      fold_left
        (fun '(minLon, minLat, maxLon, maxLat) point =>
           (Rmin minLon (Point.lon point), Rmin minLat (Point.lat point),
            Rmax maxLon (Point.lon point), Rmax maxLat (Point.lat point)))
        rest box in
    (forall p, inBox box p -> inBox box' p) /\ Forall (inBox box') rest.
Proof.
  induction rest as [|q rest IH]; intros box; simpl.
  - split; [auto | constructor].
  - destruct box as [[[minLon minLat] maxLon] maxLat].
    specialize (IH (Rmin minLon (Point.lon q), Rmin minLat (Point.lat q),
                    Rmax maxLon (Point.lon q), Rmax maxLat (Point.lat q))).
    simpl in IH. destruct IH as [Hmono Hall]. split.
    + intros p [Hx Hy]. apply Hmono. simpl.
      pose proof (Rmin_l minLon (Point.lon q)). pose proof (Rmin_l minLat (Point.lat q)).
      pose proof (Rmax_l maxLon (Point.lon q)). pose proof (Rmax_l maxLat (Point.lat q)).
      split; lra.
    + constructor; [|exact Hall]. apply Hmono. simpl.
      pose proof (Rmin_r minLon (Point.lon q)). pose proof (Rmin_r minLat (Point.lat q)).
      pose proof (Rmax_r maxLon (Point.lon q)). pose proof (Rmax_r maxLat (Point.lat q)).
      split; lra.
Qed.

Lemma boxCovers_flatten (box : R * R * R * R) (geometry : list Point.t) :
  Forall (inBox box) geometry -> boxCovers box (Build.flatten geometry).
Proof.
  destruct box as [[[minLon minLat] maxLon] maxLat].
  induction 1 as [|p rest [Hx Hy] Hrest IH]; simpl; auto.
Qed.

(** The segment [fromOSMWay] builds carries the way's id and a box that
    covers its positions. *)
Lemma fromOSMWay_wellBoxed mkMetadata (way : Element.t) (road : RoadSegment.t) :
  Build.fromOSMWay mkMetadata way = inr road ->
  wellBoxed road /\ RoadSegment.id road = ("osm_way_" ++ Element.id way)%string.
Proof.
  unfold Build.fromOSMWay.
  destruct (Element.geometry way) as [[|first [|second more]]|]; try discriminate.
  intros [= <-]. split; [|reflexivity].
  unfold wellBoxed.
  apply (boxCovers_flatten (Build.scanBBox first (second :: more))
           (first :: second :: more)). unfold Build.scanBBox.
  destruct (scanBBox_fold (second :: more)
              (Point.lon first, Point.lat first, Point.lon first, Point.lat first))
    as [Hmono Hall].
  constructor; [|exact Hall].
  apply Hmono. simpl. lra.
Qed.

Lemma segmentsOf_wellBoxed mkMetadata (elements : list Element.t) :
  Forall wellBoxed (segmentsOf (Build.fromOSMWay mkMetadata) elements).
Proof.
  induction elements as [|element rest IH]; [constructor|].
  rewrite segmentsOf_cons. destruct (loadable element); [|exact IH].
  destruct (Build.fromOSMWay mkMetadata element) as [e|road] eqn:Hb; [exact IH|].
  constructor; [|exact IH]. apply (fromOSMWay_wellBoxed _ _ _ Hb).
Qed.

End Boxes.

(** ** What the operations keep *)

Section RTreeInvariant.

Context {T : Type} `{RBush T}.
Implicit Types (st : RTree.RoadIndex T).

Lemma itemOf_roadId (road : RoadSegment.t) :
  RTreeItem.roadId (RTree.itemOf road) = RoadSegment.id road.
Proof.
  unfold RTree.itemOf. destruct (RoadSegment.bbox road) as [[[a b] c] d]. reflexivity.
Qed.

Lemma rb_all_insert_elem (item item' : RTreeItem.t) (tree : T) :
  item' ∈ rb_all (rb_insert item tree) <-> item' = item \/ item' ∈ rb_all tree.
Proof. rewrite (rb_all_insert item tree). apply elem_of_cons. Qed.

Lemma rtreeConsistent_new : rtreeConsistent (RTree.new (T := T)).
Proof.
  unfold rtreeConsistent, RTree.new. simpl. rewrite rb_all_new.
  split; [constructor|]. split.
  - intros id road Hget. discriminate.
  - intros item Hin. inversion Hin.
Qed.

Lemma rtreeConsistent_addRoad (segment : RoadSegment.t) st :
  rtreeConsistent st -> rtreeConsistent (stateAfter (RTree.addRoad segment) st).
Proof.
  intros (Hnd & Hroads & Hitems). rewrite RTree_addRoad_state.
  unfold rtreeConsistent, setRoad. simpl. split; [|split].
  - apply JSMap_set_NoDup. exact Hnd.
  - intros id road Hget.
    destruct (decide (RoadSegment.id segment = id)) as [<-|Hne].
    + rewrite JSMap_get_set_eq in Hget. injection Hget as <-.
      split; [reflexivity|]. apply rb_all_insert_elem. left. reflexivity.
    + rewrite JSMap_get_set_ne in Hget by exact Hne.
      destruct (Hroads id road Hget) as [Hid Hitem].
      split; [exact Hid|]. apply rb_all_insert_elem. right. exact Hitem.
  - intros item Hin. apply rb_all_insert_elem in Hin as [-> | Hin].
    + rewrite itemOf_roadId, JSMap_get_set_eq. eauto.
    + destruct (decide (RoadSegment.id segment = RTreeItem.roadId item)) as [<-|Hne].
      * rewrite JSMap_get_set_eq. eauto.
      * rewrite JSMap_get_set_ne by exact Hne. auto.
Qed.

Lemma rtree_addRoad_wellBoxed (segment : RoadSegment.t) st :
  wellBoxed segment ->
  (forall id road, JSMap.get id (RTree.roads st) = Some road -> wellBoxed road) ->
  forall id road,
    JSMap.get id (RTree.roads (stateAfter (RTree.addRoad segment) st)) = Some road ->
    wellBoxed road.
Proof.
  intros Hseg Hall id road. rewrite RTree_addRoad_state. unfold setRoad. simpl.
  destruct (decide (RoadSegment.id segment = id)) as [<-|Hne].
  - rewrite JSMap_get_set_eq. intros [= <-]. exact Hseg.
  - rewrite JSMap_get_set_ne by exact Hne. apply Hall.
Qed.

(** Loading is adding the built segments one after the other. *)
Lemma RTree_loadFromOSM_state (osmData : OsmData.t) st :
  stateAfter (RTree.loadFromOSM osmData) st =
    match OsmData.elements osmData with
    | Some elements =>
        fold_left (fun s road => stateAfter (RTree.addRoad road) s)
                  (segmentsOf RTree.fromOSMWay elements) st
    | None => st
    end.
Proof.
  destruct osmData as [[elements|]]; [|reflexivity].
  unfold stateAfter, RTree.loadFromOSM. simpl OsmData.elements.
  unfold bind at 1. unfold console at 1. unfold bind at 1.
  destruct (RTree_load_loop elements 0 st ([] ++ [LogLoadingRoads])) as (c' & Hrun & _).
  rewrite Hrun. reflexivity.
Qed.

End RTreeInvariant.

Section RTreeOps.

Context {T : Type} `{RBush T}.
Implicit Types (st : RTree.RoadIndex T).

Lemma rtree_addRoads_consistent (segments : list RoadSegment.t) :
  forall st, rtreeConsistent st ->
    rtreeConsistent (fold_left (fun s road => stateAfter (RTree.addRoad road) s) segments st).
Proof.
  induction segments as [|segment rest IH]; intros st Hst; simpl; [exact Hst|].
  apply IH. apply rtreeConsistent_addRoad. exact Hst.
Qed.

Lemma rtree_addRoads_wellBoxed (segments : list RoadSegment.t) :
  Forall wellBoxed segments ->
  forall st,
    (forall id road, JSMap.get id (RTree.roads st) = Some road -> wellBoxed road) ->
    forall id road,
      JSMap.get id (RTree.roads
                      (fold_left (fun s road => stateAfter (RTree.addRoad road) s) segments st))
        = Some road ->
      wellBoxed road.
Proof.
  induction 1 as [|segment rest Hseg Hrest IH]; intros st Hst; simpl; [exact Hst|].
  apply IH. apply rtree_addRoad_wellBoxed; assumption.
Qed.

Lemma rtreeCall_consistent (o : op) st :
  rtreeConsistent st -> rtreeConsistent (stateAfter (rtreeCall o) st).
Proof.
  intros Hst. destruct o as [segment | osmData | roadId metrics]; simpl.
  - apply rtreeConsistent_addRoad. exact Hst.
  - rewrite RTree_loadFromOSM_state.
    destruct (OsmData.elements osmData); [|exact Hst].
    apply rtree_addRoads_consistent. exact Hst.
  - exact Hst.
Qed.

Lemma rtreeCall_wellBoxed (o : op) st :
  opBoxed o ->
  (forall id road, JSMap.get id (RTree.roads st) = Some road -> wellBoxed road) ->
  forall id road,
    JSMap.get id (RTree.roads (stateAfter (rtreeCall o) st)) = Some road -> wellBoxed road.
Proof.
  intros Ho Hst. destruct o as [segment | osmData | roadId metrics]; simpl.
  - apply rtree_addRoad_wellBoxed; assumption.
  - rewrite RTree_loadFromOSM_state.
    destruct (OsmData.elements osmData); [|exact Hst].
    apply rtree_addRoads_wellBoxed; [|exact Hst].
    apply segmentsOf_wellBoxed.
  - exact Hst.
Qed.

Lemma rtree_ops_consistent (ops : list op) :
  forall st, rtreeConsistent st ->
    rtreeConsistent (fold_left (fun s o => stateAfter (rtreeCall o) s) ops st).
Proof.
  induction ops as [|o rest IH]; intros st Hst; simpl; [exact Hst|].
  apply IH. apply rtreeCall_consistent. exact Hst.
Qed.

Lemma rtree_ops_wellBoxed (ops : list op) :
  Forall opBoxed ops ->
  forall st,
    (forall id road, JSMap.get id (RTree.roads st) = Some road -> wellBoxed road) ->
    forall id road,
      JSMap.get id (RTree.roads (fold_left (fun s o => stateAfter (rtreeCall o) s) ops st))
        = Some road ->
      wellBoxed road.
Proof.
  induction 1 as [|o rest Ho Hrest IH]; intros st Hst; simpl; [exact Hst|].
  apply IH. apply rtreeCall_wellBoxed; assumption.
Qed.

Lemma rtreeAfter_consistent (ops : list op) : rtreeConsistent (rtreeAfter (T := T) ops).
Proof. apply rtree_ops_consistent, rtreeConsistent_new. Qed.

Lemma rtreeAfter_wellBoxed (ops : list op) :
  Forall opBoxed ops ->
  forall id road,
    JSMap.get id (RTree.roads (rtreeAfter (T := T) ops)) = Some road -> wellBoxed road.
Proof.
  intros Hops. apply rtree_ops_wellBoxed; [exact Hops|].
  intros id road Hget. discriminate.
Qed.

End RTreeOps.

Section GridOps.

Implicit Types (st : Grid.RoadIndex).

Lemma gridConsistent_new : gridConsistent Grid.new.
Proof.
  unfold gridConsistent, Grid.new. simpl. split; [constructor|]. split.
  - intros id road Hget. discriminate.
  - intros key cell id Hcell. rewrite lookup_empty in Hcell. discriminate.
Qed.

Lemma gridConsistent_addRoad (road : RoadSegment.t) st :
  gridConsistent st -> gridConsistent (stateAfter (Grid.addRoad road) st).
Proof.
  intros (Hnd & Hroads & Hcells). unfold gridConsistent.
  rewrite Grid_addRoad_roads, Grid_addRoad_grid. unfold setRoad.
  set (key := Grid.getGridKey (fst (RoadSegment.midpoint road))
                              (snd (RoadSegment.midpoint road))).
  split; [|split].
  - apply JSMap_set_NoDup. exact Hnd.
  - intros id road' Hget.
    destruct (decide (RoadSegment.id road = id)) as [<-|Hne].
    + rewrite JSMap_get_set_eq in Hget. injection Hget as <-.
      split; [reflexivity|]. fold key. rewrite lookup_insert_eq. simpl.
      apply elem_of_app. right. left.
    + rewrite JSMap_get_set_ne in Hget by exact Hne.
      destruct (Hroads id road' Hget) as [Hid Hin].
      split; [exact Hid|].
      set (key' := Grid.getGridKey (fst (RoadSegment.midpoint road'))
                                   (snd (RoadSegment.midpoint road'))) in *.
      destruct (decide (key = key')) as [<-|Hk].
      * rewrite lookup_insert_eq. simpl. apply elem_of_app. left. exact Hin.
      * rewrite lookup_insert_ne by exact Hk. exact Hin.
  - intros k cell id Hcell Hin.
    assert (Hold : is_Some (JSMap.get id (Grid.roads st)) \/ id = RoadSegment.id road).
    { destruct (decide (key = k)) as [<-|Hk].
      - rewrite lookup_insert_eq in Hcell. injection Hcell as <-.
        apply elem_of_app in Hin as [Hin | Hin].
        + left. destruct (Grid.spatialGrid st !! key) as [cell|] eqn:Hc; simpl in Hin.
          * exact (Hcells key cell id Hc Hin).
          * inversion Hin.
        + right. apply list_elem_of_singleton in Hin. exact Hin.
      - rewrite lookup_insert_ne in Hcell by exact Hk.
        left. exact (Hcells k cell id Hcell Hin). }
    destruct (decide (RoadSegment.id road = id)) as [<-|Hne].
    + rewrite JSMap_get_set_eq. eauto.
    + rewrite JSMap_get_set_ne by exact Hne.
      destruct Hold as [Hold | ->]; [exact Hold | congruence].
Qed.

Lemma Grid_loadFromOSM_state (osmData : OsmData.t) st :
  stateAfter (Grid.loadFromOSM osmData) st =
    match OsmData.elements osmData with
    | Some elements =>
        fold_left (fun s road => stateAfter (Grid.addRoad road) s)
                  (segmentsOf Grid.fromOSMWay elements) st
    | None => st
    end.
Proof.
  destruct osmData as [[elements|]]; [|reflexivity].
  unfold stateAfter, Grid.loadFromOSM. simpl OsmData.elements.
  unfold bind at 1. unfold console at 1. unfold bind at 1.
  destruct (Grid_load_loop elements 0 st ([] ++ [LogLoadingRoads])) as (c' & Hrun & _).
  rewrite Hrun. reflexivity.
Qed.

Lemma grid_addRoads_consistent (segments : list RoadSegment.t) :
  forall st, gridConsistent st ->
    gridConsistent (fold_left (fun s road => stateAfter (Grid.addRoad road) s) segments st).
Proof.
  induction segments as [|segment rest IH]; intros st Hst; simpl; [exact Hst|].
  apply IH. apply gridConsistent_addRoad. exact Hst.
Qed.

Lemma gridCall_consistent (o : op) st :
  gridConsistent st -> gridConsistent (stateAfter (gridCall o) st).
Proof.
  intros Hst. destruct o as [segment | osmData | roadId metrics]; simpl.
  - apply gridConsistent_addRoad. exact Hst.
  - assert (Heq : stateAfter (bind (Grid.loadFromOSM osmData) (fun _ => ret tt)) st
                  = stateAfter (Grid.loadFromOSM osmData) st).
    { unfold stateAfter, bind, ret.
      destruct (Grid.loadFromOSM osmData st []) as [[[n|e] s'] c']; reflexivity. }
    rewrite Heq, Grid_loadFromOSM_state.
    destruct (OsmData.elements osmData); [|exact Hst].
    apply grid_addRoads_consistent. exact Hst.
  - exact Hst.
Qed.

Lemma gridAfter_consistent (ops : list op) : gridConsistent (gridAfter ops).
Proof.
  unfold gridAfter. generalize gridConsistent_new. generalize Grid.new.
  induction ops as [|o rest IH]; intros st Hst; simpl; [exact Hst|].
  apply IH. apply gridCall_consistent. exact Hst.
Qed.

End GridOps.

(** ** Nearest road over the RBush tree *)

Section RTreeNearest.

Context {T : Type} `{RBush T}.
Implicit Types (st : RTree.RoadIndex T).

Lemma RTree_findNearest_run (lon lat maxDistanceMeters : R) st (c : list logEntry) :
  RTree.findNearest lon lat maxDistanceMeters st c =
    (Return (Scan.nearest lon lat maxDistanceMeters
               (RTree.candidates lon lat maxDistanceMeters st)), st, c).
Proof. reflexivity. Qed.

(** Every candidate is a segment of the roads map. *)
Lemma rtree_candidate_stored (lon lat maxDistanceMeters : R) st (road : RoadSegment.t) :
  Some road ∈ RTree.candidates lon lat maxDistanceMeters st ->
  road ∈ JSMap.values (RTree.roads st).
Proof.
  unfold RTree.candidates. intros Hin.
  apply list_elem_of_fmap in Hin as (item & Hget & _).
  symmetry in Hget. apply JSMap_get_in in Hget.
  unfold JSMap.values. apply list_elem_of_fmap. exists (RTreeItem.roadId item, road). auto.
Qed.

(** Every stored segment nearer than the radius is a candidate. *)
Lemma rtree_near_is_candidate (lon lat maxDistanceMeters d : R) st (road : RoadSegment.t) :
  rtreeConsistent st ->
  (forall id r, JSMap.get id (RTree.roads st) = Some r -> wellBoxed r) ->
  road ∈ JSMap.values (RTree.roads st) ->
  distanceIs lon lat road d -> d < maxDistanceMeters ->
  Some road ∈ RTree.candidates lon lat maxDistanceMeters st.
Proof.
  intros (Hnd & Hroads & _) Hboxed Hin Hd Hlt.
  apply (JSMap_values_get road _ Hnd) in Hin as [id Hget].
  destruct (Hroads id road Hget) as [Hid Hitem].
  unfold RTree.candidates. apply list_elem_of_fmap.
  exists (RTree.itemOf road). split.
  - rewrite itemOf_roadId, Hid. symmetry. exact Hget.
  - rewrite (rb_search_all _ (RTree.spatialIndex st)).
    apply list_elem_of_filter. split; [|exact Hitem].
    apply (near_road_meets_box lon lat maxDistanceMeters d road); auto.
    exact (Hboxed id road Hget).
Qed.

Lemma rtree_nearest_spec (lon lat maxDistanceMeters : R) st (road : RoadSegment.t) :
  rtreeConsistent st ->
  (forall id r, JSMap.get id (RTree.roads st) = Some r -> wellBoxed r) ->
  Scan.nearest lon lat maxDistanceMeters (RTree.candidates lon lat maxDistanceMeters st)
    = Some road ->
  exists d,
    road ∈ JSMap.values (RTree.roads st) /\
    distanceIs lon lat road d /\ d < maxDistanceMeters /\
    noneNearer lon lat d (JSMap.values (RTree.roads st)).
Proof.
  intros Hcons Hboxed Hres.
  apply nearest_Some in Hres as (pre & post & d & Hc & Hd & Hlt & Hpre & Hpost).
  exists d. split; [|split; [exact Hd | split; [exact Hlt|]]].
  - apply (rtree_candidate_stored lon lat maxDistanceMeters). rewrite Hc.
    apply elem_of_app. right. left.
  - intros road' x Hin Hx.
    destruct (Rle_lt_dec d x) as [Hle | Hgt]; [exact Hle | exfalso].
    assert (Hcand : Some road' ∈ RTree.candidates lon lat maxDistanceMeters st).
    { apply (rtree_near_is_candidate lon lat maxDistanceMeters x); auto. lra. }
    rewrite Hc in Hcand. apply elem_of_app in Hcand as [Hcand | Hcand].
    + specialize (Hpre road' x Hcand Hx). simpl in Hpre. lra.
    + apply elem_of_cons in Hcand as [[= ->] | Hcand].
      * unfold distanceIs in *. rewrite Hd in Hx. injection Hx as ->. lra.
      * specialize (Hpost road' x Hcand Hx). simpl in Hpost. lra.
Qed.

End RTreeNearest.

Section LinearScan.

(** The linear scan finds a segment at the least distance when one is
    nearer than the radius. *)
Lemma linearScan_agrees (lon lat maxDistanceMeters d : R) (roads : JSMap.t RoadSegment.t)
    (road : RoadSegment.t) :
  road ∈ JSMap.values roads ->
  distanceIs lon lat road d -> d < maxDistanceMeters ->
  noneNearer lon lat d (JSMap.values roads) ->
  exists road', linearScan lon lat maxDistanceMeters roads = Some road' /\
                distanceIs lon lat road' d.
Proof.
  intros Hin Hd Hlt Hmin. unfold linearScan.
  destruct (Scan.nearest lon lat maxDistanceMeters (map Some (JSMap.values roads)))
    as [road'|] eqn:Hscan.
  - exists road'. split; [reflexivity|].
    apply nearest_Some in Hscan as (pre & post & d' & Hc & Hd' & Hlt' & Hpre & Hpost).
    assert (Hin' : road' ∈ JSMap.values roads).
    { assert (Hs : Some road' ∈ map Some (JSMap.values roads))
        by (rewrite Hc; apply elem_of_app; right; left).
      apply list_elem_of_fmap in Hs as (r & [= ->] & Hr). exact Hr. }
    pose proof (Hmin road' d' Hin' Hd') as Hge.
    assert (Hle : d' <= d).
    { assert (Hs : Some road ∈ map Some (JSMap.values roads))
        by (apply list_elem_of_fmap; exists road; auto).
      rewrite Hc in Hs. apply elem_of_app in Hs as [Hs | Hs].
      - specialize (Hpre road d Hs Hd). simpl in Hpre. lra.
      - apply elem_of_cons in Hs as [[= ->] | Hs].
        + unfold distanceIs in *. rewrite Hd in Hd'. injection Hd' as ->. lra.
        + specialize (Hpost road d Hs Hd). simpl in Hpost. exact Hpost. }
    assert (d' = d) as -> by lra. exact Hd'.
  - exfalso. apply nearest_None in Hscan.
    assert (Hs : Some road ∈ map Some (JSMap.values roads))
      by (apply list_elem_of_fmap; exists road; auto).
    specialize (Hscan road d Hs Hd). simpl in Hscan. lra.
Qed.

End LinearScan.

(** C2, as the code has it.  Over the RBush tree, for every index reached
    by the operations, the empty one included, every point and every
    radius, [findNearest] returns without throwing and leaves the index as
    it was.  It returns [null] when no stored segment has a true distance
    strictly below the radius, a segment exactly at the radius included.
    When some stored segment has a true distance strictly below the
    radius, and the segments added by hand have boxes that cover their
    positions, it returns a stored segment of least true distance, which
    is below the radius. *)
Theorem findNearest_radius (T : Type) (RB : RBush T) (ops : list op)
    (lon lat maxDistanceMeters : R) (c : list logEntry) :
  let st := rtreeAfter (T := T) ops in
  let stored := JSMap.values (RTree.roads st) in
  exists result,
    RTree.findNearest lon lat maxDistanceMeters st c = (Return result, st, c) /\
    ((forall road x, road ∈ stored -> trueDistance lon lat road x ->
                     maxDistanceMeters <= x) ->
     result = None) /\
    (Forall opBoxed ops ->
     forall road x,
       road ∈ stored -> trueDistance lon lat road x -> x < maxDistanceMeters ->
       exists best d,
         result = Some best /\ best ∈ stored /\
         trueDistance lon lat best d /\ d < maxDistanceMeters /\
         forall road' x', road' ∈ stored -> trueDistance lon lat road' x' -> d <= x').
Proof.
  intros st stored.
  pose proof (rtreeAfter_consistent (T := T) ops) as Hcons.
  fold st in Hcons.
  eexists. split; [apply RTree_findNearest_run|]. split.
  - intros Hfar. apply nearest_None. intros road x Hin Hx. simpl.
    apply (Hfar road x); [|apply distanceIs_true; exact Hx].
    apply (rtree_candidate_stored lon lat maxDistanceMeters). exact Hin.
  - intros Hops road x Hin Hx Hlt. apply distanceIs_true in Hx.
    pose proof (rtreeAfter_wellBoxed (T := T) ops Hops) as Hboxed.
    fold st in Hboxed.
    destruct (Scan.nearest lon lat maxDistanceMeters
                (RTree.candidates lon lat maxDistanceMeters st)) as [best|] eqn:Hres.
    + destruct (rtree_nearest_spec lon lat maxDistanceMeters st best Hcons Hboxed Hres)
        as (d & Hbest & Hd & Hlt' & Hmin).
      exists best, d. split; [reflexivity|]. split; [exact Hbest|].
      split; [apply distanceIs_true; exact Hd|]. split; [exact Hlt'|].
      intros road' x' Hin' Hx'. apply (Hmin road' x' Hin').
      apply distanceIs_true. exact Hx'.
    + exfalso. apply nearest_None in Hres.
      assert (Hcand : Some road ∈ RTree.candidates lon lat maxDistanceMeters st)
        by (apply (rtree_near_is_candidate lon lat maxDistanceMeters x); auto).
      specialize (Hres road x Hcand Hx). simpl in Hres. lra.
Qed.

Lemma longRoad_boxed : wellBoxed longRoad.
Proof. unfold wellBoxed. simpl. lra. Qed.

(** The true distance of a segment from its own first point is zero. *)
Lemma trueDistance_start (x1 y1 x2 y2 : R) (road : RoadSegment.t) :
  RoadSegment.positions road = [x1; y1; x2; y2] ->
  trueDistance x1 y1 road 0.
Proof.
  intros Hpos. unfold trueDistance. rewrite Hpos.
  assert (Hzero : planarDistance x1 y1 x1 y1 = 0).
  { unfold planarDistance.
    replace ((x1 - x1) * (x1 - x1) + (y1 - y1) * (y1 - y1)) with 0 by ring.
    apply sqrt_0. }
  split; [|split].
  - exists [Point.mk x1 y1; Point.mk x2 y2]. split; [reflexivity | simpl; lia].
  - exists x1, y1. split; [|rewrite Hzero; ring].
    exists x1, y1, x2, y2, 0. split; [left; reflexivity|]. split; [lra|]. split; ring.
  - intros x y _. unfold planarDistance.
    pose proof (sqrt_pos ((x1 - x) * (x1 - x) + (y1 - y) * (y1 - y))). lra.
Qed.

(** One hand-made segment from (0, 0) one degree to the east, asked for
    at its first point with a radius of 30 m: the segment is returned. *)
Lemma findNearest_radius_witness :
  let st := rtreeAfter (T := list RTreeItem.t) [AddRoad longRoad] in
  exists best d,
    RTree.findNearest 0 0 30 st [] = (Return (Some best), st, []) /\
    best ∈ JSMap.values (RTree.roads st) /\
    trueDistance 0 0 best d /\ d < 30 /\
    forall road' x',
      road' ∈ JSMap.values (RTree.roads st) -> trueDistance 0 0 road' x' -> d <= x'.
Proof.
  intros st.
  destruct (findNearest_radius (list RTreeItem.t) scanTree [AddRoad longRoad] 0 0 30 [])
    as (result & Hrun & _ & Hnear).
  assert (Hops : Forall opBoxed [AddRoad longRoad])
    by (apply List.Forall_cons; [exact longRoad_boxed | apply List.Forall_nil]).
  destruct (Hnear Hops longRoad 0) as (best & d & -> & Hbest & Hd & Hlt & Hleast).
  - left.
  - apply (trueDistance_start 0 0 1 0). reflexivity.
  - lra.
  - exists best, d. split; [exact Hrun|]. auto.
Defined.

(** C2 fails as stated, on a segment whose box does not cover its
    positions.  The segment with the swapped box is stored, the point asked
    for is its first point, at a true distance of zero, and [findNearest]
    returns [null] with a radius of 30 m: the tree is searched by boxes,
    and this box lies elsewhere. *)
Lemma findNearest_misses_swapped_box :
  let st := rtreeAfter (T := list RTreeItem.t) [AddRoad swappedBoxRoad] in
  swappedBoxRoad ∈ JSMap.values (RTree.roads st) /\
  trueDistance (-81773 / 1000) (26463 / 1000) swappedBoxRoad 0 /\
  0 < 30 /\
  RTree.findNearest (-81773 / 1000) (26463 / 1000) 30 st [] = (Return None, st, []).
Proof.
  intros st. split; [left|]. split; [|split; [lra|]].
  - apply (trueDistance_start _ _ (-81772 / 1000) (26463 / 1000)). reflexivity.
  - rewrite RTree_findNearest_run. f_equal. f_equal.
    unfold RTree.candidates, st, rtreeAfter. simpl.
    unfold scanSearch, RTree.searchBbox, intersects, Rleb. simpl.
    change (scanInsert (RTree.itemOf swappedBoxRoad) []) with [RTree.itemOf swappedBoxRoad].
    rewrite filter_cons_False; [reflexivity|].
    simpl. destruct (Rle_dec (26463 / 1000) (-81773 / 1000 + 30 / 111320)) as [Hle|_].
    + exfalso. lra.
    + simpl. discriminate.
Qed.

(** ** Nearest road over the grid *)

Section GridNearest.

Implicit Types (st : Grid.RoadIndex).

Lemma Grid_findNearest_run (lon lat maxDistanceMeters : R) st (c : list logEntry) :
  Grid.findNearest lon lat maxDistanceMeters st c =
    (Return (Scan.nearest lon lat maxDistanceMeters (Grid.candidates lon lat st)), st, c).
Proof. reflexivity. Qed.

Lemma grid_candidate_stored (lon lat : R) st (road : RoadSegment.t) :
  Some road ∈ Grid.candidates lon lat st -> road ∈ JSMap.values (Grid.roads st).
Proof.
  unfold Grid.candidates. intros Hin.
  apply list_elem_of_In, in_flat_map in Hin as (dx & _ & Hin).
  apply in_flat_map in Hin as (dy & _ & Hin).
  apply list_elem_of_In, list_elem_of_fmap in Hin as (id & Hget & _).
  symmetry in Hget. apply JSMap_get_in in Hget.
  unfold JSMap.values. apply list_elem_of_fmap. exists (id, road). auto.
Qed.

Lemma offsets_elem (d : Z) : d ∈ Grid.offsets <-> (-2 <= d <= 2)%Z.
Proof.
  unfold Grid.offsets, Grid.searchRadius. rewrite elem_of_seqZ. lia.
Qed.

(** A stored segment whose midpoint cell is in the scanned block is a
    candidate. *)
Lemma grid_window_is_candidate (lon lat : R) st (road : RoadSegment.t) :
  gridConsistent st ->
  road ∈ JSMap.values (Grid.roads st) ->
  inWindow lon lat road ->
  Some road ∈ Grid.candidates lon lat st.
Proof.
  intros (Hnd & Hroads & _) Hin Hwin.
  apply (JSMap_values_get road _ Hnd) in Hin as [id Hget].
  destruct (Hroads id road Hget) as [Hid Hcell].
  unfold inWindow in Hwin. unfold Grid.getGridKey in *.
  set (gx := floor (fst (RoadSegment.midpoint road) / Grid.gridSize)) in *.
  set (gy := floor (snd (RoadSegment.midpoint road) / Grid.gridSize)) in *.
  destruct Hwin as [Hx Hy].
  unfold Grid.candidates.
  set (cx := floor (lon / Grid.gridSize)) in *.
  set (cy := floor (lat / Grid.gridSize)) in *.
  apply list_elem_of_In, in_flat_map. exists (gx - cx)%Z. split.
  { apply list_elem_of_In, offsets_elem. lia. }
  apply in_flat_map. exists (gy - cy)%Z. split.
  { apply list_elem_of_In, offsets_elem. lia. }
  apply list_elem_of_In, list_elem_of_fmap. exists id. split; [auto|].
  replace (cx + (gx - cx))%Z with gx by lia.
  replace (cy + (gy - cy))%Z with gy by lia.
  exact Hcell.
Qed.

Lemma grid_nearest_spec (lon lat maxDistanceMeters : R) st (road : RoadSegment.t) :
  gridConsistent st ->
  Scan.nearest lon lat maxDistanceMeters (Grid.candidates lon lat st) = Some road ->
  exists d,
    road ∈ JSMap.values (Grid.roads st) /\
    distanceIs lon lat road d /\ d < maxDistanceMeters /\
    forall road' x,
      road' ∈ JSMap.values (Grid.roads st) -> inWindow lon lat road' ->
      distanceIs lon lat road' x -> d <= x.
Proof.
  intros Hcons Hres.
  apply nearest_Some in Hres as (pre & post & d & Hc & Hd & Hlt & Hpre & Hpost).
  exists d. split; [|split; [exact Hd | split; [exact Hlt|]]].
  - apply (grid_candidate_stored lon lat). rewrite Hc. apply elem_of_app. right. left.
  - intros road' x Hin Hwin Hx.
    pose proof (grid_window_is_candidate lon lat st road' Hcons Hin Hwin) as Hcand.
    rewrite Hc in Hcand. apply elem_of_app in Hcand as [Hcand | Hcand].
    + specialize (Hpre road' x Hcand Hx). simpl in Hpre. lra.
    + apply elem_of_cons in Hcand as [[= ->] | Hcand].
      * unfold distanceIs in *. rewrite Hd in Hx. injection Hx as ->. lra.
      * specialize (Hpost road' x Hcand Hx). simpl in Hpost. lra.
Qed.

End GridNearest.

(** C1, as the code has it.  When [findNearest] returns a segment, the
    segment is stored, its true distance is strictly below the radius, and
    - over the RBush tree (boxes covering their positions) no stored
      segment is strictly nearer, so the result is at the distance the
      brute-force scan over all stored segments finds;
    - over the grid no stored segment whose midpoint cell lies within two
      cells of the query point's cell is strictly nearer. *)
Theorem findNearest_nearest (lon lat maxDistanceMeters : R) (ops : list op)
    (nearest : RoadSegment.t) :
  (forall (T : Type) (RB : RBush T),
     Forall opBoxed ops ->
     let st := rtreeAfter (T := T) ops in
     resultOf (RTree.findNearest lon lat maxDistanceMeters) st = Return (Some nearest) ->
     exists d,
       nearest ∈ JSMap.values (RTree.roads st) /\
       distanceIs lon lat nearest d /\ d < maxDistanceMeters /\
       noneNearer lon lat d (JSMap.values (RTree.roads st)) /\
       exists road', linearScan lon lat maxDistanceMeters (RTree.roads st) = Some road' /\
                     distanceIs lon lat road' d) /\
  (let st := gridAfter ops in
   resultOf (Grid.findNearest lon lat maxDistanceMeters) st = Return (Some nearest) ->
   exists d,
     nearest ∈ JSMap.values (Grid.roads st) /\
     distanceIs lon lat nearest d /\ d < maxDistanceMeters /\
     forall road x,
       road ∈ JSMap.values (Grid.roads st) -> inWindow lon lat road ->
       distanceIs lon lat road x -> d <= x).
Proof.
  split.
  - intros T RB Hops st Hres.
    unfold resultOf in Hres. rewrite RTree_findNearest_run in Hres.
    simpl in Hres. injection Hres as Hres.
    destruct (rtree_nearest_spec lon lat maxDistanceMeters st nearest
                (rtreeAfter_consistent ops) (rtreeAfter_wellBoxed ops Hops) Hres)
      as (d & Hin & Hd & Hlt & Hmin).
    exists d. repeat split; auto.
    apply (linearScan_agrees lon lat maxDistanceMeters d _ nearest); assumption.
  - intros st Hres.
    unfold resultOf in Hres. rewrite Grid_findNearest_run in Hres.
    simpl in Hres. injection Hres as Hres.
    apply (grid_nearest_spec lon lat maxDistanceMeters st nearest
             (gridAfter_consistent ops) Hres).
Qed.

(** ** The grid after a sequence of insertions *)

Section GridStructure.

Lemma fold_left_fmap {A B C} (f : A -> C -> A) (g : B -> C) (l : list B) (a : A) :
  fold_left f (map g l) a = fold_left (fun acc x => f acc (g x)) l a.
Proof. revert a. induction l as [|x l IH]; intros a; simpl; auto. Qed.

Lemma gridAfter_AddRoads (segments : list RoadSegment.t) :
  gridAfter (map AddRoad segments) =
  fold_left (fun st road => stateAfter (Grid.addRoad road) st) segments Grid.new.
Proof. unfold gridAfter. rewrite fold_left_fmap. reflexivity. Qed.

Lemma grid_fold_snoc (segments : list RoadSegment.t) (road : RoadSegment.t) st :
  fold_left (fun st road => stateAfter (Grid.addRoad road) st) (segments ++ [road]) st =
  stateAfter (Grid.addRoad road)
    (fold_left (fun st road => stateAfter (Grid.addRoad road) st) segments st).
Proof. rewrite fold_left_app. reflexivity. Qed.

Lemma NoDup_fmap_inj {A B} (f : A -> B) (l : list A) (x y : A) :
  NoDup (map f l) -> x ∈ l -> y ∈ l -> f x = f y -> x = y.
Proof.
  induction l as [|z l IH]; simpl; intros Hnd Hx Hy Heq.
  - inversion Hx.
  - apply NoDup_cons in Hnd as [Hz Hnd].
    apply elem_of_cons in Hx as [-> | Hx]; apply elem_of_cons in Hy as [-> | Hy]; auto.
    + exfalso. apply Hz. rewrite Heq. apply list_elem_of_fmap. eauto.
    + exfalso. apply Hz. rewrite <- Heq. apply list_elem_of_fmap. eauto.
Qed.

(** With distinct ids every inserted segment is found under its id. *)
Lemma grid_roads_get (segments : list RoadSegment.t) :
  NoDup (map RoadSegment.id segments) ->
  forall road, road ∈ segments ->
    JSMap.get (RoadSegment.id road) (Grid.roads (gridAfter (map AddRoad segments)))
      = Some road.
Proof.
  rewrite gridAfter_AddRoads.
  induction segments as [|last front IH] using rev_ind; intros Hnd road Hin.
  - inversion Hin.
  - rewrite grid_fold_snoc, Grid_addRoad_roads. unfold setRoad.
    destruct (decide (RoadSegment.id last = RoadSegment.id road)) as [Heq | Hne].
    + assert (last = road) as ->.
      { apply (NoDup_fmap_inj RoadSegment.id (front ++ [last])); auto.
        apply elem_of_app. right. left. }
      apply JSMap_get_set_eq.
    + rewrite JSMap_get_set_ne by exact Hne.
      rewrite map_app in Hnd. apply NoDup_app in Hnd as (Hnd & _ & _).
      apply IH; [exact Hnd|].
      apply elem_of_app in Hin as [Hin | Hin]; [exact Hin|].
      apply list_elem_of_singleton in Hin. congruence.
Qed.

(** A cell holds the ids of the segments whose midpoint falls in it, in
    insertion order. *)
Lemma grid_cell_content (segments : list RoadSegment.t) (key : Z * Z) :
  default [] (Grid.spatialGrid (gridAfter (map AddRoad segments)) !! key) =
  map RoadSegment.id (filter (fun road => gridKeyOf road = key) segments).
Proof.
  rewrite gridAfter_AddRoads.
  induction segments as [|last front IH] using rev_ind.
  - simpl. rewrite lookup_empty. reflexivity.
  - rewrite grid_fold_snoc, Grid_addRoad_grid. fold (gridKeyOf last).
    rewrite filter_app, map_app.
    destruct (decide (gridKeyOf last = key)) as [Heq | Hne].
    + subst key. rewrite lookup_insert_eq. simpl. rewrite IH.
      rewrite filter_cons_True by reflexivity. reflexivity.
    + rewrite lookup_insert_ne by exact Hne. rewrite IH.
      rewrite filter_cons_False by exact Hne. simpl. rewrite app_nil_r. reflexivity.
Qed.

Lemma flat_map_fmap {A B C} (f : A -> list B) (g : B -> C) (l : list A) :
  flat_map (fun x => map g (f x)) l = map g (flat_map f l).
Proof.
  induction l as [|x l IH]; simpl; [reflexivity|].
  rewrite IH, map_app. reflexivity.
Qed.

(** The candidates of a grid query are the inserted segments in scan order. *)
Lemma grid_candidates_scanOrder (lon lat : R) (segments : list RoadSegment.t) :
  NoDup (map RoadSegment.id segments) ->
  Grid.candidates lon lat (gridAfter (map AddRoad segments)) =
  map Some (scanOrder lon lat segments).
Proof.
  intros Hnd. unfold Grid.candidates, scanOrder.
  rewrite <- flat_map_fmap. apply flat_map_ext. intros dx.
  rewrite <- flat_map_fmap. apply flat_map_ext. intros dy.
  rewrite grid_cell_content. rewrite map_map.
  apply map_ext_in. intros road Hin.
  apply grid_roads_get; [exact Hnd|].
  apply list_elem_of_In in Hin. apply list_elem_of_filter in Hin as [_ Hin]. exact Hin.
Qed.

End GridStructure.

(** ** Evaluating the code at given points *)

Section Evaluation.

Lemma floor_unique (x : R) (z : Z) : IZR z <= x < IZR z + 1 -> floor x = z.
Proof.
  intros [Hlo Hhi]. unfold floor. symmetry. apply Int_part_spec. lra.
Qed.

Lemma clamp01_low (t : R) : t <= 0 -> Geometry.clamp01 t = 0.
Proof.
  intros Ht. unfold Geometry.clamp01.
  destruct (Rlt_dec t 0); [reflexivity|]. destruct (Rlt_dec 1 t); lra.
Qed.

(** The projection falls at or before the first end: the distance is the
    distance to that end. *)
Lemma pointToLineDistance_start (px py x1 y1 x2 y2 : R) :
  (x2 - x1) * (x2 - x1) + (y2 - y1) * (y2 - y1) <> 0 ->
  (px - x1) * (x2 - x1) + (py - y1) * (y2 - y1) <= 0 ->
  Geometry.pointToLineDistance px py x1 y1 x2 y2 =
    sqrt ((px - x1) * (px - x1) + (py - y1) * (py - y1)).
Proof.
  intros Hlen Hdot. unfold Geometry.pointToLineDistance.
  destruct (Req_dec_T _ 0) as [Hz|_]; [contradiction|].
  rewrite clamp01_low.
  - f_equal. ring.
  - assert (Hpos : 0 < (x2 - x1) * (x2 - x1) + (y2 - y1) * (y2 - y1)).
    { pose proof (Rle_0_sqr (x2 - x1)) as Hc. pose proof (Rle_0_sqr (y2 - y1)) as Hd.
      unfold Rsqr in Hc, Hd.
      destruct (Rtotal_order 0 ((x2 - x1) * (x2 - x1) + (y2 - y1) * (y2 - y1)))
        as [Hlt | [Heq | Hgt]]; [exact Hlt | congruence | lra]. }
    apply Rmult_le_reg_r with ((x2 - x1) * (x2 - x1) + (y2 - y1) * (y2 - y1));
      [exact Hpos|].
    unfold Rdiv. rewrite Rmult_assoc, Rinv_l by exact Hlen. lra.
Qed.

(** The distance of a two-point segment whose first end is the nearest. *)
Lemma distanceToRoad_two_points (lon lat x1 y1 x2 y2 d : R) (road : RoadSegment.t) :
  RoadSegment.positions road = [x1; y1; x2; y2] ->
  (x2 - x1) * (x2 - x1) + (y2 - y1) * (y2 - y1) <> 0 ->
  (lon - x1) * (x2 - x1) + (lat - y1) * (y2 - y1) <= 0 ->
  0 <= d -> (lon - x1) * (lon - x1) + (lat - y1) * (lat - y1) = d * d ->
  distanceIs lon lat road (d * 111320).
Proof.
  intros Hpos Hlen Hdot Hd Hsq. unfold distanceIs, Geo.distanceToRoad. rewrite Hpos.
  simpl. rewrite pointToLineDistance_start by assumption.
  rewrite Hsq, sqrt_square by exact Hd. reflexivity.
Qed.

Lemma nearest_single (lon lat maxDistanceMeters d : R) (road : RoadSegment.t) :
  distanceIs lon lat road d -> d < maxDistanceMeters ->
  Scan.nearest lon lat maxDistanceMeters [Some road] = Some road.
Proof.
  intros Hd Hlt. unfold Scan.nearest, Scan.step. simpl. rewrite Hd. simpl.
  destruct (Rlt_dec d maxDistanceMeters); [reflexivity | contradiction].
Qed.

(** Two candidates at the same distance: the first one stays. *)
Lemma nearest_tie (lon lat maxDistanceMeters d : R) (first second : RoadSegment.t) :
  distanceIs lon lat first d -> distanceIs lon lat second d -> d < maxDistanceMeters ->
  Scan.nearest lon lat maxDistanceMeters [Some first; Some second] = Some first.
Proof.
  intros H1 H2 Hlt. unfold Scan.nearest, Scan.step. simpl. rewrite H1. simpl.
  destruct (Rlt_dec d maxDistanceMeters); [|contradiction].
  simpl. rewrite H2. destruct (Rlt_dec d d); [lra | reflexivity].
Qed.

Lemma gridCall_load_state (osmData : OsmData.t) (st : Grid.RoadIndex) :
  stateAfter (gridCall (LoadFromOSM osmData)) st =
  stateAfter (Grid.loadFromOSM osmData) st.
Proof.
  unfold stateAfter, gridCall, bind, ret.
  destruct (Grid.loadFromOSM osmData st []) as [[[n|e] s'] c']; reflexivity.
Qed.

Lemma gridAfter_load (elements : list Element.t) :
  gridAfter [LoadFromOSM (OsmData.mk (Some elements))] =
  gridAfter (map AddRoad (segmentsOf Grid.fromOSMWay elements)).
Proof.
  rewrite gridAfter_AddRoads.
  transitivity (stateAfter (gridCall (LoadFromOSM (OsmData.mk (Some elements)))) Grid.new);
    [reflexivity|].
  rewrite gridCall_load_state, Grid_loadFromOSM_state. reflexivity.
Qed.

End Evaluation.

Section ScanOrderEval.

Lemma filter_by_key (segments : list RoadSegment.t) (key : Z * Z) :
  filter (fun road => gridKeyOf road = key) segments =
  map fst (filter (fun p : RoadSegment.t * (Z * Z) => snd p = key)
                  (zip segments (map gridKeyOf segments))).
Proof.
  induction segments as [|road rest IH]; [reflexivity|].
  simpl zip. rewrite !filter_cons. simpl snd.
  destruct (decide (gridKeyOf road = key)); simpl; rewrite IH; reflexivity.
Qed.

(** The scan order worked out from the cells of the segments. *)
Lemma scanOrder_eval (lon lat : R) (segments : list RoadSegment.t)
    (keys : list (Z * Z)) (cx cy : Z) :
  map gridKeyOf segments = keys ->
  floor (lon / Grid.gridSize) = cx -> floor (lat / Grid.gridSize) = cy ->
  scanOrder lon lat segments =
  flat_map (fun dx =>
    flat_map (fun dy =>
      map fst (filter (fun p : RoadSegment.t * (Z * Z) => snd p = ((cx + dx)%Z, (cy + dy)%Z))
                      (zip segments keys)))
    Grid.offsets)
  Grid.offsets.
Proof.
  intros <- <- <-. unfold scanOrder.
  apply flat_map_ext. intros dx. apply flat_map_ext. intros dy.
  apply filter_by_key.
Qed.

Lemma gridKeyOf_eval (road : RoadSegment.t) (x y : R) (gx gy : Z) :
  RoadSegment.midpoint road = (x, y) ->
  IZR gx <= x / Grid.gridSize < IZR gx + 1 ->
  IZR gy <= y / Grid.gridSize < IZR gy + 1 ->
  gridKeyOf road = (gx, gy).
Proof.
  intros Hmid Hx Hy. unfold gridKeyOf, Grid.getGridKey. rewrite Hmid. simpl.
  rewrite (floor_unique _ gx Hx), (floor_unique _ gy Hy). reflexivity.
Qed.

Lemma stored_after_AddRoads (segments : list RoadSegment.t) (road : RoadSegment.t) :
  NoDup (map RoadSegment.id segments) -> road ∈ segments ->
  road ∈ JSMap.values (Grid.roads (gridAfter (map AddRoad segments))).
Proof.
  intros Hnd Hin. pose proof (grid_roads_get segments Hnd road Hin) as Hget.
  apply JSMap_get_in in Hget. unfold JSMap.values.
  apply list_elem_of_fmap. exists (RoadSegment.id road, road). auto.
Qed.

End ScanOrderEval.

(** C1 fails as stated, on the grid.  After loading the two ways the
    query at (0, 0) with radius 30 m returns the residential way, which is
    11 m away, although the primary way, stored as well, passes through
    the point: its midpoint vertex lies a thousand cells to the east and
    the query never looks there. *)
Lemma grid_misses_long_road :
  exists roadNear roadLong,
    Grid.fromOSMWay wayNear = inr roadNear /\
    Grid.fromOSMWay wayLong = inr roadLong /\
    let st := gridAfter [LoadFromOSM (OsmData.mk (Some [wayNear; wayLong]))] in
    resultOf (Grid.findNearest 0 0 30) st = Return (Some roadNear) /\
    roadLong ∈ JSMap.values (Grid.roads st) /\
    distanceIs 0 0 roadNear (1 / 10000 * 111320) /\
    distanceIs 0 0 roadLong (0 * 111320) /\
    0 * 111320 < 1 / 10000 * 111320.
Proof.
  assert (Hn : exists r, Grid.fromOSMWay wayNear = inr r /\
                 RoadSegment.id r = "osm_way_1"%string /\
                 RoadSegment.positions r = [0; 1 / 10000; 1 / 10000; 1 / 10000] /\
                 RoadSegment.midpoint r = (1 / 10000, 1 / 10000))
    by (eexists; repeat split; reflexivity).
  assert (Hl : exists r, Grid.fromOSMWay wayLong = inr r /\
                 RoadSegment.id r = "osm_way_2"%string /\
                 RoadSegment.positions r = [0; 0; 1; 0] /\
                 RoadSegment.midpoint r = (1, 0))
    by (eexists; repeat split; reflexivity).
  destruct Hn as (roadNear & Hnear & HidN & HposN & HmidN).
  destruct Hl as (roadLong & Hlong & HidL & HposL & HmidL).
  exists roadNear, roadLong. split; [exact Hnear|]. split; [exact Hlong|].
  assert (Hsegs : segmentsOf Grid.fromOSMWay [wayNear; wayLong] = [roadNear; roadLong]).
  { rewrite !segmentsOf_cons. rewrite Hnear, Hlong. reflexivity. }
  assert (Hnd : NoDup (map RoadSegment.id [roadNear; roadLong])).
  { simpl. rewrite HidN, HidL. apply NoDup_cons. split.
    - intros Hin. apply list_elem_of_singleton in Hin. discriminate.
    - apply NoDup_singleton. }
  assert (HdN : distanceIs 0 0 roadNear (1 / 10000 * 111320)).
  { apply (distanceToRoad_two_points 0 0 0 (1 / 10000) (1 / 10000) (1 / 10000));
      [exact HposN | apply Rgt_not_eq; lra | lra | lra | lra]. }
  assert (HdL : distanceIs 0 0 roadLong (0 * 111320)).
  { apply (distanceToRoad_two_points 0 0 0 0 1 0);
      [exact HposL | apply Rgt_not_eq; lra | lra | lra | lra]. }
  intros st. subst st. rewrite gridAfter_load, Hsegs.
  split; [|split; [|split; [exact HdN | split; [exact HdL | lra]]]].
  - unfold resultOf. rewrite Grid_findNearest_run. cbn [fst].
    rewrite (grid_candidates_scanOrder 0 0 _ Hnd).
    rewrite (scanOrder_eval 0 0 [roadNear; roadLong] [(0, 0); (1000, 0)]%Z 0%Z 0%Z).
    + f_equal. apply (nearest_single 0 0 30 _ roadNear HdN). lra.
    + simpl. f_equal; [|f_equal].
      * apply (gridKeyOf_eval roadNear _ _ 0 0 HmidN); unfold Grid.gridSize; simpl; lra.
      * apply (gridKeyOf_eval roadLong _ _ 1000 0 HmidL); unfold Grid.gridSize; simpl; lra.
    + apply floor_unique. unfold Grid.gridSize. simpl. lra.
    + apply floor_unique. unfold Grid.gridSize. simpl. lra.
  - apply stored_after_AddRoads; [exact Hnd|]. right. left.
Qed.

Lemma grid_roads_fold (segments : list RoadSegment.t) :
  Grid.roads (gridAfter (map AddRoad segments)) = fold_left setRoad segments [].
Proof.
  rewrite gridAfter_AddRoads.
  assert (Hgen : forall st,
            Grid.roads (fold_left (fun st road => stateAfter (Grid.addRoad road) st)
                                  segments st)
            = fold_left setRoad segments (Grid.roads st)).
  { induction segments as [|road rest IH]; intros st; simpl; [reflexivity|].
    rewrite IH, Grid_addRoad_roads. reflexivity. }
  apply Hgen.
Qed.

(** C3 fails as stated, on the grid.  Scenario 1 with the east way loaded
    first: both ways are 20 m from the point, the radius is 25 m, and the
    query returns the west way, loaded second, because its cell is scanned
    before the cell of the east way. *)
Lemma grid_tie_goes_west :
  exists roadEast roadWest,
    Grid.fromOSMWay wayEast = inr roadEast /\
    Grid.fromOSMWay wayWest = inr roadWest /\
    let st := gridAfter [LoadFromOSM (OsmData.mk (Some [wayEast; wayWest]))] in
    JSMap.values (Grid.roads st) = [roadEast; roadWest] /\
    distanceIs 0 0 roadEast 20 /\
    distanceIs 0 0 roadWest 20 /\
    resultOf (Grid.findNearest 0 0 25) st = Return (Some roadWest) /\
    roadWest <> roadEast.
Proof.
  assert (He : exists r, Grid.fromOSMWay wayEast = inr r /\
                 RoadSegment.id r = "osm_way_1"%string /\
                 RoadSegment.positions r = [1 / 5566; 0; 1 / 5566; 1 / 10000] /\
                 RoadSegment.midpoint r = (1 / 5566, 1 / 10000))
    by (eexists; repeat split; reflexivity).
  assert (Hw : exists r, Grid.fromOSMWay wayWest = inr r /\
                 RoadSegment.id r = "osm_way_2"%string /\
                 RoadSegment.positions r = [- (1 / 5566); 0; - (1 / 5566); 1 / 10000] /\
                 RoadSegment.midpoint r = (- (1 / 5566), 1 / 10000))
    by (eexists; repeat split; reflexivity).
  destruct He as (roadEast & Heast & HidE & HposE & HmidE).
  destruct Hw as (roadWest & Hwest & HidW & HposW & HmidW).
  exists roadEast, roadWest. split; [exact Heast|]. split; [exact Hwest|].
  assert (Hsegs : segmentsOf Grid.fromOSMWay [wayEast; wayWest] = [roadEast; roadWest]).
  { rewrite !segmentsOf_cons. rewrite Heast, Hwest. reflexivity. }
  assert (Hnd : NoDup (map RoadSegment.id [roadEast; roadWest])).
  { simpl. rewrite HidE, HidW. apply NoDup_cons. split.
    - intros Hin. apply list_elem_of_singleton in Hin. discriminate.
    - apply NoDup_singleton. }
  assert (HdE : distanceIs 0 0 roadEast 20).
  { replace 20 with (1 / 5566 * 111320) by lra.
    apply (distanceToRoad_two_points 0 0 (1 / 5566) 0 (1 / 5566) (1 / 10000));
      [exact HposE | apply Rgt_not_eq; lra | lra | lra | lra]. }
  assert (HdW : distanceIs 0 0 roadWest 20).
  { replace 20 with (1 / 5566 * 111320) by lra.
    apply (distanceToRoad_two_points 0 0 (- (1 / 5566)) 0 (- (1 / 5566)) (1 / 10000));
      [exact HposW | apply Rgt_not_eq; lra | lra | lra | lra]. }
  intros st. subst st. rewrite gridAfter_load, Hsegs.
  split; [|split; [exact HdE | split; [exact HdW | split]]].
  - rewrite grid_roads_fold. simpl. unfold setRoad. simpl.
    rewrite HidE, HidW. reflexivity.
  - unfold resultOf. rewrite Grid_findNearest_run. cbn [fst].
    rewrite (grid_candidates_scanOrder 0 0 _ Hnd).
    rewrite (scanOrder_eval 0 0 [roadEast; roadWest] [(0, 0); (-1, 0)]%Z 0%Z 0%Z).
    + f_equal. apply (nearest_tie 0 0 25 20 roadWest roadEast HdW HdE). lra.
    + simpl. f_equal; [|f_equal].
      * apply (gridKeyOf_eval roadEast _ _ 0 0 HmidE); unfold Grid.gridSize; simpl; lra.
      * apply (gridKeyOf_eval roadWest _ _ (-1) 0 HmidW); unfold Grid.gridSize; simpl; lra.
    + apply floor_unique. unfold Grid.gridSize. simpl. lra.
    + apply floor_unique. unfold Grid.gridSize. simpl. lra.
  - intros Heq. rewrite Heq in HidW. rewrite HidW in HidE. discriminate.
Qed.

(** ** Ties *)

Section Ties.

Lemma app_split_cases {A} (front back pre post : list A) (a b : A) :
  front ++ a :: back = pre ++ b :: post ->
  b ∈ front \/ a = b \/ a ∈ pre.
Proof.
  revert pre. induction front as [|x front IH]; intros pre Heq.
  - destruct pre as [|p pre]; simpl in Heq; injection Heq as -> _.
    + right. left. reflexivity.
    + right. right. left.
  - destruct pre as [|p pre]; simpl in Heq; injection Heq as -> Heq.
    + left. left.
    + destruct (IH pre Heq) as [H | [H | H]].
      * left. right. exact H.
      * right. left. exact H.
      * right. right. right. exact H.
Qed.

(** Of two segments at the same least distance the scan returns the one
    it reaches first. *)
Lemma nearest_tie_reached (lon lat maxDistanceMeters d : R)
    (cands : list (option RoadSegment.t)) (a b : RoadSegment.t) :
  distanceIs lon lat a d -> distanceIs lon lat b d -> d < maxDistanceMeters ->
  (forall road x, Some road ∈ cands -> road <> a -> road <> b ->
                  distanceIs lon lat road x -> d < x) ->
  reachedBefore (Some a) (Some b) cands ->
  Scan.nearest lon lat maxDistanceMeters cands = Some a.
Proof.
  intros Ha Hb Hlt Hothers (front & back & Hc & Hfront).
  assert (Hin : Some a ∈ cands) by (rewrite Hc; apply elem_of_app; right; left).
  destruct (Scan.nearest lon lat maxDistanceMeters cands) as [s|] eqn:Hres.
  - apply nearest_Some in Hres as (pre & post & ds & Hc' & Hds & Hlt' & Hpre & Hpost).
    assert (Hle : ds <= d).
    { rewrite Hc' in Hin. apply elem_of_app in Hin as [Hin | Hin].
      - specialize (Hpre a d Hin Ha). simpl in Hpre. lra.
      - apply elem_of_cons in Hin as [[= <-] | Hin].
        + unfold distanceIs in *. rewrite Ha in Hds. injection Hds as ->. lra.
        + exact (Hpost a d Hin Ha). }
    destruct (classic (s = a)) as [-> | Hna]; [reflexivity | exfalso].
    destruct (classic (s = b)) as [-> | Hnb].
    + assert (ds = d) as -> by (unfold distanceIs in *; congruence).
      rewrite Hc in Hc'. apply app_split_cases in Hc' as [H | [H | H]].
      * contradiction.
      * injection H as ->. contradiction.
      * specialize (Hpre a d H Ha). simpl in Hpre. lra.
    + assert (Hs : Some s ∈ cands) by (rewrite Hc'; apply elem_of_app; right; left).
      specialize (Hothers s ds Hs Hna Hnb Hds). lra.
  - exfalso. apply nearest_None in Hres.
    specialize (Hres a d Hin Ha). simpl in Hres. lra.
Qed.

Lemma reachedBefore_fmap_Some {A} (a b : A) (l : list A) :
  reachedBefore a b l -> reachedBefore (Some a) (Some b) (map Some l).
Proof.
  intros (front & back & -> & Hfront).
  exists (map Some front), (map Some back). split.
  - rewrite map_app. reflexivity.
  - intros Hin. apply list_elem_of_fmap in Hin as (x & [= <-] & Hx). contradiction.
Qed.

Lemma flat_map_split {A B} (f : A -> list B) (l1 l2 : list A) (x : A) :
  flat_map f (l1 ++ x :: l2) = flat_map f l1 ++ f x ++ flat_map f l2.
Proof. rewrite flat_map_app. reflexivity. Qed.

(** In one cell the scan order is the insertion order. *)
Lemma scanOrder_same_cell (lon lat : R) (segments : list RoadSegment.t)
    (a b : RoadSegment.t) :
  inWindow lon lat a ->
  gridKeyOf a = gridKeyOf b ->
  reachedBefore a b segments ->
  reachedBefore a b (scanOrder lon lat segments).
Proof.
  intros Hwin Hkey (front & back & -> & Hfront).
  unfold inWindow in Hwin. fold (gridKeyOf a) in Hwin.
  destruct (gridKeyOf a) as [gx gy] eqn:Hka.
  unfold Grid.getGridKey in Hwin.
  unfold scanOrder.
  set (cx := floor (lon / Grid.gridSize)) in *.
  set (cy := floor (lat / Grid.gridSize)) in *.
  destruct Hwin as [Hx Hy].
  assert (Hdx : (gx - cx)%Z ∈ Grid.offsets) by (apply offsets_elem; lia).
  assert (Hdy : (gy - cy)%Z ∈ Grid.offsets) by (apply offsets_elem; lia).
  apply list_elem_of_split_l in Hdx as (O1 & O2 & HO & HO1).
  apply list_elem_of_split_l in Hdy as (P1 & P2 & HP & HP1).
  set (cell := fun dx dy : Z =>
         filter (fun road => gridKeyOf road = ((cx + dx)%Z, (cy + dy)%Z))
                (front ++ a :: back)).
  set (column := fun dx : Z => flat_map (cell dx) Grid.offsets).
  assert (Hcol : column (gx - cx)%Z =
            flat_map (cell (gx - cx)%Z) P1 ++ cell (gx - cx)%Z (gy - cy)%Z
            ++ flat_map (cell (gx - cx)%Z) P2).
  { unfold column. rewrite HP at 1. apply flat_map_split. }
  assert (Hcell : cell (gx - cx)%Z (gy - cy)%Z =
            filter (fun road => gridKeyOf road = (gx, gy)) front
            ++ a :: filter (fun road => gridKeyOf road = (gx, gy)) back).
  { unfold cell.
    replace (cx + (gx - cx))%Z with gx by lia. replace (cy + (gy - cy))%Z with gy by lia.
    rewrite filter_app, filter_cons_True by exact Hka. reflexivity. }
  exists (flat_map column O1 ++ flat_map (cell (gx - cx)%Z) P1
          ++ filter (fun road => gridKeyOf road = (gx, gy)) front),
         (filter (fun road => gridKeyOf road = (gx, gy)) back
          ++ flat_map (cell (gx - cx)%Z) P2 ++ flat_map column O2).
  split.
  - match goal with
    | |- _ = ?rhs => change (flat_map column Grid.offsets = rhs)
    end.
    rewrite HO at 1. rewrite flat_map_split, Hcol, Hcell.
    rewrite <- !app_assoc. reflexivity.
  - intros Hin. apply elem_of_app in Hin as [Hin | Hin];
      [|apply elem_of_app in Hin as [Hin | Hin]].
    + apply list_elem_of_In, in_flat_map in Hin as (dx & Hdx & Hin).
      apply in_flat_map in Hin as (dy & _ & Hin).
      apply list_elem_of_In, list_elem_of_filter in Hin as [Hk _].
      rewrite <- Hkey in Hk. injection Hk as Hgx _.
      apply HO1. apply list_elem_of_In in Hdx.
      replace (gx - cx)%Z with dx by lia. exact Hdx.
    + apply list_elem_of_In, in_flat_map in Hin as (dy & Hdy & Hin).
      apply list_elem_of_In, list_elem_of_filter in Hin as [Hk _].
      rewrite <- Hkey in Hk. injection Hk as _ Hgy.
      apply HP1. apply list_elem_of_In in Hdy.
      replace (gy - cy)%Z with dy by lia. exact Hdy.
    + apply list_elem_of_filter in Hin as [_ Hin]. contradiction.
Qed.

Lemma scanOrder_stored (lon lat : R) (segments : list RoadSegment.t) (road : RoadSegment.t) :
  road ∈ scanOrder lon lat segments -> road ∈ segments.
Proof.
  unfold scanOrder. intros Hin.
  apply list_elem_of_In, in_flat_map in Hin as (dx & _ & Hin).
  apply in_flat_map in Hin as (dy & _ & Hin).
  apply list_elem_of_In, list_elem_of_filter in Hin as [_ Hin]. exact Hin.
Qed.

End Ties.

Section RTreeStructure.

Context {T : Type} `{RBush T}.

Lemma rtreeAfter_AddRoads (segments : list RoadSegment.t) :
  rtreeAfter (T := T) (map AddRoad segments) =
  fold_left (fun st road => stateAfter (RTree.addRoad road) st) segments RTree.new.
Proof. unfold rtreeAfter. rewrite fold_left_fmap. reflexivity. Qed.

Lemma rtree_fold_snoc (segments : list RoadSegment.t) (road : RoadSegment.t)
    (st : RTree.RoadIndex T) :
  fold_left (fun st road => stateAfter (RTree.addRoad road) st) (segments ++ [road]) st =
  RTree.mk
    (setRoad (RTree.roads
                (fold_left (fun st road => stateAfter (RTree.addRoad road) st) segments st))
             road)
    (rb_insert (RTree.itemOf road)
       (RTree.spatialIndex
          (fold_left (fun st road => stateAfter (RTree.addRoad road) st) segments st)))
    (RTree.trafficData
       (fold_left (fun st road => stateAfter (RTree.addRoad road) st) segments st)).
Proof. rewrite fold_left_app. reflexivity. Qed.

Lemma rtree_roads_get (segments : list RoadSegment.t) :
  NoDup (map RoadSegment.id segments) ->
  forall road, road ∈ segments ->
    JSMap.get (RoadSegment.id road) (RTree.roads (rtreeAfter (T := T) (map AddRoad segments)))
      = Some road.
Proof.
  rewrite rtreeAfter_AddRoads.
  induction segments as [|last front IH] using rev_ind; intros Hnd road Hin.
  - inversion Hin.
  - rewrite rtree_fold_snoc. cbn [RTree.roads]. unfold setRoad.
    destruct (decide (RoadSegment.id last = RoadSegment.id road)) as [Heq | Hne].
    + assert (last = road) as ->.
      { apply (NoDup_fmap_inj RoadSegment.id (front ++ [last])); auto.
        apply elem_of_app. right. left. }
      apply JSMap_get_set_eq.
    + rewrite JSMap_get_set_ne by exact Hne.
      rewrite map_app in Hnd. apply NoDup_app in Hnd as (Hnd & _ & _).
      apply IH; [exact Hnd|].
      apply elem_of_app in Hin as [Hin | Hin]; [exact Hin|].
      apply list_elem_of_singleton in Hin. congruence.
Qed.

Lemma setRoad_values (m : JSMap.t RoadSegment.t) (road road' : RoadSegment.t) :
  road' ∈ JSMap.values (setRoad m road) -> road' = road \/ road' ∈ JSMap.values m.
Proof.
  unfold setRoad, JSMap.values.
  induction m as [|[k v] rest IH]; simpl.
  - intros Hin. apply list_elem_of_singleton in Hin. auto.
  - destruct (String.eqb (RoadSegment.id road) k); simpl; rewrite !elem_of_cons.
    + intros [-> | Hin]; auto.
    + intros [-> | Hin]; [auto|]. destruct (IH Hin); auto.
Qed.

Lemma rtree_values_inserted (segments : list RoadSegment.t) (road : RoadSegment.t) :
  road ∈ JSMap.values (RTree.roads (rtreeAfter (T := T) (map AddRoad segments))) ->
  road ∈ segments.
Proof.
  rewrite rtreeAfter_AddRoads.
  induction segments as [|last front IH] using rev_ind.
  - simpl. intros Hin. inversion Hin.
  - rewrite rtree_fold_snoc. cbn [RTree.roads].
    intros Hin. apply setRoad_values in Hin as [-> | Hin]; apply elem_of_app.
    + right. left.
    + left. auto.
Qed.

End RTreeStructure.

Section LinearScanTree.

Lemma scanTree_items (segments : list RoadSegment.t) :
  RTree.spatialIndex (rtreeAfter (T := list RTreeItem.t) (map AddRoad segments)) =
  map RTree.itemOf segments.
Proof.
  rewrite rtreeAfter_AddRoads.
  induction segments as [|last front IH] using rev_ind; [reflexivity|].
  rewrite rtree_fold_snoc. cbn [RTree.spatialIndex].
  rewrite IH, map_app. reflexivity.
Qed.

(** With the items kept in insertion order, a near segment is reached
    before every segment inserted after it. *)
Lemma scanTree_reached (lon lat maxDistanceMeters d : R)
    (segments : list RoadSegment.t) (a b : RoadSegment.t) :
  NoDup (map RoadSegment.id segments) ->
  wellBoxed a -> distanceIs lon lat a d -> d < maxDistanceMeters ->
  reachedBefore a b segments ->
  reachedBefore (Some a) (Some b)
    (RTree.candidates lon lat maxDistanceMeters
       (rtreeAfter (T := list RTreeItem.t) (map AddRoad segments))).
Proof.
  intros Hnd Hbox Hd Hlt (front & back & Hsegs & Hfront).
  pose proof (rtree_roads_get (T := list RTreeItem.t) segments Hnd) as Hget.
  unfold RTree.candidates. rewrite scanTree_items.
  set (roads := RTree.roads (rtreeAfter (map AddRoad segments))) in *.
  set (box := RTree.searchBbox lon lat maxDistanceMeters).
  change (rb_search box (map RTree.itemOf segments))
    with (filter (fun item => intersects box item = true) (map RTree.itemOf segments)).
  subst segments. rewrite map_app, filter_app. simpl map.
  rewrite filter_cons_True
    by (apply (near_road_meets_box lon lat maxDistanceMeters d a); assumption).
  rewrite map_app. simpl map.
  eexists _, _. split.
  - rewrite itemOf_roadId, Hget; [reflexivity|]. apply elem_of_app. right. left.
  - intros Hin. apply list_elem_of_fmap in Hin as (item & Hitem & Hin).
    apply list_elem_of_filter in Hin as [_ Hin].
    apply list_elem_of_fmap in Hin as (s & -> & Hs).
    rewrite itemOf_roadId, Hget in Hitem by (apply elem_of_app; left; exact Hs).
    injection Hitem as ->. contradiction.
Qed.

End LinearScanTree.

(** C3, as the code has it.  Let [a] and [b] be two inserted segments
    (ids distinct) at exactly the same distance from the point, within the
    radius, every other segment being farther.  [findNearest] returns the
    one its scan of the candidates reaches first:
    - over the grid, the one that comes first in the scan order of the
      cells; that is the earlier-inserted one when both midpoints share a
      cell;
    - over the RBush tree, the one the tree's search returns first; that
      is the earlier-inserted one when the search keeps the insertion
      order, as the linear scan does. *)
Theorem findNearest_tie (lon lat maxDistanceMeters d : R) (a b : RoadSegment.t)
    (segments : list RoadSegment.t) :
  NoDup (map RoadSegment.id segments) ->
  distanceIs lon lat a d -> distanceIs lon lat b d -> d < maxDistanceMeters ->
  (forall road x, road ∈ segments -> road <> a -> road <> b ->
                  distanceIs lon lat road x -> d < x) ->
  (reachedBefore a b (scanOrder lon lat segments) ->
   resultOf (Grid.findNearest lon lat maxDistanceMeters)
            (gridAfter (map AddRoad segments)) = Return (Some a)) /\
  (inWindow lon lat a -> gridKeyOf a = gridKeyOf b -> reachedBefore a b segments ->
   resultOf (Grid.findNearest lon lat maxDistanceMeters)
            (gridAfter (map AddRoad segments)) = Return (Some a)) /\
  (forall (T : Type) (RB : RBush T),
     reachedBefore (Some a) (Some b)
       (RTree.candidates lon lat maxDistanceMeters
          (rtreeAfter (T := T) (map AddRoad segments))) ->
     resultOf (RTree.findNearest lon lat maxDistanceMeters)
              (rtreeAfter (T := T) (map AddRoad segments)) = Return (Some a)) /\
  (wellBoxed a -> reachedBefore a b segments ->
   resultOf (RTree.findNearest lon lat maxDistanceMeters)
            (rtreeAfter (T := list RTreeItem.t) (map AddRoad segments)) = Return (Some a)).
Proof.
  intros Hnd Ha Hb Hlt Hothers.
  assert (Hgrid : reachedBefore a b (scanOrder lon lat segments) ->
            resultOf (Grid.findNearest lon lat maxDistanceMeters)
                     (gridAfter (map AddRoad segments)) = Return (Some a)).
  { intros Hreach. unfold resultOf. rewrite Grid_findNearest_run. cbn [fst].
    rewrite (grid_candidates_scanOrder lon lat segments Hnd). f_equal.
    apply (nearest_tie_reached lon lat maxDistanceMeters d _ a b); auto.
    - intros road x Hin. apply list_elem_of_fmap in Hin as (r & [= <-] & Hr).
      apply Hothers. exact (scanOrder_stored lon lat segments road Hr).
    - apply reachedBefore_fmap_Some. exact Hreach. }
  assert (Hrtree : forall (T : Type) (RB : RBush T),
            reachedBefore (Some a) (Some b)
              (RTree.candidates lon lat maxDistanceMeters
                 (rtreeAfter (T := T) (map AddRoad segments))) ->
            resultOf (RTree.findNearest lon lat maxDistanceMeters)
                     (rtreeAfter (T := T) (map AddRoad segments)) = Return (Some a)).
  { intros T RB Hreach. unfold resultOf. rewrite RTree_findNearest_run. cbn [fst]. f_equal.
    apply (nearest_tie_reached lon lat maxDistanceMeters d _ a b); auto.
    intros road x Hin. apply Hothers.
    apply (rtree_values_inserted (T := T)).
    exact (rtree_candidate_stored lon lat maxDistanceMeters _ road Hin). }
  split; [exact Hgrid|]. split; [|split; [exact Hrtree|]].
  - intros Hwin Hkey Hreach. apply Hgrid.
    apply scanOrder_same_cell; assumption.
  - intros Hbox Hreach. apply Hrtree.
    apply (scanTree_reached lon lat maxDistanceMeters d); assumption.
Qed.

Section Witnesses.

Lemma longRoad_distance : distanceIs 0 0 longRoad 0.
Proof.
  replace 0 with (0 * 111320) at 3 by lra.
  apply (distanceToRoad_two_points 0 0 0 0 1 0);
    [reflexivity | apply Rgt_not_eq; lra | lra | lra | lra].
Qed.

Lemma longRoad_found :
  resultOf (RTree.findNearest 0 0 30)
           (rtreeAfter (T := list RTreeItem.t) [AddRoad longRoad]) = Return (Some longRoad).
Proof.
  unfold resultOf. rewrite RTree_findNearest_run. cbn [fst]. f_equal.
  unfold RTree.candidates.
  change (RTree.spatialIndex (rtreeAfter [AddRoad longRoad])) with [RTree.itemOf longRoad].
  change (rb_search (RTree.searchBbox 0 0 30) [RTree.itemOf longRoad])
    with (filter (fun item => intersects (RTree.searchBbox 0 0 30) item = true)
                 [RTree.itemOf longRoad]).
  rewrite filter_cons_True.
  - apply (nearest_single 0 0 30 0 longRoad longRoad_distance). lra.
  - apply (near_road_meets_box 0 0 30 0 longRoad longRoad_boxed longRoad_distance). lra.
Qed.

Lemma eastRoad_distance : distanceIs 0 0 eastRoad 20.
Proof.
  replace 20 with (1 / 5566 * 111320) by lra.
  apply (distanceToRoad_two_points 0 0 (1 / 5566) 0 (1 / 5566) (1 / 10000));
    [reflexivity | apply Rgt_not_eq; lra | lra | lra | lra].
Qed.

Lemma westRoad_distance : distanceIs 0 0 westRoad 20.
Proof.
  replace 20 with (1 / 5566 * 111320) by lra.
  apply (distanceToRoad_two_points 0 0 (- (1 / 5566)) 0 (- (1 / 5566)) (1 / 10000));
    [reflexivity | apply Rgt_not_eq; lra | lra | lra | lra].
Qed.

Lemma east_west_ids : NoDup (map RoadSegment.id [eastRoad; westRoad]).
Proof.
  simpl. apply NoDup_cons. split.
  - intros Hin. apply list_elem_of_singleton in Hin. discriminate.
  - apply NoDup_singleton.
Qed.

Lemma east_west_only (road : RoadSegment.t) (x : R) :
  road ∈ [eastRoad; westRoad] -> road <> eastRoad -> road <> westRoad ->
  distanceIs 0 0 road x -> 20 < x.
Proof.
  intros Hin Hne Hnw _. exfalso.
  apply elem_of_cons in Hin as [-> | Hin]; [contradiction|].
  apply list_elem_of_singleton in Hin. contradiction.
Qed.

End Witnesses.

(** The hand-made segment through the point is found and is the nearest. *)
Lemma findNearest_nearest_witness :
  exists d,
    longRoad ∈ JSMap.values (RTree.roads (rtreeAfter (T := list RTreeItem.t) [AddRoad longRoad])) /\
    distanceIs 0 0 longRoad d /\ d < 30 /\
    noneNearer 0 0 d
      (JSMap.values (RTree.roads (rtreeAfter (T := list RTreeItem.t) [AddRoad longRoad]))) /\
    exists road',
      linearScan 0 0 30 (RTree.roads (rtreeAfter (T := list RTreeItem.t) [AddRoad longRoad]))
        = Some road' /\
      distanceIs 0 0 road' d.
Proof.
  apply (proj1 (findNearest_nearest 0 0 30 [AddRoad longRoad] longRoad)
               (list RTreeItem.t) scanTree).
  - constructor; [exact longRoad_boxed | constructor].
  - exact longRoad_found.
Defined.

(** Scenario 1 over the linear scan, east inserted first: east comes back. *)
Lemma findNearest_tie_witness :
  resultOf (RTree.findNearest 0 0 25)
           (rtreeAfter (T := list RTreeItem.t) (map AddRoad [eastRoad; westRoad]))
    = Return (Some eastRoad).
Proof.
  apply (proj2 (proj2 (proj2
           (findNearest_tie 0 0 25 20 eastRoad westRoad [eastRoad; westRoad]
              east_west_ids eastRoad_distance westRoad_distance
              ltac:(lra) east_west_only)))).
  - unfold wellBoxed. simpl. lra.
  - exists [], [westRoad]. split; [reflexivity|]. intros Hin. inversion Hin.
Defined.

(** ** Identifiers known to the stores *)

Section Identifiers.

Lemma rtree_ids_agree {T : Type} `{RBush T} (st : RTree.RoadIndex T) (id : string) :
  rtreeConsistent st ->
  ((exists item, item ∈ rb_all (RTree.spatialIndex st) /\ RTreeItem.roadId item = id)
   <-> id ∈ JSMap.keys (RTree.roads st)).
Proof.
  intros (_ & Hroads & Hitems). split.
  - intros (item & Hin & <-). apply JSMap_get_keys. auto.
  - intros Hin. apply JSMap_get_keys in Hin as [road Hget].
    destruct (Hroads id road Hget) as [Hid Hitem].
    exists (RTree.itemOf road). split; [exact Hitem|].
    rewrite itemOf_roadId. exact Hid.
Qed.

Lemma grid_ids_agree (st : Grid.RoadIndex) (id : string) :
  gridConsistent st ->
  ((exists key cell, Grid.spatialGrid st !! key = Some cell /\ id ∈ cell)
   <-> id ∈ JSMap.keys (Grid.roads st)).
Proof.
  intros (_ & Hroads & Hcells). split.
  - intros (key & cell & Hcell & Hin). apply JSMap_get_keys. eauto.
  - intros Hin. apply JSMap_get_keys in Hin as [road Hget].
    destruct (Hroads id road Hget) as [Hid Hcell].
    destruct (Grid.spatialGrid st !! _) as [cell|] eqn:Hk; simpl in Hcell.
    + eauto.
    + inversion Hcell.
Qed.

End Identifiers.

(** ** Signal loading *)

Section Signals.

Lemma signals_loop (elements : list Element.t) (idx : Grid.RoadIndex) :
  forall (n : nat) ve sig se (c : list logEntry),
    forOf elements n SignalManager.loadStep (SignalManager.mk ve idx sig se) c =
      (Return (n + List.length (associated idx elements))%nat,
       SignalManager.mk (ve ++ map entityFor (associated idx elements)) idx
                        (sig ++ map signalFor (associated idx elements))
                        (entitiesAfter (associated idx elements) se),
       c ++ signalLog idx elements).
Proof.
  induction elements as [|element rest IH]; intros n ve sig se c.
  - simpl. unfold ret. rewrite Nat.add_0_r, !app_nil_r. reflexivity.
  - simpl forOf. unfold bind at 1. unfold SignalManager.loadStep at 1.
    unfold associated, signalLog. simpl omap. simpl flat_map.
    fold (associated idx rest). fold (signalLog idx rest).
    destruct (SignalManager.isSignalNode element) eqn:Hnode.
    + unfold bind at 1. unfold SignalManager.onIndex, zoom.
      rewrite Grid_findNearest_run. cbn [SignalManager.roadIndex SignalManager.viewerEntities
        SignalManager.signals SignalManager.signalEntities].
      fold (nearestTo idx element).
      destruct (nearestTo idx element) as [road|] eqn:Hnear.
      * unfold bind at 1.
        change (SignalManager.addSignal (Element.lon element) (Element.lat element)
                  (Some road) (SignalManager.mk ve idx sig se) c)
          with (Return (signalFor (element, road)),
                SignalManager.mk (ve ++ [entityFor (element, road)]) idx
                  (sig ++ [signalFor (element, road)])
                  (SignalManager.setEntity (Element.lon element, Element.lat element)
                     (entityFor (element, road)) se),
                c ++ [LogAddedSignal (Some (RoadSegment.name road))]).
        unfold ret at 1. rewrite IH.
        rewrite <- !app_assoc. simpl. rewrite Nat.add_succ_r. reflexivity.
      * unfold bind at 1. unfold console at 1. unfold ret at 1.
        rewrite IH. rewrite <- !app_assoc. reflexivity.
    + unfold ret at 1. rewrite IH. reflexivity.
Qed.

Lemma signalLog_warnings (idx : Grid.RoadIndex) (elements : list Element.t) :
  List.filter isWarning (signalLog idx elements) = map warnOrphan (orphaned idx elements).
Proof.
  induction elements as [|element rest IH]; [reflexivity|].
  unfold signalLog, orphaned. simpl flat_map. simpl List.filter.
  fold (signalLog idx rest). fold (orphaned idx rest).
  rewrite List.filter_app, IH.
  destruct (SignalManager.isSignalNode element); [|reflexivity].
  destruct (nearestTo idx element); reflexivity.
Qed.

(** Loading a batch of nodes, from start to end. *)
Lemma signals_load_run (elements : list Element.t) (sm : SignalManager.t)
    (c : list logEntry) :
  let idx := SignalManager.roadIndex sm in
  let found := associated idx elements in
  SignalManager.loadFromOSM (OsmData.mk (Some elements)) sm c =
    (Return (List.length found),
     SignalManager.mk (SignalManager.viewerEntities sm ++ map entityFor found) idx
                      (SignalManager.signals sm ++ map signalFor found)
                      (entitiesAfter found (SignalManager.signalEntities sm)),
     c ++ [LogLoadingSignals] ++ signalLog idx elements
       ++ [LogLoadedSignals (List.length found)]).
Proof.
  destruct sm as [ve idx sig se]. simpl.
  unfold SignalManager.loadFromOSM. simpl OsmData.elements.
  unfold bind at 1. unfold console at 1. unfold bind at 1. rewrite signals_loop.
  unfold bind, console, ret. simpl. rewrite <- !app_assoc. reflexivity.
Qed.

End Signals.

Section SignalFacts.

Lemma flat_map_nil {A B} (f : A -> list B) (l : list A) :
  (forall x, f x = []) -> flat_map f l = [].
Proof.
  intros Hf. induction l as [|x l IH]; simpl; [reflexivity|].
  rewrite Hf, IH. reflexivity.
Qed.

Lemma candidates_new (lon lat : R) : Grid.candidates lon lat Grid.new = [].
Proof.
  unfold Grid.candidates. apply flat_map_nil. intros dx.
  apply flat_map_nil. intros dy. simpl. rewrite lookup_empty. reflexivity.
Qed.

Lemma nearestTo_new (element : Element.t) : nearestTo Grid.new element = None.
Proof. unfold nearestTo. rewrite candidates_new. reflexivity. Qed.

Lemma signals_index_kept (osmData : OsmData.t) (sm : SignalManager.t) :
  SignalManager.roadIndex (stateAfter (SignalManager.loadFromOSM osmData) sm) =
  SignalManager.roadIndex sm.
Proof.
  destruct osmData as [[elements|]]; [|reflexivity].
  unfold stateAfter. rewrite signals_load_run. reflexivity.
Qed.

Lemma associated_elem (idx : Grid.RoadIndex) (elements : list Element.t)
    (element : Element.t) (road : RoadSegment.t) :
  (element, road) ∈ associated idx elements <->
  element ∈ elements /\ SignalManager.isSignalNode element = true /\
  resultOf (Grid.findNearest (Element.lon element) (Element.lat element) 25) idx
    = Return (Some road).
Proof.
  unfold associated. rewrite list_elem_of_omap. split.
  - intros (e & Hin & Hsome).
    destruct (SignalManager.isSignalNode e) eqn:Hnode; [|discriminate].
    destruct (nearestTo idx e) as [r|] eqn:Hnear; [|discriminate].
    injection Hsome as -> ->. repeat split; auto.
    unfold resultOf. rewrite Grid_findNearest_run. simpl. f_equal. exact Hnear.
  - intros (Hin & Hnode & Hres). exists element. split; [exact Hin|].
    rewrite Hnode. unfold resultOf in Hres. rewrite Grid_findNearest_run in Hres.
    simpl in Hres. injection Hres as Hres.
    unfold nearestTo. rewrite Hres. reflexivity.
Qed.

End SignalFacts.

(** C8, as the code has it.  For every batch of nodes, the loader asks
    [findNearest] with a radius of 25 m for each traffic-signal node.  A
    node that finds a road gets a signal record carrying the road's id and
    name, appended to the manager's signals together with its entity; the
    road index, and with it the traffic-data store, is left as it was.  A
    node that finds none is written to the console as a warning and is not
    kept.  The loader returns the number of signals kept, and nothing
    about the others. *)
Theorem signals_loadFromOSM (elements : list Element.t) (sm : SignalManager.t)
    (c : list logEntry) :
  let idx := SignalManager.roadIndex sm in
  let found := associated idx elements in
  exists sm',
    SignalManager.loadFromOSM (OsmData.mk (Some elements)) sm c =
      (Return (List.length found), sm',
       c ++ [LogLoadingSignals] ++ signalLog idx elements
         ++ [LogLoadedSignals (List.length found)]) /\
    SignalManager.roadIndex sm' = idx /\
    SignalManager.signals sm' = SignalManager.signals sm ++ map signalFor found /\
    SignalManager.viewerEntities sm' =
      SignalManager.viewerEntities sm ++ map entityFor found /\
    List.filter isWarning (signalLog idx elements) = map warnOrphan (orphaned idx elements) /\
    (forall element road,
       (element, road) ∈ found <->
       element ∈ elements /\ SignalManager.isSignalNode element = true /\
       resultOf (Grid.findNearest (Element.lon element) (Element.lat element) 25) idx
         = Return (Some road)) /\
    (forall p, p ∈ found ->
       SignalManager.roadId (signalFor p) = Some (RoadSegment.id (snd p))).
Proof.
  intros idx found.
  eexists. split; [apply signals_load_run|].
  split; [reflexivity|]. split; [reflexivity|]. split; [reflexivity|].
  split; [apply signalLog_warnings|]. split.
  - intros element road. apply associated_elem.
  - intros [element road] _. reflexivity.
Qed.

(** C8 fails as stated.  With no road in the index a signal node is
    warned about and dropped: the manager is left without any signal and
    the loader returns 0, no count of orphans.  With a road 20 m away the
    signal is kept with the road's id, and the traffic-data store still
    has no entry for that road: no signal count was incremented. *)
Lemma signals_orphan_dropped :
  SignalManager.loadFromOSM (OsmData.mk (Some [signalNode "9" 0 0]))
                            (SignalManager.new Grid.new) [] =
    (Return 0%nat, SignalManager.new Grid.new,
     [LogLoadingSignals; WarnNoNearbyRoad 0 0; LogLoadedSignals 0]) /\
  exists sm',
    stateAfter (SignalManager.loadFromOSM (OsmData.mk (Some [signalNode "9" 0 0])))
               (SignalManager.new (gridAfter [AddRoad eastRoad])) = sm' /\
    map SignalManager.roadId (SignalManager.signals sm') = [Some "e"%string] /\
    Grid.trafficData (SignalManager.roadIndex sm') !! "e"%string = None.
Proof.
  split.
  - rewrite signals_load_run.
    cbn [SignalManager.roadIndex SignalManager.new SignalManager.viewerEntities
         SignalManager.signals SignalManager.signalEntities].
    assert (Hfound : associated Grid.new [signalNode "9" 0 0] = []).
    { unfold associated. simpl omap.
      change (SignalManager.isSignalNode (signalNode "9" 0 0)) with true. cbv iota.
      rewrite nearestTo_new. reflexivity. }
    assert (Hlog : signalLog Grid.new [signalNode "9" 0 0] = [WarnNoNearbyRoad 0 0]).
    { unfold signalLog. simpl flat_map.
      change (SignalManager.isSignalNode (signalNode "9" 0 0)) with true. cbv iota.
      rewrite nearestTo_new. reflexivity. }
    rewrite Hfound, Hlog. reflexivity.
  - eexists. split; [reflexivity|].
    assert (Hnear : nearestTo (gridAfter [AddRoad eastRoad]) (signalNode "9" 0 0)
                    = Some eastRoad).
    { unfold nearestTo. cbn [Element.lon Element.lat signalNode].
      assert (Hnd : NoDup (map RoadSegment.id [eastRoad]))
        by (simpl; apply NoDup_singleton).
      change [AddRoad eastRoad] with (map AddRoad [eastRoad]).
      rewrite (grid_candidates_scanOrder 0 0 [eastRoad] Hnd).
      rewrite (scanOrder_eval 0 0 [eastRoad] [(0, 0)]%Z 0%Z 0%Z).
      - apply (nearest_single 0 0 25 20 eastRoad eastRoad_distance). lra.
      - simpl. f_equal.
        apply (gridKeyOf_eval eastRoad (1 / 5566) (1 / 10000) 0 0);
          [reflexivity | unfold Grid.gridSize; simpl; lra | unfold Grid.gridSize; simpl; lra].
      - apply floor_unique. unfold Grid.gridSize. simpl. lra.
      - apply floor_unique. unfold Grid.gridSize. simpl. lra. }
    unfold stateAfter. rewrite signals_load_run.
    cbn [fst snd SignalManager.signals SignalManager.roadIndex SignalManager.new].
    unfold associated. simpl omap.
    change (SignalManager.isSignalNode (signalNode "9" 0 0)) with true. cbv iota.
    rewrite Hnear. split; [reflexivity|].
    change (gridAfter [AddRoad eastRoad]) with (stateAfter (Grid.addRoad eastRoad) Grid.new).
    rewrite Grid_addRoad_trafficData. apply lookup_empty.
Qed.

(** C9, as the code has it.  After every sequence of [addRoad],
    [loadFromOSM] and [setTrafficData] the ids held by the coarse
    structure are exactly the keys of the roads map, in both
    implementations, and each of them resolves to a segment carrying that
    id.  [setTrafficData] stores its entry under whatever id it is given
    and touches neither the roads map nor the coarse structure, so the
    traffic-data store may hold ids the roads map does not.  Signal loading
    leaves the index as it was. *)
Theorem stores_agree_on_ids (ops : list op) :
  (forall id,
     (exists key cell, Grid.spatialGrid (gridAfter ops) !! key = Some cell /\ id ∈ cell)
     <-> id ∈ JSMap.keys (Grid.roads (gridAfter ops))) /\
  (forall (T : Type) (RB : RBush T) id,
     (exists item, item ∈ rb_all (RTree.spatialIndex (rtreeAfter (T := T) ops)) /\
                   RTreeItem.roadId item = id)
     <-> id ∈ JSMap.keys (RTree.roads (rtreeAfter (T := T) ops))) /\
  (forall id, id ∈ JSMap.keys (Grid.roads (gridAfter ops)) ->
     exists road, resultOf (Grid.getRoad id) (gridAfter ops) = Return (Some road) /\
                  RoadSegment.id road = id) /\
  (forall (T : Type) (RB : RBush T) id,
     id ∈ JSMap.keys (RTree.roads (rtreeAfter (T := T) ops)) ->
     exists road, resultOf (RTree.getRoad id) (rtreeAfter (T := T) ops) = Return (Some road) /\
                  RoadSegment.id road = id) /\
  (forall roadId metrics,
     let st := gridAfter ops in
     let st' := stateAfter (Grid.setTrafficData roadId metrics) st in
     Grid.trafficData st' = <[roadId := metrics]> (Grid.trafficData st) /\
     Grid.roads st' = Grid.roads st /\ Grid.spatialGrid st' = Grid.spatialGrid st) /\
  (forall (T : Type) (RB : RBush T) roadId metrics,
     let st := rtreeAfter (T := T) ops in
     let st' := stateAfter (RTree.setTrafficData roadId metrics) st in
     RTree.trafficData st' = <[roadId := metrics]> (RTree.trafficData st) /\
     RTree.roads st' = RTree.roads st /\ RTree.spatialIndex st' = RTree.spatialIndex st) /\
  (forall osmData sm,
     SignalManager.roadIndex (stateAfter (SignalManager.loadFromOSM osmData) sm) =
     SignalManager.roadIndex sm).
Proof.
  split; [|split; [|split; [|split; [|split; [|split]]]]].
  - intros id. apply grid_ids_agree, gridAfter_consistent.
  - intros T RB id. apply rtree_ids_agree, rtreeAfter_consistent.
  - intros id Hin. apply JSMap_get_keys in Hin as [road Hget].
    exists road. split.
    + unfold resultOf, Grid.getRoad, gets. simpl. rewrite Hget. reflexivity.
    + destruct (gridAfter_consistent ops) as (_ & Hroads & _).
      exact (proj1 (Hroads id road Hget)).
  - intros T RB id Hin. apply JSMap_get_keys in Hin as [road Hget].
    exists road. split.
    + unfold resultOf, RTree.getRoad, gets. simpl. rewrite Hget. reflexivity.
    + destruct (rtreeAfter_consistent (T := T) ops) as (_ & Hroads & _).
      exact (proj1 (Hroads id road Hget)).
  - intros roadId metrics st st'. repeat split.
  - intros T RB roadId metrics st st'. repeat split.
  - apply signals_index_kept.
Qed.

(** C9 fails as stated: on a fresh index [setTrafficData] files an entry
    under an id no road has, in both implementations. *)
Lemma setTrafficData_unknown_id :
  Grid.trafficData (gridAfter [SetTrafficData "ghost" sampleMetrics]) !! "ghost"%string
    = Some sampleMetrics /\
  JSMap.get "ghost" (Grid.roads (gridAfter [SetTrafficData "ghost" sampleMetrics])) = None /\
  RTree.trafficData (rtreeAfter (T := list RTreeItem.t) [SetTrafficData "ghost" sampleMetrics])
    !! "ghost"%string = Some sampleMetrics /\
  JSMap.get "ghost"
    (RTree.roads (rtreeAfter (T := list RTreeItem.t) [SetTrafficData "ghost" sampleMetrics]))
    = None.
Proof.
  repeat split; try reflexivity; apply lookup_insert_eq.
Qed.

(** ** Queries *)

Section Queries.

Lemma fresh_array_unused (h : Caller.ArrayHeap) : h !! fresh (dom h) = None.
Proof. apply not_elem_of_dom. apply is_fresh. Qed.

Lemma fresh_array_other (h : Caller.ArrayHeap) (r : positive) (xs : list RoadSegment.t) :
  h !! r = Some xs -> r <> fresh (dom h).
Proof.
  intros Hr ->. rewrite fresh_array_unused in Hr. discriminate.
Qed.

End Queries.

(** C10.  On every state of the index of roadIndex.ts the five queries
    return without throwing and leave the roads map, the tree, the
    traffic-data map and the console as they were; the same holds for the
    queries of the grid index.  [getAllRoads] hands out a new array: its
    reference is one no array had, it holds the stored segments in
    insertion order, and whatever the caller does to it changes neither
    the index nor any array handed out before, so a later [getAllRoads]
    returns the same segments. *)
Theorem queries_leave_index (T : Type) (RB : RBush T) (st : RTree.RoadIndex T)
    (gst : Grid.RoadIndex) (c : list logEntry) (lon lat maxDistanceMeters : R)
    (id roadId : string) (heap : Caller.ArrayHeap) :
  (exists r, RTree.findNearest lon lat maxDistanceMeters st c = (Return r, st, c)) /\
  (exists r, RTree.getRoad id st c = (Return r, st, c)) /\
  RTree.getAllRoads st c = (Return (JSMap.values (RTree.roads st)), st, c) /\
  (exists r, RTree.getTrafficData roadId st c = (Return r, st, c)) /\
  (exists r, RTree.getStats st c = (Return r, st, c)) /\
  (exists r, Grid.findNearest lon lat maxDistanceMeters gst c = (Return r, gst, c)) /\
  (exists r, Grid.getRoad id gst c = (Return r, gst, c)) /\
  Grid.getAllRoads gst c = (Return (JSMap.values (Grid.roads gst)), gst, c) /\
  (exists r, Grid.getTrafficData roadId gst c = (Return r, gst, c)) /\
  (exists r, Grid.getStats gst c = (Return r, gst, c)) /\
  (let '(ref, w) := Caller.getAllRoads (Caller.mkWorld st heap) in
   heap !! ref = None /\
   Caller.index w = st /\
   Caller.arrays w !! ref = Some (JSMap.values (RTree.roads st)) /\
   forall change,
     let w' := Caller.mutateArray ref change w in
     Caller.index w' = st /\
     (forall r xs, heap !! r = Some xs -> Caller.arrays w' !! r = Some xs) /\
     RTree.getAllRoads (Caller.index w') c = (Return (JSMap.values (RTree.roads st)), st, c)).
Proof.
  repeat (split; [first [reflexivity | eexists; reflexivity]|]).
  unfold Caller.getAllRoads, Caller.arrayFrom, RTree.getAllRoads, gets.
  cbn [Caller.index Caller.arrays].
  split; [apply fresh_array_unused|]. split; [reflexivity|].
  split; [apply lookup_insert_eq|].
  intros change. unfold Caller.mutateArray. cbn [Caller.index Caller.arrays].
  split; [reflexivity|]. split; [|reflexivity].
  intros r xs Hr. pose proof (fresh_array_other heap r xs Hr) as Hne.
  rewrite lookup_alter_ne by congruence.
  rewrite lookup_insert_ne by congruence. exact Hr.
Qed.

(** ** Synthetic PCI *)

Section Synthetic.

Variable toISODate : R -> string.

Lemma floor_bounds (x : R) : IZR (floor x) <= x < IZR (floor x) + 1.
Proof.
  unfold floor. destruct (base_Int_part x) as [Hlo Hhi]. lra.
Qed.

(** Rounding a value of [lo, hi], whole bounds, gives a whole number of
    [lo, hi]. *)
Lemma round_bounds (x : R) (lo hi : Z) :
  IZR lo <= x -> x < IZR hi + 1 / 2 ->
  IZR lo <= PCIJoiner.round x <= IZR hi.
Proof.
  intros Hlo Hhi. unfold PCIJoiner.round.
  destruct (floor_bounds (x + 1 / 2)) as [Hf1 Hf2].
  set (z := floor (x + 1 / 2)) in *.
  split; apply IZR_le.
  - assert (Hlt : IZR (lo - 1) < IZR z) by (rewrite minus_IZR; lra).
    apply lt_IZR in Hlt. lia.
  - assert (Hlt : IZR z < IZR (hi + 1)) by (rewrite plus_IZR; lra).
    apply lt_IZR in Hlt. lia.
Qed.

Lemma basePCIOf_cases (kind : string) :
  PCIJoiner.basePCIOf kind = 80 \/ PCIJoiner.basePCIOf kind = 65 \/
  PCIJoiner.basePCIOf kind = 75.
Proof.
  unfold PCIJoiner.basePCIOf.
  destruct (String.eqb kind "trunk" || String.eqb kind "primary"); [auto|].
  destruct (String.eqb kind "residential" || String.eqb kind "service"); auto.
Qed.

(** The clamp of [generateSyntheticPCI] never bites: base plus jitter is
    already within [40, 95]. *)
Lemma finalPCI_unclamped (kind : string) (r : R) :
  0 <= r < 1 ->
  Rmax 40 (Rmin 95 (PCIJoiner.basePCIOf kind + (r - 1 / 2) * 20)) =
  PCIJoiner.basePCIOf kind + (r - 1 / 2) * 20.
Proof.
  intros Hr.
  destruct (basePCIOf_cases kind) as [-> | [-> | ->]];
    (rewrite Rmin_right by lra; rewrite Rmax_right by lra; reflexivity).
Qed.

Lemma generateSyntheticPCI_run (road : RoadSegment.t) (rt : PCIJoiner.Runtime)
    (c : list logEntry) :
  exists lastInspection surface,
    PCIJoiner.generateSyntheticPCI toISODate road rt c =
      (Return (PCIJoiner.mkSynthetic
                 (PCIJoiner.round
                    (Rmax 40 (Rmin 95 (PCIJoiner.basePCIOf (RoadSegment.kind road)
                                       + (PCIJoiner.draws rt 0 - 1 / 2) * 20))))
                 (PCIJoiner.getPCICategory
                    (Some (Fin (Rmax 40 (Rmin 95 (PCIJoiner.basePCIOf (RoadSegment.kind road)
                                                 + (PCIJoiner.draws rt 0 - 1 / 2) * 20))))))
                 lastInspection surface true),
       PCIJoiner.mkRuntime (fun n => PCIJoiner.draws rt (S (S (S n)))) (PCIJoiner.clock rt),
       c).
Proof.
  exists (toISODate
            (PCIJoiner.clock rt - 365 * 24 * 60 * 60 * 1000
             + PCIJoiner.draws rt 1
               * (PCIJoiner.clock rt - (PCIJoiner.clock rt - 365 * 24 * 60 * 60 * 1000)))),
         (if Rlt_dec (3 / 10) (PCIJoiner.draws rt 2) then "Asphalt" else "Concrete")%string.
  reflexivity.
Qed.

Lemma drawsInUnit_shift (rt : PCIJoiner.Runtime) :
  drawsInUnit rt ->
  drawsInUnit (PCIJoiner.mkRuntime (fun n => PCIJoiner.draws rt (S (S (S n))))
                                   (PCIJoiner.clock rt)).
Proof. intros Hrt n. apply Hrt. Qed.

Lemma filled_props (m : gmap string jsval) (pci condition lastInspection surface : jsval) :
  let m' := <["pciSynthetic"%string := VBool true]>
            (<["pciSurface"%string := surface]>
             (<["pciLastInspection"%string := lastInspection]>
              (<["pciCondition"%string := condition]>
               (<["pci"%string := pci]> m)))) in
  prop m' "pci" = pci /\ prop m' "pciSynthetic" = VBool true.
Proof.
  intros m'. subst m'. unfold prop. split.
  - rewrite !lookup_insert_ne by (intros Heq; discriminate Heq).
    rewrite lookup_insert_eq. reflexivity.
  - rewrite lookup_insert_eq. reflexivity.
Qed.

(** The fill of one road that lacks a PCI value. *)
Lemma fill_one (road : RoadSegment.t) (r : R) (condition lastInspection surface : string) :
  0 <= r < 1 ->
  syntheticFilled road
    (RoadSegment.setMetadata road
       (<["pciSynthetic"%string := VBool true]>
        (<["pciSurface"%string := VString surface]>
         (<["pciLastInspection"%string := VString lastInspection]>
          (<["pciCondition"%string := VString condition]>
           (<["pci"%string :=
                VNumber (Fin (PCIJoiner.round
                                (Rmax 40 (Rmin 95 (PCIJoiner.basePCIOf (RoadSegment.kind road)
                                                   + (r - 1 / 2) * 20)))))]>
            (PCIJoiner.metadataOrEmpty road))))))).
Proof.
  intros Hr. rewrite (finalPCI_unclamped _ r Hr).
  set (base := PCIJoiner.basePCIOf (RoadSegment.kind road)).
  eexists _, ((r - 1 / 2) * 20), (floor (base + (r - 1 / 2) * 20 + 1 / 2)).
  split; [reflexivity|]. split; [lra|]. split; [reflexivity|].
  split; [apply filled_props|].
  fold (PCIJoiner.round (base + (r - 1 / 2) * 20)).
  assert (Hb : base = 80 \/ base = 65 \/ base = 75) by apply basePCIOf_cases.
  split; [|split; [|apply filled_props]].
  - destruct Hb as [Hb | [Hb | Hb]]; rewrite Hb;
      apply (round_bounds _ 40 95); lra.
  - change (PCIJoiner.basePCIOf (RoadSegment.kind road)) with base.
    destruct Hb as [Hb | [Hb | Hb]]; rewrite Hb.
    + pose proof (round_bounds (80 + (r - 1 / 2) * 20) 70 90 ltac:(lra) ltac:(lra)). lra.
    + pose proof (round_bounds (65 + (r - 1 / 2) * 20) 55 75 ltac:(lra) ltac:(lra)). lra.
    + pose proof (round_bounds (75 + (r - 1 / 2) * 20) 65 85 ltac:(lra) ltac:(lra)). lra.
Qed.

Lemma fill_loop (roads : list RoadSegment.t) :
  forall (done : list RoadSegment.t) (count : nat) (rt : PCIJoiner.Runtime)
         (c : list logEntry),
    drawsInUnit rt ->
    exists roads' rt',
      forOf roads (done, count) (PCIJoiner.fillStep toISODate) rt c =
        (Return (done ++ roads',
                 (count + List.length (List.filter PCIJoiner.lacksPCI roads))%nat),
         rt', c) /\
      Forall2 fillOutcome roads roads'.
Proof.
  induction roads as [|road rest IH]; intros done count rt c Hrt.
  - exists [], rt. simpl. unfold ret. rewrite app_nil_r, Nat.add_0_r. split; [reflexivity|].
    constructor.
  - simpl forOf. unfold bind at 1. simpl List.filter.
    destruct (PCIJoiner.lacksPCI road) eqn:Hlacks.
    + unfold bind at 1.
      destruct (generateSyntheticPCI_run road rt c) as (lastInspection & surface & Hgen).
      rewrite Hgen. unfold ret at 1.
      cbn [PCIJoiner.synPci PCIJoiner.synCondition PCIJoiner.synLastInspection
           PCIJoiner.synSurface].
      match goal with
      | |- context [forOf rest (done ++ [?filled], S count)] =>
          destruct (IH (done ++ [filled]) (S count) _ c (drawsInUnit_shift rt Hrt))
            as (roads' & rt' & Hrun & Hall);
          exists (filled :: roads'), rt'
      end.
      rewrite Hrun. split.
      * rewrite <- app_assoc. simpl. rewrite Nat.add_succ_r. reflexivity.
      * constructor; [|exact Hall].
        unfold fillOutcome. rewrite Hlacks. apply fill_one. apply Hrt.
    + unfold ret at 1.
      destruct (IH (done ++ [road]) count rt c Hrt) as (roads' & rt' & Hrun & Hall).
      exists (road :: roads'), rt'. rewrite Hrun. split.
      * rewrite <- app_assoc. reflexivity.
      * constructor; [|exact Hall]. unfold fillOutcome. rewrite Hlacks. reflexivity.
Qed.

(** The method around its loop: one console line before, one after. *)
Lemma ensureAllRoadsHavePCI_run (roads : list RoadSegment.t) (rt rt' : PCIJoiner.Runtime)
    (c c' : list logEntry) (filled : list RoadSegment.t * nat) :
  forOf roads ([], 0%nat) (PCIJoiner.fillStep toISODate) rt (c ++ [LogEnsuringPCI]) =
    (Return filled, rt', c') ->
  PCIJoiner.ensureAllRoadsHavePCI toISODate roads rt c =
    (Return filled, rt', c' ++ [LogGeneratedSynthetic (snd filled)]).
Proof.
  intros Hloop. unfold PCIJoiner.ensureAllRoadsHavePCI.
  unfold bind at 1, console at 1. unfold bind at 1. rewrite Hloop.
  reflexivity.
Qed.

End Synthetic.




(** * Further properties of the code *)

(** ** What an index holds after a sequence of operations *)

Section IndexContents.

Lemma setRoad_get (id : string) (segments : list RoadSegment.t) :
  forall m,
    JSMap.get id (fold_left setRoad segments m) =
    match lastWithId id segments with
    | Some segment => Some segment
    | None => JSMap.get id m
    end.
Proof.
  unfold lastWithId, withId.
  induction segments as [|segment rest IH]; intros m; [reflexivity|].
  simpl fold_left. rewrite IH.
  destruct (decide (RoadSegment.id segment = id)) as [Heq | Hne].
  - rewrite filter_cons_True by exact Heq. rewrite last_cons.
    destruct (last _); [reflexivity|].
    unfold setRoad. rewrite Heq. apply JSMap_get_set_eq.
  - rewrite filter_cons_False by exact Hne.
    destruct (last _); [reflexivity|].
    unfold setRoad. apply JSMap_get_set_ne. exact Hne.
Qed.

Lemma setRoad_keys (m : JSMap.t RoadSegment.t) (road : RoadSegment.t) :
  JSMap.keys (setRoad m road) =
  if decide (RoadSegment.id road ∈ JSMap.keys m) then JSMap.keys m
  else JSMap.keys m ++ [RoadSegment.id road].
Proof.
  unfold setRoad. induction m as [|[k v] rest IH]; simpl.
  - reflexivity.
  - destruct (String.eqb_spec (RoadSegment.id road) k) as [->|Hne]; simpl.
    + rewrite decide_True by left. reflexivity.
    + rewrite IH.
      destruct (decide (RoadSegment.id road ∈ JSMap.keys rest)) as [Hin|Hout].
      * rewrite decide_True by (right; exact Hin). reflexivity.
      * rewrite decide_False; [reflexivity|].
        intros Hin. apply elem_of_cons in Hin as [Heq|Hin]; contradiction.
Qed.

Lemma firstSeen_snoc (ids : list string) (id : string) :
  firstSeen (ids ++ [id]) =
  if decide (id ∈ ids) then firstSeen ids else firstSeen ids ++ [id].
Proof.
  unfold firstSeen. rewrite reverse_snoc. simpl remove_dups.
  destruct (decide_rel elem_of id (reverse ids)) as [Hin|Hout].
  - rewrite decide_True by (apply elem_of_reverse; exact Hin). reflexivity.
  - rewrite decide_False by (rewrite <- elem_of_reverse; exact Hout).
    rewrite reverse_cons. reflexivity.
Qed.

Lemma firstSeen_elem (ids : list string) (id : string) :
  id ∈ firstSeen ids <-> id ∈ ids.
Proof.
  unfold firstSeen. rewrite elem_of_reverse, elem_of_remove_dups, elem_of_reverse.
  reflexivity.
Qed.

Lemma firstSeen_NoDup (ids : list string) : NoDup (firstSeen ids).
Proof. unfold firstSeen. rewrite reverse_Permutation. apply NoDup_remove_dups. Qed.

Lemma setRoad_fold_keys (segments : list RoadSegment.t) :
  JSMap.keys (fold_left setRoad segments []) = firstSeen (map RoadSegment.id segments).
Proof.
  induction segments as [|segment front IH] using rev_ind; [reflexivity|].
  rewrite fold_left_app. simpl. rewrite setRoad_keys, IH, map_app. simpl.
  rewrite firstSeen_snoc.
  destruct (decide (RoadSegment.id segment ∈ firstSeen (map RoadSegment.id front)))
    as [Hin|Hout].
  - rewrite decide_True by (apply firstSeen_elem; exact Hin). reflexivity.
  - rewrite decide_False by (rewrite <- firstSeen_elem; exact Hout). reflexivity.
Qed.

(** The state of the grid index after a run of operations, field by
    field. *)
Lemma grid_addAll (segments : list RoadSegment.t) :
  forall st,
    fold_left (fun s road => stateAfter (Grid.addRoad road) s) segments st =
    Grid.mk (fold_left setRoad segments (Grid.roads st))
            (Grid.trafficData st)
            (fold_left fileUnder segments (Grid.spatialGrid st)).
Proof.
  induction segments as [|segment rest IH]; intros st; simpl.
  - destruct st; reflexivity.
  - rewrite IH, Grid_addRoad_roads, Grid_addRoad_trafficData, Grid_addRoad_grid.
    reflexivity.
Qed.

Lemma grid_run (ops : list op) :
  forall st,
    fold_left (fun st o => stateAfter (gridCall o) st) ops st =
    Grid.mk (fold_left setRoad (addedBy Grid.fromOSMWay ops) (Grid.roads st))
            (fold_left setMetric (metricsSet ops) (Grid.trafficData st))
            (fold_left fileUnder (addedBy Grid.fromOSMWay ops) (Grid.spatialGrid st)).
Proof.
  induction ops as [|o rest IH]; intros st.
  - destruct st; reflexivity.
  - simpl fold_left. rewrite IH.
    destruct o as [segment | osmData | roadId metrics].
    + simpl gridCall. rewrite Grid_addRoad_roads, Grid_addRoad_trafficData, Grid_addRoad_grid.
      reflexivity.
    + rewrite gridCall_load_state, Grid_loadFromOSM_state.
      unfold addedBy, metricsSet. simpl flat_map. rewrite !fold_left_app.
      destruct (OsmData.elements osmData) as [elements|]; simpl default.
      * rewrite grid_addAll. reflexivity.
      * reflexivity.
    + reflexivity.
Qed.

Lemma gridAfter_fields (ops : list op) :
  gridAfter ops =
  Grid.mk (fold_left setRoad (addedBy Grid.fromOSMWay ops) [])
          (fold_left setMetric (metricsSet ops) ∅)
          (fold_left fileUnder (addedBy Grid.fromOSMWay ops) ∅).
Proof. unfold gridAfter. rewrite grid_run. reflexivity. Qed.

Context {T : Type} `{RBush T}.

Lemma rtree_addAll (segments : list RoadSegment.t) :
  forall st : RTree.RoadIndex T,
    fold_left (fun s road => stateAfter (RTree.addRoad road) s) segments st =
    RTree.mk (fold_left setRoad segments (RTree.roads st))
             (fold_left (fun tree road => rb_insert (RTree.itemOf road) tree) segments
                        (RTree.spatialIndex st))
             (RTree.trafficData st).
Proof.
  induction segments as [|segment rest IH]; intros st; simpl.
  - destruct st; reflexivity.
  - rewrite IH, RTree_addRoad_state. reflexivity.
Qed.

Lemma rtree_run (ops : list op) :
  forall st : RTree.RoadIndex T,
    fold_left (fun st o => stateAfter (rtreeCall o) st) ops st =
    RTree.mk (fold_left setRoad (addedBy RTree.fromOSMWay ops) (RTree.roads st))
             (fold_left (fun tree road => rb_insert (RTree.itemOf road) tree)
                        (addedBy RTree.fromOSMWay ops) (RTree.spatialIndex st))
             (fold_left setMetric (metricsSet ops) (RTree.trafficData st)).
Proof.
  induction ops as [|o rest IH]; intros st.
  - destruct st; reflexivity.
  - simpl fold_left. rewrite IH.
    destruct o as [segment | osmData | roadId metrics].
    + simpl rtreeCall. rewrite RTree_addRoad_state. reflexivity.
    + simpl rtreeCall. rewrite RTree_loadFromOSM_state.
      unfold addedBy, metricsSet. simpl flat_map. rewrite !fold_left_app.
      destruct (OsmData.elements osmData) as [elements|]; simpl default.
      * rewrite rtree_addAll. reflexivity.
      * reflexivity.
    + reflexivity.
Qed.

Lemma rtreeAfter_fields (ops : list op) :
  rtreeAfter (T := T) ops =
  RTree.mk (fold_left setRoad (addedBy RTree.fromOSMWay ops) [])
           (fold_left (fun tree road => rb_insert (RTree.itemOf road) tree)
                      (addedBy RTree.fromOSMWay ops) rb_new)
           (fold_left setMetric (metricsSet ops) ∅).
Proof. unfold rtreeAfter. rewrite rtree_run. reflexivity. Qed.

Lemma rtree_items (segments : list RoadSegment.t) :
  forall tree : T,
    rb_all (fold_left (fun tree road => rb_insert (RTree.itemOf road) tree) segments tree)
    ≡ₚ rb_all tree ++ map RTree.itemOf segments.
Proof.
  induction segments as [|segment rest IH]; intros tree; simpl.
  - rewrite app_nil_r. reflexivity.
  - rewrite IH, rb_all_insert. simpl. apply Permutation_middle.
Qed.

End IndexContents.

Section TrafficStore.

Lemma setMetric_lookup (roadId : string) (ms : list (string * TrafficMetrics.t)) :
  forall data,
    fold_left setMetric ms data !! roadId =
    match last (filter (fun p => fst p = roadId) ms) with
    | Some p => Some (snd p)
    | None => data !! roadId
    end.
Proof.
  induction ms as [|[k v] rest IH]; intros data; [reflexivity|].
  simpl fold_left. rewrite IH.
  destruct (decide (k = roadId)) as [Heq | Hne].
  - rewrite filter_cons_True by exact Heq. rewrite last_cons.
    destruct (last _); [reflexivity|].
    unfold setMetric. simpl. rewrite Heq. apply lookup_insert_eq.
  - rewrite filter_cons_False by exact Hne.
    destruct (last _); [reflexivity|].
    unfold setMetric. simpl. apply lookup_insert_ne. exact Hne.
Qed.

Lemma setMetric_dom (ms : list (string * TrafficMetrics.t)) :
  forall data,
    dom (fold_left setMetric ms data) = dom data ∪ list_to_set (map fst ms).
Proof.
  induction ms as [|[k v] rest IH]; intros data; simpl.
  - apply set_eq. intros x. rewrite elem_of_union, elem_of_empty. tauto.
  - rewrite IH. unfold setMetric. simpl. rewrite dom_insert_L.
    apply set_eq. intros x. rewrite !elem_of_union. tauto.
Qed.

End TrafficStore.

Section StoredRoads.

Lemma JSMap_set_elem {V} (k : string) (v : V) (m : JSMap.t V) (p : string * V) :
  p ∈ JSMap.set k v m -> p = (k, v) \/ p ∈ m.
Proof.
  induction m as [|[k' v'] rest IH]; simpl.
  - intros Hin. apply list_elem_of_singleton in Hin. auto.
  - destruct (String.eqb k k').
    + rewrite !elem_of_cons. tauto.
    + rewrite !elem_of_cons. intros [Hp | Hin]; [auto|].
      destruct (IH Hin); auto.
Qed.

(** Every segment sits in the roads map under its own id. *)
Lemma setRoad_fold_own (segments : list RoadSegment.t) :
  forall k road, (k, road) ∈ fold_left setRoad segments [] -> RoadSegment.id road = k.
Proof.
  induction segments as [|segment front IH] using rev_ind; intros k road Hin.
  - inversion Hin.
  - rewrite fold_left_app in Hin. simpl in Hin.
    apply JSMap_set_elem in Hin as [[= -> ->] | Hin]; [reflexivity|].
    apply IH. exact Hin.
Qed.

Lemma setRoad_fold_NoDup (segments : list RoadSegment.t) :
  NoDup (JSMap.keys (fold_left setRoad segments [])).
Proof. rewrite setRoad_fold_keys. apply firstSeen_NoDup. Qed.

Lemma own_keys_ids (m : JSMap.t RoadSegment.t) :
  (forall k road, (k, road) ∈ m -> RoadSegment.id road = k) ->
  map RoadSegment.id (JSMap.values m) = JSMap.keys m.
Proof.
  induction m as [|[k v] rest IH]; intros Hown; [reflexivity|].
  simpl. rewrite (Hown k v) by left. f_equal.
  apply IH. intros k' road Hin. apply Hown. right. exact Hin.
Qed.

(** What [getAllRoads] returns for a roads map built by [addRoad]. *)
Lemma stored_roads (segments : list RoadSegment.t) :
  let roads := JSMap.values (fold_left setRoad segments []) in
  map RoadSegment.id roads = firstSeen (map RoadSegment.id segments) /\
  forall road, road ∈ roads <-> lastWithId (RoadSegment.id road) segments = Some road.
Proof.
  intros roads. subst roads. split.
  - rewrite own_keys_ids by apply setRoad_fold_own. apply setRoad_fold_keys.
  - intros road.
    rewrite (JSMap_values_get road _ (setRoad_fold_NoDup segments)). split.
    + intros [k Hget].
      pose proof (setRoad_fold_own segments k road (JSMap_get_in _ _ _ Hget)) as Hid.
      subst k. rewrite setRoad_get in Hget.
      destruct (lastWithId _ segments); [exact Hget | discriminate].
    + intros Hlast. exists (RoadSegment.id road). rewrite setRoad_get, Hlast. reflexivity.
Qed.

Lemma remove_dups_length (ids : list string) :
  (List.length (remove_dups ids) <= List.length ids)%nat /\
  (List.length (remove_dups ids) = List.length ids <-> NoDup ids).
Proof.
  induction ids as [|id rest [IHle IHeq]]; simpl.
  - split; [lia|]. split; [constructor | reflexivity].
  - destruct (decide_rel elem_of id rest) as [Hin|Hout]; simpl.
    + split; [lia|]. split; [lia|].
      intros Hnd. apply NoDup_cons in Hnd as [Hout _]. contradiction.
    + split; [lia|]. rewrite NoDup_cons. split.
      * intros Hlen. split; [exact Hout|]. apply IHeq. lia.
      * intros [_ Hnd]. f_equal. apply IHeq. exact Hnd.
Qed.

Lemma firstSeen_length (ids : list string) :
  (List.length (firstSeen ids) <= List.length ids)%nat /\
  (List.length (firstSeen ids) = List.length ids <-> NoDup ids).
Proof.
  unfold firstSeen. rewrite length_reverse.
  destruct (remove_dups_length (reverse ids)) as [Hle Heq].
  rewrite length_reverse in Hle, Heq. split; [exact Hle|].
  rewrite Heq. split; intros Hnd.
  - rewrite <- (reverse_involutive ids). rewrite reverse_Permutation. exact Hnd.
  - rewrite reverse_Permutation. exact Hnd.
Qed.

Lemma fileUnder_fold_cell (segments : list RoadSegment.t) (key : Z * Z) :
  forall grid,
    default [] (fold_left fileUnder segments grid !! key) =
    default [] (grid !! key)
      ++ map RoadSegment.id (filter (fun road => gridKeyOf road = key) segments).
Proof.
  induction segments as [|segment rest IH]; intros grid.
  - simpl. rewrite app_nil_r. reflexivity.
  - simpl fold_left. rewrite IH. unfold fileUnder.
    destruct (decide (gridKeyOf segment = key)) as [Heq | Hne].
    + rewrite filter_cons_True by exact Heq. subst key.
      rewrite lookup_insert_eq. simpl. rewrite <- app_assoc. reflexivity.
    + rewrite filter_cons_False by exact Hne.
      rewrite lookup_insert_ne by exact Hne. reflexivity.
Qed.

End StoredRoads.

(** X1.  After any sequence of [addRoad], [loadFromOSM] and
    [setTrafficData], [getRoad(id)] returns the segment most recently
    handed to [addRoad] under that id, by the caller or by a loader, and
    the not-found value ([undefined] in trafficSystem.js, [null] in
    roadIndex.ts) when there was none. *)
Theorem getRoad_last_added (ops : list op) (id : string) :
  resultOf (Grid.getRoad id) (gridAfter ops) =
    Return (lastWithId id (addedBy Grid.fromOSMWay ops)) /\
  forall (T : Type) (RB : RBush T),
    resultOf (RTree.getRoad id) (rtreeAfter (T := T) ops) =
      Return (lastWithId id (addedBy RTree.fromOSMWay ops)).
Proof.
  split.
  - unfold resultOf, Grid.getRoad, gets. simpl. rewrite gridAfter_fields. simpl.
    rewrite setRoad_get. destruct (lastWithId _ _); reflexivity.
  - intros T RB. unfold resultOf, RTree.getRoad, gets. simpl.
    rewrite rtreeAfter_fields. simpl.
    rewrite setRoad_get. destruct (lastWithId _ _); reflexivity.
Qed.

(** X2.  After any sequence of operations [getAllRoads()] returns one
    segment per id, in the order in which the ids were first added, and
    each of them is the segment most recently added under its id: adding
    an id again replaces the segment and keeps its place. *)
Theorem getAllRoads_contents (ops : list op) :
  (let added := addedBy Grid.fromOSMWay ops in
   exists roads,
     resultOf Grid.getAllRoads (gridAfter ops) = Return roads /\
     map RoadSegment.id roads = firstSeen (map RoadSegment.id added) /\
     forall road, road ∈ roads <-> lastWithId (RoadSegment.id road) added = Some road) /\
  (forall (T : Type) (RB : RBush T),
     let added := addedBy RTree.fromOSMWay ops in
     exists roads,
       resultOf RTree.getAllRoads (rtreeAfter (T := T) ops) = Return roads /\
       map RoadSegment.id roads = firstSeen (map RoadSegment.id added) /\
       forall road, road ∈ roads <-> lastWithId (RoadSegment.id road) added = Some road).
Proof.
  split.
  - intros added. eexists. split.
    + unfold resultOf, Grid.getAllRoads, gets. simpl. rewrite gridAfter_fields. reflexivity.
    + apply stored_roads.
  - intros T RB added. eexists. split.
    + unfold resultOf, RTree.getAllRoads, gets. simpl. rewrite rtreeAfter_fields.
      reflexivity.
    + apply stored_roads.
Qed.

(** X3.  After any sequence of operations [getStats()] reports as
    [roadCount] the number of distinct ids added and as
    [trafficDataCount] the number of distinct ids given to
    [setTrafficData]; in roadIndex.ts [indexSize] is the number of calls of
    [addRoad], an id added twice being counted twice.  So
    [roadCount <= indexSize], with equality exactly when no id was added
    twice. *)
Theorem getStats_counts (ops : list op) :
  resultOf Grid.getStats (gridAfter ops) =
    Return (Grid.mkStats
              (List.length (firstSeen (map RoadSegment.id (addedBy Grid.fromOSMWay ops))))
              (size (list_to_set (map fst (metricsSet ops)) : gset string))) /\
  forall (T : Type) (RB : RBush T),
    let added := addedBy RTree.fromOSMWay ops in
    exists stats,
      resultOf RTree.getStats (rtreeAfter (T := T) ops) = Return stats /\
      RTree.roadCount stats = List.length (firstSeen (map RoadSegment.id added)) /\
      RTree.indexSize stats = List.length added /\
      RTree.trafficDataCount stats =
        size (list_to_set (map fst (metricsSet ops)) : gset string) /\
      (RTree.roadCount stats <= RTree.indexSize stats)%nat /\
      (RTree.roadCount stats = RTree.indexSize stats <-> NoDup (map RoadSegment.id added)).
Proof.
  assert (Hsize : forall ms,
            size (fold_left setMetric ms (∅ : gmap string TrafficMetrics.t)) =
            size (list_to_set (map fst ms) : gset string)).
  { intros ms. rewrite <- size_dom, setMetric_dom, dom_empty_L, union_empty_l_L.
    reflexivity. }
  split.
  - unfold resultOf, Grid.getStats, gets. simpl. rewrite gridAfter_fields. simpl.
    unfold JSMap.size. rewrite <- (length_map fst). fold (JSMap.keys (V := RoadSegment.t)).
    change (map fst (fold_left setRoad ?l [])) with (JSMap.keys (fold_left setRoad l [])).
    rewrite setRoad_fold_keys, Hsize. reflexivity.
  - intros T RB added. eexists. split; [reflexivity|].
    rewrite rtreeAfter_fields. cbn [RTree.roadCount RTree.indexSize RTree.trafficDataCount
                                    RTree.roads RTree.spatialIndex RTree.trafficData].
    fold added.
    assert (Hroads : JSMap.size (fold_left setRoad added []) =
                     List.length (firstSeen (map RoadSegment.id added))).
    { unfold JSMap.size. rewrite <- (length_map fst).
      change (map fst (fold_left setRoad added [])) with (JSMap.keys (fold_left setRoad added [])).
      rewrite setRoad_fold_keys. reflexivity. }
    assert (Hitems : List.length
                       (rb_all (fold_left (fun tree road => rb_insert (RTree.itemOf road) tree)
                                          added rb_new)) = List.length added).
    { rewrite rtree_items, rb_all_new. simpl. apply length_map. }
    rewrite Hroads, Hitems, Hsize.
    destruct (firstSeen_length (map RoadSegment.id added)) as [Hle Heq].
    rewrite length_map in Hle, Heq. auto.
Qed.

(** X4.  After any sequence of operations [getTrafficData(roadId)]
    returns the metrics most recently given to [setTrafficData] for that
    id, and the not-found value when there were none; adding and loading
    roads never touches the traffic data. *)
Theorem getTrafficData_last_set (ops : list op) (roadId : string) :
  resultOf (Grid.getTrafficData roadId) (gridAfter ops) = Return (lastMetrics roadId ops) /\
  forall (T : Type) (RB : RBush T),
    resultOf (RTree.getTrafficData roadId) (rtreeAfter (T := T) ops) =
      Return (lastMetrics roadId ops).
Proof.
  unfold lastMetrics. split.
  - unfold resultOf, Grid.getTrafficData, gets. simpl. rewrite gridAfter_fields. simpl.
    rewrite setMetric_lookup, lookup_empty. destruct (last _); reflexivity.
  - intros T RB. unfold resultOf, RTree.getTrafficData, gets. simpl.
    rewrite rtreeAfter_fields. simpl.
    rewrite setMetric_lookup, lookup_empty. destruct (last _); reflexivity.
Qed.

(** X5.  The spatial structures only grow.  After any sequence of
    operations a cell of the grid lists, in the order of the calls, the id
    of every segment added with its midpoint in that cell, once per call of
    [addRoad]; and the RBush tree holds one item per call of [addRoad].
    An id added again is filed again, the earlier entry staying where it
    was. *)
Theorem spatial_structure_contents (ops : list op) :
  (forall key,
     default [] (Grid.spatialGrid (gridAfter ops) !! key) =
     map RoadSegment.id
         (filter (fun road => gridKeyOf road = key) (addedBy Grid.fromOSMWay ops))) /\
  (forall (T : Type) (RB : RBush T),
     rb_all (RTree.spatialIndex (rtreeAfter (T := T) ops))
     ≡ₚ map RTree.itemOf (addedBy RTree.fromOSMWay ops)).
Proof.
  split.
  - intros key. rewrite gridAfter_fields. simpl.
    rewrite fileUnder_fold_cell, lookup_empty. reflexivity.
  - intros T RB. rewrite rtreeAfter_fields. simpl.
    rewrite rtree_items, rb_all_new. reflexivity.
Qed.

(** ** Loading, from the first line to the last *)

Section LoadRuns.

Lemma Grid_load_run (elements : list Element.t) (st : Grid.RoadIndex) (c : list logEntry) :
  exists c',
    Grid.loadFromOSM (OsmData.mk (Some elements)) st c =
      (Return (List.length (List.filter loadable elements)),
       fold_left (fun s road => stateAfter (Grid.addRoad road) s)
                 (segmentsOf Grid.fromOSMWay elements) st,
       c ++ c').
Proof.
  destruct (Grid_load_loop elements 0 st (c ++ [LogLoadingRoads])) as (c' & Hrun & _).
  exists ([LogLoadingRoads] ++ c'
            ++ [LogLoadedRoads (List.length (List.filter loadable elements))]).
  unfold Grid.loadFromOSM. simpl OsmData.elements.
  unfold bind at 1. unfold console at 1. unfold bind at 1. rewrite Hrun.
  unfold bind, console, ret. simpl. rewrite <- !app_assoc. reflexivity.
Qed.

Lemma RTree_load_run {T : Type} `{RBush T} (elements : list Element.t)
    (st : RTree.RoadIndex T) (c : list logEntry) :
  exists c',
    RTree.loadFromOSM (OsmData.mk (Some elements)) st c =
      (Return tt,
       fold_left (fun s road => stateAfter (RTree.addRoad road) s)
                 (segmentsOf RTree.fromOSMWay elements) st,
       c ++ c').
Proof.
  destruct (RTree_load_loop elements 0 st (c ++ [LogLoadingRoads])) as (c' & Hrun & _).
  exists ([LogLoadingRoads] ++ c'
            ++ [LogLoadedRoads (List.length (List.filter loadable elements))]).
  unfold RTree.loadFromOSM. simpl OsmData.elements.
  unfold bind at 1. unfold console at 1. unfold bind at 1. rewrite Hrun.
  unfold console. simpl. rewrite <- !app_assoc. reflexivity.
Qed.

Lemma segmentsOf_app fromWay (front back : list Element.t) :
  segmentsOf fromWay (front ++ back) = segmentsOf fromWay front ++ segmentsOf fromWay back.
Proof.
  unfold segmentsOf. rewrite List.filter_app, omap_app. reflexivity.
Qed.

End LoadRuns.

(** X6.  The road loaders throw in one case only: when the data has no
    [elements].  They then throw [Invalid OSM data format] after their
    first console line and leave the index as it was; with [elements]
    present they return, whatever the elements hold.  The signal loader
    has no such guard: without [elements] it fails on the [for ... of]
    over [undefined], after its first console line, the manager left as it
    was. *)
Theorem loaders_throw_without_elements :
  (forall (st : Grid.RoadIndex) (c : list logEntry),
     Grid.loadFromOSM (OsmData.mk None) st c =
       (Throw "Invalid OSM data format", st, c ++ [LogLoadingRoads])) /\
  (forall (elements : list Element.t) (st : Grid.RoadIndex) (c : list logEntry),
     exists roadCount st' c',
       Grid.loadFromOSM (OsmData.mk (Some elements)) st c = (Return roadCount, st', c')) /\
  (forall (T : Type) (RB : RBush T) (st : RTree.RoadIndex T) (c : list logEntry),
     RTree.loadFromOSM (OsmData.mk None) st c =
       (Throw "Invalid OSM data format", st, c ++ [LogLoadingRoads])) /\
  (forall (T : Type) (RB : RBush T) (elements : list Element.t)
          (st : RTree.RoadIndex T) (c : list logEntry),
     exists st' c',
       RTree.loadFromOSM (OsmData.mk (Some elements)) st c = (Return tt, st', c')) /\
  (forall (sm : SignalManager.t) (c : list logEntry),
     exists error,
       SignalManager.loadFromOSM (OsmData.mk None) sm c =
         (Throw error, sm, c ++ [LogLoadingSignals])).
Proof.
  repeat split.
  - intros elements st c. destruct (Grid_load_run elements st c) as (c' & Hrun). eauto.
  - intros T RB elements st c. destruct (RTree_load_run elements st c) as (c' & Hrun). eauto.
  - intros sm c. eexists. reflexivity.
Qed.

(** X7.  Loading a batch in two parts is loading it in one: the index
    ends in the same state, and the counts the grid loader returns add
    up. *)
Theorem loadFromOSM_in_parts (front back : list Element.t) :
  (forall st : Grid.RoadIndex,
     exists countFront countBack,
       let st' := stateAfter (Grid.loadFromOSM (OsmData.mk (Some front))) st in
       resultOf (Grid.loadFromOSM (OsmData.mk (Some front))) st = Return countFront /\
       resultOf (Grid.loadFromOSM (OsmData.mk (Some back))) st' = Return countBack /\
       resultOf (Grid.loadFromOSM (OsmData.mk (Some (front ++ back)))) st =
         Return (countFront + countBack)%nat /\
       stateAfter (Grid.loadFromOSM (OsmData.mk (Some (front ++ back)))) st =
         stateAfter (Grid.loadFromOSM (OsmData.mk (Some back))) st') /\
  (forall (T : Type) (RB : RBush T) (st : RTree.RoadIndex T),
     stateAfter (RTree.loadFromOSM (OsmData.mk (Some (front ++ back)))) st =
     stateAfter (RTree.loadFromOSM (OsmData.mk (Some back)))
                (stateAfter (RTree.loadFromOSM (OsmData.mk (Some front))) st)).
Proof.
  split.
  - intros st.
    exists (List.length (List.filter loadable front)),
           (List.length (List.filter loadable back)).
    cbv zeta. rewrite !Grid_loadFromOSM_state. cbn [OsmData.elements]. cbv iota.
    unfold resultOf.
    destruct (Grid_load_run front st []) as (c1 & ->).
    destruct (Grid_load_run back
                (fold_left (fun s road => stateAfter (Grid.addRoad road) s)
                           (segmentsOf Grid.fromOSMWay front) st) []) as (c2 & ->).
    destruct (Grid_load_run (front ++ back) st []) as (c3 & ->).
    simpl. rewrite List.filter_app, length_app, segmentsOf_app, fold_left_app.
    auto.
  - intros T RB st. rewrite !RTree_loadFromOSM_state. cbn [OsmData.elements].
    cbv iota. rewrite segmentsOf_app, fold_left_app. reflexivity.
Qed.

(** ** The segment built from a way *)

Section BuiltSegment.

(** Each bound of the scanned box is the start value or a coordinate of a
    point. *)
Lemma scanBBox_attained (rest : list Point.t) :
  forall minLon minLat maxLon maxLat,
    let '(minLon', minLat', maxLon', maxLat') :=
      fold_left
        (fun '(minLon, minLat, maxLon, maxLat) point =>
           (Rmin minLon (Point.lon point), Rmin minLat (Point.lat point),
            Rmax maxLon (Point.lon point), Rmax maxLat (Point.lat point)))
        rest (minLon, minLat, maxLon, maxLat) in
    (minLon' = minLon \/ exists p, p ∈ rest /\ Point.lon p = minLon') /\
    (minLat' = minLat \/ exists p, p ∈ rest /\ Point.lat p = minLat') /\
    (maxLon' = maxLon \/ exists p, p ∈ rest /\ Point.lon p = maxLon') /\
    (maxLat' = maxLat \/ exists p, p ∈ rest /\ Point.lat p = maxLat').
Proof.
  induction rest as [|q rest IH]; intros minLon minLat maxLon maxLat.
  - simpl. auto.
  - simpl fold_left.
    specialize (IH (Rmin minLon (Point.lon q)) (Rmin minLat (Point.lat q))
                   (Rmax maxLon (Point.lon q)) (Rmax maxLat (Point.lat q))).
    destruct (fold_left _ rest _) as [[[a b] c] d].
    destruct IH as (Ha & Hb & Hc & Hd).
    assert (Hlater : forall (f : Point.t -> R) v,
              (exists p, p ∈ rest /\ f p = v) -> exists p, p ∈ q :: rest /\ f p = v).
    { intros f v (p & Hin & Hp). exists p. split; [right; exact Hin | exact Hp]. }
    assert (Hq : forall (f : Point.t -> R), exists p, p ∈ q :: rest /\ f p = f q).
    { intros f. exists q. split; [left | reflexivity]. }
    repeat split.
    + destruct Ha as [-> | Ha]; [|right; apply Hlater; exact Ha].
      unfold Rmin. destruct (Rle_dec minLon (Point.lon q)); [left; reflexivity|].
      right. apply (Hq Point.lon).
    + destruct Hb as [-> | Hb]; [|right; apply Hlater; exact Hb].
      unfold Rmin. destruct (Rle_dec minLat (Point.lat q)); [left; reflexivity|].
      right. apply (Hq Point.lat).
    + destruct Hc as [-> | Hc]; [|right; apply Hlater; exact Hc].
      unfold Rmax. destruct (Rle_dec maxLon (Point.lon q)); [|left; reflexivity].
      right. apply (Hq Point.lon).
    + destruct Hd as [-> | Hd]; [|right; apply Hlater; exact Hd].
      unfold Rmax. destruct (Rle_dec maxLat (Point.lat q)); [|left; reflexivity].
      right. apply (Hq Point.lat).
Qed.

Lemma nameOf_nonempty (tags : gmap string string) : Build.nameOf tags <> ""%string.
Proof.
  unfold Build.nameOf.
  destruct (truthyTag tags "name") as [s|] eqn:Hname.
  - apply truthyTag_Some in Hname. tauto.
  - destruct (truthyTag tags "ref") as [s|] eqn:Href.
    + apply truthyTag_Some in Href. tauto.
    + discriminate.
Qed.

Lemma kindOf_nonempty (tags : gmap string string) : Build.kindOf tags <> ""%string.
Proof.
  unfold Build.kindOf.
  destruct (truthyTag tags "highway") as [s|] eqn:Hk; simpl.
  - apply truthyTag_Some in Hk. tauto.
  - discriminate.
Qed.

End BuiltSegment.

(** X8.  For a way with two points or more the box of the segment is the
    least box around the points: every point lies within it and each of
    its four bounds is the coordinate of some point; in both
    [fromOSMWay]. *)
Theorem fromOSMWay_bbox_tight (way : Element.t) (geometry : list Point.t) :
  Element.geometry way = Some geometry ->
  (2 <= List.length geometry)%nat ->
  exists segTs segJs minLon minLat maxLon maxLat,
    RTree.fromOSMWay way = inr segTs /\
    Grid.fromOSMWay way = inr segJs /\
    RoadSegment.bbox segTs = (minLon, minLat, maxLon, maxLat) /\
    RoadSegment.bbox segJs = (minLon, minLat, maxLon, maxLat) /\
    (forall p, p ∈ geometry ->
       minLon <= Point.lon p <= maxLon /\ minLat <= Point.lat p <= maxLat) /\
    (exists p, p ∈ geometry /\ Point.lon p = minLon) /\
    (exists p, p ∈ geometry /\ Point.lat p = minLat) /\
    (exists p, p ∈ geometry /\ Point.lon p = maxLon) /\
    (exists p, p ∈ geometry /\ Point.lat p = maxLat).
Proof.
  intros Hg Hlen.
  destruct (fromOSMWay_ok RTree.mkMetadata way geometry Hg Hlen) as (first & rest & -> & HTs).
  destruct (fromOSMWay_ok Grid.mkMetadata way (first :: rest) Hg Hlen)
    as (first' & rest' & [= <- <-] & HJs).
  pose proof (scanBBox_fold rest
                (Point.lon first, Point.lat first, Point.lon first, Point.lat first))
    as [Hmono Hall].
  pose proof (scanBBox_attained rest (Point.lon first) (Point.lat first)
                (Point.lon first) (Point.lat first)) as Hatt.
  fold (Build.scanBBox first rest) in Hmono, Hall, Hatt.
  destruct (Build.scanBBox first rest) as [[[minLon minLat] maxLon] maxLat] eqn:Hbox.
  eexists _, _, minLon, minLat, maxLon, maxLat.
  split; [exact HTs|]. split; [exact HJs|].
  split; [reflexivity|]. split; [reflexivity|].
  assert (Hfirst : forall (f : Point.t -> R) v,
            v = f first \/ (exists p, p ∈ rest /\ f p = v) ->
            exists p, p ∈ first :: rest /\ f p = v).
  { intros f v [-> | (p & Hin & Hp)].
    - exists first. split; [left | reflexivity].
    - exists p. split; [right; exact Hin | exact Hp]. }
  destruct Hatt as (Ha & Hb & Hc & Hd).
  split; [|repeat split; [apply (Hfirst Point.lon) | apply (Hfirst Point.lat)
                         | apply (Hfirst Point.lon) | apply (Hfirst Point.lat)]; assumption].
  intros p Hin. apply elem_of_cons in Hin as [-> | Hin].
  - apply (Hmono first). simpl. lra.
  - rewrite Forall_forall in Hall. apply (Hall p). exact Hin.
Qed.

(** A way of three points. *)
Lemma fromOSMWay_bbox_tight_witness :
  exists segTs segJs minLon minLat maxLon maxLat,
    RTree.fromOSMWay (residentialWay "3" [Point.mk 0 1; Point.mk 2 0; Point.mk 1 3])
      = inr segTs /\
    Grid.fromOSMWay (residentialWay "3" [Point.mk 0 1; Point.mk 2 0; Point.mk 1 3])
      = inr segJs /\
    RoadSegment.bbox segTs = (minLon, minLat, maxLon, maxLat) /\
    RoadSegment.bbox segJs = (minLon, minLat, maxLon, maxLat) /\
    (forall p, p ∈ [Point.mk 0 1; Point.mk 2 0; Point.mk 1 3] ->
       minLon <= Point.lon p <= maxLon /\ minLat <= Point.lat p <= maxLat) /\
    (exists p, p ∈ [Point.mk 0 1; Point.mk 2 0; Point.mk 1 3] /\ Point.lon p = minLon) /\
    (exists p, p ∈ [Point.mk 0 1; Point.mk 2 0; Point.mk 1 3] /\ Point.lat p = minLat) /\
    (exists p, p ∈ [Point.mk 0 1; Point.mk 2 0; Point.mk 1 3] /\ Point.lon p = maxLon) /\
    (exists p, p ∈ [Point.mk 0 1; Point.mk 2 0; Point.mk 1 3] /\ Point.lat p = maxLat).
Proof.
  apply (fromOSMWay_bbox_tight
           (residentialWay "3" [Point.mk 0 1; Point.mk 2 0; Point.mk 1 3])
           [Point.mk 0 1; Point.mk 2 0; Point.mk 1 3]).
  - reflexivity.
  - simpl. lia.
Defined.

(** X9.  A segment built from a way carries the id [osm_way_] followed by
    the way's id, a name and a kind that are never empty, and two
    positions per point.  For a way the loaders take, the kind is the
    [highway] tag; for a way without tags the name is [Unnamed road] and
    the kind [unknown]. *)
Theorem fromOSMWay_labels (way : Element.t) (geometry : list Point.t) :
  Element.geometry way = Some geometry ->
  (2 <= List.length geometry)%nat ->
  exists segTs segJs,
    RTree.fromOSMWay way = inr segTs /\
    Grid.fromOSMWay way = inr segJs /\
    forall seg, seg = segTs \/ seg = segJs ->
      RoadSegment.id seg = ("osm_way_" ++ Element.id way)%string /\
      RoadSegment.name seg <> ""%string /\
      RoadSegment.kind seg <> ""%string /\
      List.length (RoadSegment.positions seg) = (2 * List.length geometry)%nat /\
      (isRoadWay way = true ->
       exists tags, Element.tags way = Some tags /\
                    tags !! "highway"%string = Some (RoadSegment.kind seg)) /\
      (Element.tags way = None ->
       RoadSegment.name seg = "Unnamed road"%string /\
       RoadSegment.kind seg = "unknown"%string).
Proof.
  intros Hg Hlen.
  destruct (fromOSMWay_ok RTree.mkMetadata way geometry Hg Hlen) as (first & rest & -> & HTs).
  destruct (fromOSMWay_ok Grid.mkMetadata way (first :: rest) Hg Hlen)
    as (first' & rest' & [= <- <-] & HJs).
  eexists _, _. split; [exact HTs|]. split; [exact HJs|].
  assert (Hkind : isRoadWay way = true ->
            exists tags, Element.tags way = Some tags /\
                         tags !! "highway"%string
                         = Some (Build.kindOf (default ∅ (Element.tags way)))).
  { unfold isRoadWay. intros Hway.
    apply andb_prop in Hway as [Hway _]. apply andb_prop in Hway as [_ Htags].
    destruct (Element.tags way) as [tags|]; [|discriminate].
    exists tags. split; [reflexivity|]. simpl.
    apply bool_decide_eq_true in Htags as [s Hs].
    unfold Build.kindOf. rewrite Hs. simpl. apply truthyTag_Some in Hs. tauto. }
  assert (Hnone : Element.tags way = None ->
            Build.nameOf (default ∅ (Element.tags way)) = "Unnamed road"%string /\
            Build.kindOf (default ∅ (Element.tags way)) = "unknown"%string).
  { intros ->. split; reflexivity. }
  intros seg [-> | ->]; cbn [RoadSegment.id RoadSegment.name RoadSegment.kind
                             RoadSegment.positions];
    (split; [reflexivity|]); (split; [apply nameOf_nonempty|]);
    (split; [apply kindOf_nonempty|]); (split; [apply flatten_length|]);
    (split; [exact Hkind | exact Hnone]).
Qed.

(** A residential way of two points: [Unnamed residential]. *)
Lemma fromOSMWay_labels_witness :
  exists segTs segJs,
    RTree.fromOSMWay (residentialWay "7" twoPoints) = inr segTs /\
    Grid.fromOSMWay (residentialWay "7" twoPoints) = inr segJs /\
    forall seg, seg = segTs \/ seg = segJs ->
      RoadSegment.id seg = ("osm_way_" ++ "7")%string /\
      RoadSegment.name seg <> ""%string /\
      RoadSegment.kind seg <> ""%string /\
      List.length (RoadSegment.positions seg) = (2 * List.length twoPoints)%nat /\
      (isRoadWay (residentialWay "7" twoPoints) = true ->
       exists tags, Element.tags (residentialWay "7" twoPoints) = Some tags /\
                    tags !! "highway"%string = Some (RoadSegment.kind seg)) /\
      (Element.tags (residentialWay "7" twoPoints) = None ->
       RoadSegment.name seg = "Unnamed road"%string /\
       RoadSegment.kind seg = "unknown"%string).
Proof.
  apply (fromOSMWay_labels (residentialWay "7" twoPoints) twoPoints).
  - reflexivity.
  - simpl. lia.
Defined.

(** ** Distances *)

Section Haversine.

(** Over the reals the quantity [a] stays in [0, 1]. *)
Lemma haversineA_bounds (lon1 lat1 lon2 lat2 : R) :
  0 <= haversineA lon1 lat1 lon2 lat2 <= 1.
Proof.
  unfold haversineA.
  set (u := lat1 * PI / 180). set (v := lat2 * PI / 180).
  replace ((lat2 - lat1) * PI / 180 / 2) with ((v - u) / 2) by (unfold u, v; field).
  set (h := (v - u) / 2). set (k := (lon2 - lon1) * PI / 180 / 2).
  pose proof (cos_minus v u) as Hminus. pose proof (cos_plus v u) as Hplus.
  pose proof (cos_2a_sin h) as Hdouble.
  replace (2 * h) with (v - u) in Hdouble by (unfold h; field).
  pose proof (COS_bound (v + u)) as Hsum.
  pose proof (SIN_bound h) as Hh. pose proof (SIN_bound k) as Hk.
  set (s := sin h) in *. set (t := sin k) in *.
  set (p := cos u * cos v) in *.
  assert (Hp : - (s * s) <= p <= 1 - s * s).
  { unfold p. split; nra. }
  replace (p * t * t) with (p * (t * t)) by ring.
  assert (Ht : 0 <= t * t <= 1) by nra.
  assert (Hs : 0 <= s * s <= 1) by nra.
  split; nra.
Qed.

Lemma atan2_quadrant (y x : R) : 0 <= y -> 0 <= x -> 0 <= Geo.atan2 y x <= PI / 2.
Proof.
  intros Hy Hx. unfold Geo.atan2. pose proof PI_RGT_0 as Hpi.
  destruct (Rlt_dec 0 x) as [Hpos|Hnpos].
  - pose proof (atan_bound (y / x)) as Hb.
    split; [|lra].
    destruct (Req_dec y 0) as [-> | Hne].
    + unfold Rdiv. rewrite Rmult_0_l, atan_0. lra.
    + rewrite <- atan_0. apply Rlt_le, atan_increasing.
      apply Rdiv_lt_0_compat; lra.
  - destruct (Rlt_dec x 0); [lra|].
    destruct (Rlt_dec 0 y); [lra|].
    destruct (Rlt_dec y 0); lra.
Qed.

Lemma haversine_bounds (lon1 lat1 lon2 lat2 : R) :
  0 <= Geo.haversine lon1 lat1 lon2 lat2 <= 6371000 * PI.
Proof.
  unfold Geo.haversine. cbv zeta.
  fold (haversineA lon1 lat1 lon2 lat2).
  pose proof (atan2_quadrant (sqrt (haversineA lon1 lat1 lon2 lat2))
                (sqrt (1 - haversineA lon1 lat1 lon2 lat2))
                (sqrt_pos _) (sqrt_pos _)) as Hq.
  pose proof PI_RGT_0. nra.
Qed.

(** Half an angle of at most 60 degrees has a sine of at most one
    half. *)
Lemma sin_half_of_60 (d : R) :
  Rabs d <= 60 -> sin (d * PI / 180 / 2) * sin (d * PI / 180 / 2) <= 1 / 4.
Proof.
  intros Hd. pose proof PI_RGT_0 as Hpi.
  assert (Hr : - 60 <= d <= 60).
  { unfold Rabs in Hd. destruct (Rcase_abs d); lra. }
  set (x := d * PI / 180 / 2).
  assert (Hx : - (PI / 6) <= x <= PI / 6) by (unfold x; split; nra).
  assert (Hup : sin x <= 1 / 2).
  { rewrite <- sin_PI6. apply sin_incr_1; lra. }
  assert (Hlow : - (1 / 2) <= sin x).
  { rewrite <- sin_PI6, <- sin_neg. apply sin_incr_1; lra. }
  nra.
Qed.

Lemma haversineA_near (lon1 lat1 lon2 lat2 : R) :
  Rabs (lat2 - lat1) <= 60 -> Rabs (lon2 - lon1) <= 60 ->
  0 <= haversineA lon1 lat1 lon2 lat2 <= 1 / 2.
Proof.
  intros Hlat Hlon. split; [apply haversineA_bounds|].
  unfold haversineA. cbv zeta.
  pose proof (sin_half_of_60 _ Hlat) as Hs. pose proof (sin_half_of_60 _ Hlon) as Ht.
  pose proof (COS_bound (lat1 * PI / 180)) as Hc1.
  pose proof (COS_bound (lat2 * PI / 180)) as Hc2.
  set (s := sin ((lat2 - lat1) * PI / 180 / 2)) in *.
  set (u := sin ((lon2 - lon1) * PI / 180 / 2)) in *.
  set (c1 := cos (lat1 * PI / 180)) in *. set (c2 := cos (lat2 * PI / 180)) in *.
  assert (Hp : c1 * c2 <= 1) by nra.
  assert (Hu : 0 <= u * u) by nra.
  replace (c1 * c2 * u * u) with (c1 * c2 * (u * u)) by ring.
  nra.
Qed.

(** Below one half the distance stays within a quarter of the
    circumference. *)
Lemma haversine_near (lon1 lat1 lon2 lat2 : R) :
  Rabs (lat2 - lat1) <= 60 -> Rabs (lon2 - lon1) <= 60 ->
  0 <= Geo.haversine lon1 lat1 lon2 lat2 <= 6371000 * PI / 2.
Proof.
  intros Hlat Hlon. split; [apply haversine_bounds|].
  pose proof (haversineA_near lon1 lat1 lon2 lat2 Hlat Hlon) as [Ha0 Ha].
  unfold Geo.haversine. cbv zeta. fold (haversineA lon1 lat1 lon2 lat2).
  set (a := haversineA lon1 lat1 lon2 lat2) in *.
  pose proof PI_RGT_0 as Hpi.
  assert (Hx : 0 < sqrt (1 - a)) by (apply sqrt_lt_R0; lra).
  assert (Hyx : sqrt a <= sqrt (1 - a)) by (apply sqrt_le_1_alt; lra).
  assert (Hy : 0 <= sqrt a) by apply sqrt_pos.
  assert (Hq : Geo.atan2 (sqrt a) (sqrt (1 - a)) <= PI / 4).
  { unfold Geo.atan2. destruct (Rlt_dec 0 (sqrt (1 - a))); [|lra].
    rewrite <- atan_1.
    assert (Hratio : sqrt a / sqrt (1 - a) <= 1).
    { apply (Rmult_le_reg_r (sqrt (1 - a))); [exact Hx|].
      unfold Rdiv. rewrite Rmult_assoc, Rinv_l by lra. lra. }
    destruct Hratio as [Hlt | ->]; [apply Rlt_le, atan_increasing; exact Hlt | lra]. }
  lra.
Qed.

Lemma haversine_same (lon lat : R) : Geo.haversine lon lat lon lat = 0.
Proof.
  unfold Geo.haversine. cbv zeta.
  replace ((lat - lat) * PI / 180 / 2) with 0 by field.
  replace ((lon - lon) * PI / 180 / 2) with 0 by field.
  rewrite sin_0.
  replace (0 * 0 + cos (lat * PI / 180) * cos (lat * PI / 180) * 0 * 0) with 0 by ring.
  rewrite Rminus_0_r, sqrt_0, sqrt_1.
  unfold Geo.atan2. destruct (Rlt_dec 0 1); [|lra].
  unfold Rdiv. rewrite Rmult_0_l, atan_0. ring.
Qed.

Lemma haversine_sym (lon1 lat1 lon2 lat2 : R) :
  Geo.haversine lon1 lat1 lon2 lat2 = Geo.haversine lon2 lat2 lon1 lat1.
Proof.
  assert (Ha : haversineA lon1 lat1 lon2 lat2 = haversineA lon2 lat2 lon1 lat1).
  { unfold haversineA. cbv zeta.
    replace ((lat1 - lat2) * PI / 180 / 2) with (- ((lat2 - lat1) * PI / 180 / 2)) by field.
    replace ((lon1 - lon2) * PI / 180 / 2) with (- ((lon2 - lon1) * PI / 180 / 2)) by field.
    rewrite !sin_neg. ring. }
  unfold Geo.haversine. cbv zeta.
  fold (haversineA lon1 lat1 lon2 lat2). fold (haversineA lon2 lat2 lon1 lat1).
  rewrite Ha. reflexivity.
Qed.

Lemma polylineLength_near (geometry : list Point.t) :
  stepsWithin 60 geometry ->
  forall len,
    len <= Geo.polylineLength (Build.flatten geometry) len
        <= len + INR (List.length geometry - 1) * (6371000 * PI / 2).
Proof.
  pose proof PI_RGT_0 as Hpi.
  induction geometry as [|p rest IH]; intros Hsteps len.
  - simpl. lra.
  - destruct rest as [|q rest].
    + simpl. lra.
    + destruct Hsteps as [[Hlat Hlon] Hrest].
      change (Geo.polylineLength (Build.flatten (p :: q :: rest)) len)
        with (Geo.polylineLength (Build.flatten (q :: rest))
                (len + Geo.haversine (Point.lon p) (Point.lat p) (Point.lon q) (Point.lat q))).
      specialize (IH Hrest (len + Geo.haversine (Point.lon p) (Point.lat p)
                                                (Point.lon q) (Point.lat q))).
      pose proof (haversine_near (Point.lon p) (Point.lat p) (Point.lon q) (Point.lat q)
                    Hlat Hlon) as Hh.
      replace (List.length (p :: q :: rest) - 1)%nat
        with (S (List.length (q :: rest) - 1))%nat by (simpl; lia).
      rewrite S_INR. nra.
Qed.

Lemma polylineLength_still (p : Point.t) (geometry : list Point.t) :
  Forall (fun q => q = p) geometry ->
  forall len, Geo.polylineLength (Build.flatten geometry) len = len.
Proof.
  induction 1 as [|q rest -> Hrest IH]; intros len; [reflexivity|].
  destruct Hrest as [|q' rest' -> Hrest']; [reflexivity|].
  change (Geo.polylineLength (Build.flatten (p :: p :: rest')) len)
    with (Geo.polylineLength (Build.flatten (p :: rest'))
            (len + Geo.haversine (Point.lon p) (Point.lat p) (Point.lon p) (Point.lat p))).
  rewrite haversine_same, Rplus_0_r. apply IH.
Qed.

End Haversine.

(** X10.  The great-circle distance of [calculateDistance], which is
    also the step of the length loop of [fromOSMWay]: it is zero from a
    point to itself and the same in both directions.  For two points at
    most 60 degrees apart in latitude and in longitude the quantity [a] of
    the formula lies in [0, 1/2], well below the value 1 beyond which
    [Math.sqrt(1 - a)] is not a number, and the distance lies between 0
    and a quarter of the circumference of the Earth of the formula. *)
Theorem calculateDistance_facts (lon1 lat1 lon2 lat2 : R) :
  PCIJoiner.calculateDistance lon1 lat1 lon1 lat1 = 0 /\
  PCIJoiner.calculateDistance lon1 lat1 lon2 lat2 =
    PCIJoiner.calculateDistance lon2 lat2 lon1 lat1 /\
  (Rabs (lat2 - lat1) <= 60 -> Rabs (lon2 - lon1) <= 60 ->
   PCIJoiner.calculateDistance lon1 lat1 lon2 lat2 =
     6371000 * (2 * Geo.atan2 (sqrt (haversineA lon1 lat1 lon2 lat2))
                              (sqrt (1 - haversineA lon1 lat1 lon2 lat2))) /\
   0 <= haversineA lon1 lat1 lon2 lat2 <= 1 / 2 /\
   0 <= PCIJoiner.calculateDistance lon1 lat1 lon2 lat2 <= 6371000 * PI / 2).
Proof.
  unfold PCIJoiner.calculateDistance.
  split; [apply haversine_same|]. split; [apply haversine_sym|].
  intros Hlat Hlon. split; [reflexivity|].
  split; [apply haversineA_near | apply haversine_near]; assumption.
Qed.

(** Two records of the file, from one to the other. *)
Lemma calculateDistance_facts_witness :
  0 <= haversineA (-81773 / 1000) (26463 / 1000) (-81775 / 1000) (26464 / 1000) <= 1 / 2 /\
  0 <= PCIJoiner.calculateDistance (-81773 / 1000) (26463 / 1000)
                                   (-81775 / 1000) (26464 / 1000)
    <= 6371000 * PI / 2.
Proof.
  destruct (calculateDistance_facts (-81773 / 1000) (26463 / 1000)
                                    (-81775 / 1000) (26464 / 1000))
    as (_ & _ & Hnear).
  apply Hnear; unfold Rabs; match goal with |- context [Rcase_abs ?x] =>
    destruct (Rcase_abs x) end; lra.
Defined.

(** X11.  The length [fromOSMWay] gives a segment is the same in both
    implementations and is zero when all the points of the way are the
    same point.  For a way of [n] points, each at most 60 degrees from the
    next in latitude and in longitude, the length lies between 0 and
    [n - 1] quarters of the circumference of the Earth of the formula. *)
Theorem fromOSMWay_length (way : Element.t) (geometry : list Point.t) :
  Element.geometry way = Some geometry ->
  (2 <= List.length geometry)%nat ->
  exists segTs segJs,
    RTree.fromOSMWay way = inr segTs /\
    Grid.fromOSMWay way = inr segJs /\
    RoadSegment.length segJs = RoadSegment.length segTs /\
    (forall p, Forall (fun q => q = p) geometry -> RoadSegment.length segTs = 0) /\
    (stepsWithin 60 geometry ->
     0 <= RoadSegment.length segTs
       <= INR (List.length geometry - 1) * (6371000 * PI / 2)).
Proof.
  intros Hg Hlen.
  destruct (fromOSMWay_ok RTree.mkMetadata way geometry Hg Hlen) as (first & rest & -> & HTs).
  destruct (fromOSMWay_ok Grid.mkMetadata way (first :: rest) Hg Hlen)
    as (first' & rest' & [= <- <-] & HJs).
  eexists _, _. split; [exact HTs|]. split; [exact HJs|].
  cbn [RoadSegment.length]. split; [reflexivity|]. split.
  - intros p Hall. apply (polylineLength_still p). exact Hall.
  - intros Hsteps. pose proof (polylineLength_near (first :: rest) Hsteps 0) as Hb. lra.
Qed.

(** A way of two points one degree of longitude apart on the equator. *)
Lemma fromOSMWay_length_witness :
  exists segTs segJs,
    RTree.fromOSMWay wayLong = inr segTs /\
    Grid.fromOSMWay wayLong = inr segJs /\
    RoadSegment.length segJs = RoadSegment.length segTs /\
    0 <= RoadSegment.length segTs
      <= INR (List.length [Point.mk 0 0; Point.mk 1 0] - 1) * (6371000 * PI / 2).
Proof.
  destruct (fromOSMWay_length wayLong [Point.mk 0 0; Point.mk 1 0])
    as (segTs & segJs & HTs & HJs & Hsame & _ & Hnear).
  - reflexivity.
  - simpl. lia.
  - exists segTs, segJs. split; [exact HTs|]. split; [exact HJs|].
    split; [exact Hsame|]. apply Hnear.
    simpl. unfold Rabs.
    repeat match goal with |- context [Rcase_abs ?x] => destruct (Rcase_abs x) end;
      repeat split; lra.
Defined.

(** X12.  [pointToLineDistance] is the distance from the point to the
    nearest point of the closed sub-segment: it is the distance to the
    point of the sub-segment at some parameter of [0, 1], and no point of
    the sub-segment is nearer.  The clamp of roadIndex.ts (two
    comparisons) and that of trafficSystem.js ([Math.max(0, Math.min(1,
    param))]) are the same function. *)
Theorem pointToLineDistance_nearest_point (px py x1 y1 x2 y2 : R) :
  (exists t,
     0 <= t <= 1 /\
     Geometry.pointToLineDistance px py x1 y1 x2 y2 =
       planarDistance px py (x1 + t * (x2 - x1)) (y1 + t * (y2 - y1))) /\
  (forall t,
     0 <= t <= 1 ->
     Geometry.pointToLineDistance px py x1 y1 x2 y2 <=
       planarDistance px py (x1 + t * (x2 - x1)) (y1 + t * (y2 - y1))) /\
  (forall param, Geometry.clamp01 param = Rmax 0 (Rmin 1 param)).
Proof.
  split; [apply pointToLineDistance_param|].
  split; [intros t; apply pointToLineDistance_least | apply clamp01_max_min].
Qed.

(** X13.  For a segment whose positions are those of two points or more,
    [distanceToRoad] is a finite number of meters: 111320 times the least
    of the distances to the consecutive sub-segments, that least distance
    being attained by one of them. *)
Theorem distanceToRoad_least (lon lat : R) (road : RoadSegment.t)
    (geometry : list Point.t) :
  RoadSegment.positions road = Build.flatten geometry ->
  (2 <= List.length geometry)%nat ->
  exists m seg,
    Geo.distanceToRoad lon lat road = Fin (m * 111320) /\
    hasSegment (RoadSegment.positions road) seg /\
    m = segmentDistance lon lat seg /\
    forall seg', hasSegment (RoadSegment.positions road) seg' ->
                 m <= segmentDistance lon lat seg'.
Proof.
  intros Hpos Hlen. unfold Geo.distanceToRoad. rewrite Hpos.
  destruct (minSegmentDistance_polyline lon lat geometry Hlen)
    as (m & seg & Hrun & Hseg & Hm & Hall).
  exists m, seg. rewrite Hrun. auto.
Qed.

(** The segment from (0, 0) to (1, 0), seen from the point (0, 0). *)
Lemma distanceToRoad_least_witness :
  exists m seg,
    Geo.distanceToRoad 0 0 longRoad = Fin (m * 111320) /\
    hasSegment (RoadSegment.positions longRoad) seg /\
    m = segmentDistance 0 0 seg /\
    forall seg', hasSegment (RoadSegment.positions longRoad) seg' ->
                 m <= segmentDistance 0 0 seg'.
Proof.
  apply (distanceToRoad_least 0 0 longRoad [Point.mk 0 0; Point.mk 1 0]).
  - reflexivity.
  - simpl. lia.
Defined.

(** X14.  Whatever the index holds, a segment [findNearest] returns has
    a finite distance that is not negative and is strictly below the
    radius, and its positions are those of two points or more, even in
    number: a segment of one point, or with a coordinate missing, is never
    returned.  So with a radius of zero or less [findNearest] returns
    [null]. *)
Theorem findNearest_result_shape (lon lat maxDistanceMeters : R) :
  (forall (st : Grid.RoadIndex) (road : RoadSegment.t),
     resultOf (Grid.findNearest lon lat maxDistanceMeters) st = Return (Some road) ->
     exists d k,
       distanceIs lon lat road d /\ 0 <= d < maxDistanceMeters /\
       (2 <= k)%nat /\ List.length (RoadSegment.positions road) = (2 * k)%nat) /\
  (forall (T : Type) (RB : RBush T) (st : RTree.RoadIndex T) (road : RoadSegment.t),
     resultOf (RTree.findNearest lon lat maxDistanceMeters) st = Return (Some road) ->
     exists d k,
       distanceIs lon lat road d /\ 0 <= d < maxDistanceMeters /\
       (2 <= k)%nat /\ List.length (RoadSegment.positions road) = (2 * k)%nat) /\
  (maxDistanceMeters <= 0 ->
   (forall st : Grid.RoadIndex,
      resultOf (Grid.findNearest lon lat maxDistanceMeters) st = Return None) /\
   (forall (T : Type) (RB : RBush T) (st : RTree.RoadIndex T),
      resultOf (RTree.findNearest lon lat maxDistanceMeters) st = Return None)).
Proof.
  assert (Hshape : forall cands road,
            Scan.nearest lon lat maxDistanceMeters cands = Some road ->
            exists d k,
              distanceIs lon lat road d /\ 0 <= d < maxDistanceMeters /\
              (2 <= k)%nat /\ List.length (RoadSegment.positions road) = (2 * k)%nat).
  { intros cands road Hres.
    apply nearest_Some in Hres as (pre & post & d & _ & Hd & Hlt & _).
    destruct (distanceIs_shape lon lat d road Hd) as (Hpos & k & Hk & Hlen).
    exists d, k. repeat split; auto. }
  assert (Hnone : maxDistanceMeters <= 0 -> forall cands,
            Scan.nearest lon lat maxDistanceMeters cands = None).
  { intros Hr cands.
    destruct (Scan.nearest lon lat maxDistanceMeters cands) as [road|] eqn:Hres;
      [|reflexivity].
    destruct (Hshape cands road Hres) as (d & k & _ & Hd & _). lra. }
  split; [|split].
  - intros st road Hres. unfold resultOf in Hres. rewrite Grid_findNearest_run in Hres.
    simpl in Hres. injection Hres as Hres. exact (Hshape _ road Hres).
  - intros T RB st road Hres. unfold resultOf in Hres.
    rewrite RTree_findNearest_run in Hres.
    simpl in Hres. injection Hres as Hres. exact (Hshape _ road Hres).
  - intros Hr. split.
    + intros st. unfold resultOf. rewrite Grid_findNearest_run. simpl.
      rewrite (Hnone Hr). reflexivity.
    + intros T RB st. unfold resultOf. rewrite RTree_findNearest_run. simpl.
      rewrite (Hnone Hr). reflexivity.
Qed.

(** The index holding the long road, asked with a radius of zero. *)
Lemma findNearest_result_shape_witness :
  resultOf (Grid.findNearest 0 0 0) (gridAfter [AddRoad longRoad]) = Return None.
Proof.
  destruct (findNearest_result_shape 0 0 0) as (_ & _ & Hzero).
  apply Hzero. lra.
Defined.

(** ** The reach of a query *)

Section Reach.

(** A candidate of the grid query is stored, and some segment added under
    its id has its midpoint in one of the scanned cells. *)
Lemma grid_candidate_origin (ops : list op) (lon lat : R) (road : RoadSegment.t) :
  Some road ∈ Grid.candidates lon lat (gridAfter ops) ->
  lastWithId (RoadSegment.id road) (addedBy Grid.fromOSMWay ops) = Some road /\
  exists segment dx dy,
    segment ∈ addedBy Grid.fromOSMWay ops /\
    RoadSegment.id segment = RoadSegment.id road /\
    (-2 <= dx <= 2)%Z /\ (-2 <= dy <= 2)%Z /\
    gridKeyOf segment =
      ((floor (lon / Grid.gridSize) + dx)%Z, (floor (lat / Grid.gridSize) + dy)%Z).
Proof.
  unfold Grid.candidates. intros Hin.
  apply list_elem_of_In, in_flat_map in Hin as (dx & Hdx & Hin).
  apply in_flat_map in Hin as (dy & Hdy & Hin).
  apply list_elem_of_In, offsets_elem in Hdx.
  apply list_elem_of_In, offsets_elem in Hdy.
  apply list_elem_of_In, list_elem_of_fmap in Hin as (id & Hget & Hcell).
  symmetry in Hget.
  rewrite gridAfter_fields in Hget, Hcell. simpl in Hget, Hcell.
  rewrite fileUnder_fold_cell, lookup_empty in Hcell. simpl in Hcell.
  apply list_elem_of_fmap in Hcell as (segment & -> & Hseg).
  apply list_elem_of_filter in Hseg as [Hkey Hadded].
  pose proof (setRoad_fold_own _ _ _ (JSMap_get_in _ _ _ Hget)) as Hid.
  split.
  - rewrite setRoad_get in Hget. rewrite Hid.
    destruct (lastWithId _ _); [exact Hget | discriminate].
  - exists segment, dx, dy. auto.
Qed.

(** Two points whose cells are at most two apart are less than three
    cell sizes apart. *)
Lemma cells_apart (x y : R) (d : Z) :
  (-2 <= d <= 2)%Z ->
  floor (x / Grid.gridSize) = (floor (y / Grid.gridSize) + d)%Z ->
  Rabs (x - y) < 3 / 1000.
Proof.
  intros Hd Hcell. unfold Grid.gridSize in *.
  pose proof (floor_bounds (x / (1 / 1000))) as Hx.
  pose proof (floor_bounds (y / (1 / 1000))) as Hy.
  rewrite Hcell, plus_IZR in Hx. clear Hcell.
  set (fy := floor (y / (1 / 1000))) in *. clearbody fy.
  assert (Hlo : -2 <= IZR d) by (apply (IZR_le (-2)); lia).
  assert (Hhi : IZR d <= 2) by (apply (IZR_le _ 2); lia).
  replace (x / (1 / 1000)) with (x * 1000) in Hx by field.
  replace (y / (1 / 1000)) with (y * 1000) in Hy by field.
  apply Rabs_def1; lra.
Qed.

Lemma lastWithId_elem (id : string) (segments : list RoadSegment.t) (road : RoadSegment.t) :
  lastWithId id segments = Some road -> road ∈ segments /\ RoadSegment.id road = id.
Proof.
  unfold lastWithId, withId. intros Hlast.
  apply last_Some_elem_of, list_elem_of_filter in Hlast. tauto.
Qed.



End Reach.

(** X15.  The grid query reaches only what is filed near the point.  When
    [findNearest] returns a segment of the grid index, some segment added
    under the same id has its midpoint vertex less than 0.003 degrees from
    the query point in longitude and in latitude; when no id was added
    twice, that is the midpoint of the returned segment itself. *)
Theorem grid_findNearest_window (ops : list op) (lon lat maxDistanceMeters : R)
    (road : RoadSegment.t) :
  resultOf (Grid.findNearest lon lat maxDistanceMeters) (gridAfter ops) =
    Return (Some road) ->
  (exists segment,
     segment ∈ addedBy Grid.fromOSMWay ops /\
     RoadSegment.id segment = RoadSegment.id road /\
     Rabs (fst (RoadSegment.midpoint segment) - lon) < 3 / 1000 /\
     Rabs (snd (RoadSegment.midpoint segment) - lat) < 3 / 1000) /\
  (NoDup (map RoadSegment.id (addedBy Grid.fromOSMWay ops)) ->
   Rabs (fst (RoadSegment.midpoint road) - lon) < 3 / 1000 /\
   Rabs (snd (RoadSegment.midpoint road) - lat) < 3 / 1000).
Proof.
  intros Hres. unfold resultOf in Hres. rewrite Grid_findNearest_run in Hres.
  simpl in Hres. injection Hres as Hres.
  apply nearest_Some in Hres as (pre & post & d & Hc & _).
  assert (Hin : Some road ∈ Grid.candidates lon lat (gridAfter ops)).
  { rewrite Hc. apply elem_of_app. right. left. }
  destruct (grid_candidate_origin ops lon lat road Hin)
    as (Hlast & segment & dx & dy & Hadded & Hid & Hdx & Hdy & Hkey).
  unfold gridKeyOf, Grid.getGridKey in Hkey. injection Hkey as Hkx Hky.
  pose proof (cells_apart _ _ dx Hdx Hkx) as Hx.
  pose proof (cells_apart _ _ dy Hdy Hky) as Hy.
  split.
  - exists segment. auto.
  - intros Hnd. apply lastWithId_elem in Hlast as [Hroad _].
    assert (segment = road) as <-
      by (apply (NoDup_fmap_inj RoadSegment.id _ _ _ Hnd Hadded Hroad Hid)).
    auto.
Qed.

Lemma eastRoad_found :
  resultOf (Grid.findNearest 0 0 25) (gridAfter [AddRoad eastRoad]) = Return (Some eastRoad).
Proof.
  unfold resultOf. rewrite Grid_findNearest_run. cbn [fst].
  change (gridAfter [AddRoad eastRoad]) with (gridAfter (map AddRoad [eastRoad])).
  rewrite (grid_candidates_scanOrder 0 0 [eastRoad])
    by (simpl; apply NoDup_singleton).
  rewrite (scanOrder_eval 0 0 [eastRoad] [(0, 0)]%Z 0%Z 0%Z).
  - f_equal. apply (nearest_single 0 0 25 20 eastRoad eastRoad_distance). lra.
  - simpl. f_equal.
    apply (gridKeyOf_eval eastRoad (1 / 5566) (1 / 10000) 0 0);
      [reflexivity | unfold Grid.gridSize; simpl; lra..].
  - apply floor_unique. unfold Grid.gridSize. simpl. lra.
  - apply floor_unique. unfold Grid.gridSize. simpl. lra.
Qed.

(** The east road alone in the index, seen from the point (0, 0). *)
Lemma grid_findNearest_window_witness :
  (exists segment,
     segment ∈ addedBy Grid.fromOSMWay [AddRoad eastRoad] /\
     RoadSegment.id segment = RoadSegment.id eastRoad /\
     Rabs (fst (RoadSegment.midpoint segment) - 0) < 3 / 1000 /\
     Rabs (snd (RoadSegment.midpoint segment) - 0) < 3 / 1000) /\
  (NoDup (map RoadSegment.id (addedBy Grid.fromOSMWay [AddRoad eastRoad])) ->
   Rabs (fst (RoadSegment.midpoint eastRoad) - 0) < 3 / 1000 /\
   Rabs (snd (RoadSegment.midpoint eastRoad) - 0) < 3 / 1000).
Proof.
  apply (grid_findNearest_window [AddRoad eastRoad] 0 0 25 eastRoad).
  exact eastRoad_found.
Defined.



(** ** The PCI joiner *)

Section NearestRecord.

Variables lon lat : R.

(** The loop of [findNearestPCI]: its start values when no record is
    nearer than the start distance, otherwise the first record of least
    distance. *)
Lemma findNearestPCI_fold (pciData : list PCIJoiner.PCIRecord) :
  forall b0 d0 b d,
    fold_left
      (fun '(nearestPCI, nearestDistance) pci =>
         let distance :=
           PCIJoiner.calculateDistance lon lat
             (fst (PCIJoiner.location pci)) (snd (PCIJoiner.location pci)) in
         if Rlt_dec distance nearestDistance
         then (Some (pci, PCIJoiner.round distance), distance)
         else (nearestPCI, nearestDistance))
      pciData (b0, d0) = (b, d) ->
    (b = b0 /\ d = d0 /\ Forall (fun r => d0 <= pciDistanceTo lon lat r) pciData) \/
    (exists pre record post,
        pciData = pre ++ record :: post /\
        b = Some (record, PCIJoiner.round (pciDistanceTo lon lat record)) /\
        d = pciDistanceTo lon lat record /\ d < d0 /\
        Forall (fun r => d < pciDistanceTo lon lat r) pre /\
        Forall (fun r => d <= pciDistanceTo lon lat r) post).
Proof.
  induction pciData as [|record rest IH]; intros b0 d0 b d Hfold.
  - simpl in Hfold. injection Hfold as <- <-. left. auto.
  - simpl in Hfold. fold (pciDistanceTo lon lat record) in Hfold.
    destruct (Rlt_dec (pciDistanceTo lon lat record) d0) as [Hlt|Hge].
    + apply IH in Hfold.
      destruct Hfold as [(Hb & Hd & Hall)
                        | (pre & record' & post & Hrest & Hb & Hd & Hlt' & Hpre & Hpost)].
      * right. exists [], record, rest. subst b d.
        split; [reflexivity|]. split; [reflexivity|]. split; [reflexivity|].
        split; [exact Hlt|]. split; [constructor | exact Hall].
      * right. exists (record :: pre), record', post. subst rest b.
        split; [reflexivity|]. split; [reflexivity|]. split; [exact Hd|].
        split; [lra|]. split; [|exact Hpost].
        constructor; [lra | exact Hpre].
    + apply IH in Hfold.
      destruct Hfold as [(Hb & Hd & Hall)
                        | (pre & record' & post & Hrest & Hb & Hd & Hlt' & Hpre & Hpost)].
      * left. subst b d. split; [reflexivity|]. split; [reflexivity|].
        constructor; [lra | exact Hall].
      * right. exists (record :: pre), record', post. subst rest b.
        split; [reflexivity|]. split; [reflexivity|]. split; [exact Hd|].
        split; [exact Hlt'|]. split; [|exact Hpost].
        constructor; [lra | exact Hpre].
Qed.

End NearestRecord.

(** X17.  [findNearestPCI] returns the first record of least distance
    when that distance is strictly below the maximum, and [null] when no
    record is; the [distance] it reports is the true distance rounded to
    the nearest whole number of meters, so within half a meter of it. *)
Theorem findNearestPCI_nearest (pciData : list PCIJoiner.PCIRecord)
    (lon lat maxDistanceMeters : R) :
  match PCIJoiner.findNearestPCI pciData lon lat maxDistanceMeters with
  | None => Forall (fun r => maxDistanceMeters <= pciDistanceTo lon lat r) pciData
  | Some (record, distance) =>
      exists pre post,
        pciData = pre ++ record :: post /\
        pciDistanceTo lon lat record < maxDistanceMeters /\
        distance = PCIJoiner.round (pciDistanceTo lon lat record) /\
        Rabs (distance - pciDistanceTo lon lat record) <= 1 / 2 /\
        Forall (fun r => pciDistanceTo lon lat record < pciDistanceTo lon lat r) pre /\
        Forall (fun r => pciDistanceTo lon lat record <= pciDistanceTo lon lat r) post
  end.
Proof.
  unfold PCIJoiner.findNearestPCI.
  destruct (fold_left _ pciData (None, maxDistanceMeters)) as [b d] eqn:Hfold.
  apply findNearestPCI_fold in Hfold.
  destruct Hfold as [(Hb & Hd & Hall)
                    | (pre & record & post & Hdata & Hb & Hd & Hlt & Hpre & Hpost)];
    subst b d; simpl.
  - exact Hall.
  - exists pre, post.
    split; [exact Hdata|]. split; [exact Hlt|]. split; [reflexivity|].
    split; [|split; [exact Hpre | exact Hpost]].
    unfold PCIJoiner.round.
    pose proof (floor_bounds (pciDistanceTo lon lat record + 1 / 2)) as Hf.
    apply Rabs_le. lra.
Qed.

Section Join.

Variable pciData : list PCIJoiner.PCIRecord.

(** One turn of the loop of [joinToRoads]. *)
Lemma joinRoad_turn (road : RoadSegment.t) :
  exists road',
    PCIJoiner.joinRoad pciData road = (road', matched pciData road, joinLine pciData road) /\
    joinOutcome pciData road road' /\
    PCIJoiner.lacksPCI road' = negb (matched pciData road) /\
    (matched pciData road = true -> hasScore road').
Proof.
  unfold PCIJoiner.joinRoad, matched, joinLine, joinOutcome, pciMatch.
  destruct (RoadSegment.midpoint road) as [lon lat]. simpl fst. simpl snd.
  destruct (PCIJoiner.findNearestPCI pciData lon lat 50) as [[record distance]|].
  - eexists. split; [reflexivity|]. split; [|split].
    + eexists. split; [reflexivity|]. unfold prop.
      split; [rewrite !lookup_insert_ne by (intros Heq; discriminate Heq);
              rewrite lookup_insert_eq; reflexivity|].
      split; [rewrite !lookup_insert_ne by (intros Heq; discriminate Heq);
              rewrite lookup_insert_eq; reflexivity|].
      split; [rewrite !lookup_insert_ne by (intros Heq; discriminate Heq);
              rewrite lookup_insert_eq; reflexivity|].
      split; [rewrite !lookup_insert_ne by (intros Heq; discriminate Heq);
              rewrite lookup_insert_eq; reflexivity|].
      split; [rewrite lookup_insert_eq; reflexivity|].
      intros k Hk. unfold pciKeys in Hk. rewrite !not_elem_of_cons in Hk.
      destruct Hk as (H1 & H2 & H3 & H4 & H5 & _).
      rewrite !lookup_insert_ne by congruence. reflexivity.
    + unfold PCIJoiner.lacksPCI. simpl.
      rewrite !lookup_insert_ne by (intros Heq; discriminate Heq).
      rewrite lookup_insert_eq. reflexivity.
    + intros _. eexists _, _. split; [reflexivity|]. unfold prop.
      rewrite !lookup_insert_ne by (intros Heq; discriminate Heq).
      rewrite lookup_insert_eq. reflexivity.
  - eexists. split; [reflexivity|]. split; [|split].
    + eexists. split; [reflexivity|]. unfold prop.
      split; [rewrite lookup_insert_ne by (intros Heq; discriminate Heq);
              rewrite lookup_insert_eq; reflexivity|].
      split; [rewrite lookup_insert_eq; reflexivity|].
      intros k H1 H2. rewrite !lookup_insert_ne by congruence. reflexivity.
    + unfold PCIJoiner.lacksPCI. simpl.
      rewrite lookup_insert_ne by (intros Heq; discriminate Heq).
      rewrite lookup_insert_eq. reflexivity.
    + discriminate.
Qed.

Lemma joinToRoads_loop (roads : list RoadSegment.t) :
  forall (done : list RoadSegment.t) (count : nat) (log : list PCIJoiner.JoinLog),
    exists roads',
      fold_left
        (fun '(done, joinCount, log) road =>
           let '(road', joined, line) := PCIJoiner.joinRoad pciData road in
           (done ++ [road'], if joined then S joinCount else joinCount, log ++ [line]))
        roads (done, count, log) =
        (done ++ roads',
         (count + List.length (List.filter (matched pciData) roads))%nat,
         log ++ map (joinLine pciData) roads) /\
      Forall2 (joinOutcome pciData) roads roads' /\
      Forall2 (fun road road' =>
                 PCIJoiner.lacksPCI road' = negb (matched pciData road) /\
                 (matched pciData road = true -> hasScore road')) roads roads'.
Proof.
  induction roads as [|road rest IH]; intros done count log.
  - exists []. simpl. rewrite !app_nil_r, Nat.add_0_r. repeat split; constructor.
  - destruct (joinRoad_turn road) as (road' & Hturn & Hout & Hlacks).
    simpl fold_left. rewrite Hturn.
    destruct (IH (done ++ [road'])
                 (if matched pciData road then S count else count)
                 (log ++ [joinLine pciData road]))
      as (roads' & Hrun & Hall & Hall').
    exists (road' :: roads'). rewrite Hrun. split; [|split].
    + simpl. rewrite <- !app_assoc. simpl.
      destruct (matched pciData road); simpl; repeat f_equal; lia.
    + constructor; assumption.
    + constructor; assumption.
Qed.

End Join.

Section Fill.

Variable toISODate : R -> string.

Lemma lacksPCI_false_hasScore (road : RoadSegment.t) :
  hasScore road -> PCIJoiner.lacksPCI road = false.
Proof.
  intros (m & x & Hm & Hpci). unfold PCIJoiner.lacksPCI. rewrite Hm.
  unfold prop in Hpci. destruct (m !! "pci"%string) as [v|]; simpl in Hpci;
    [rewrite Hpci; reflexivity | reflexivity].
Qed.

Lemma fillOutcome_settled (road road' : RoadSegment.t) :
  fillOutcome road road' -> PCIJoiner.lacksPCI road' = false.
Proof.
  unfold fillOutcome. destruct (PCIJoiner.lacksPCI road) eqn:Hl.
  - intros (m' & jitter & z & -> & _ & _ & Hpci & _).
    apply lacksPCI_false_hasScore. exists m', (IZR z). split; [reflexivity | exact Hpci].
  - intros ->. exact Hl.
Qed.

(** The fill passes over roads that have a score: nothing is drawn,
    nothing is written. *)
Lemma fill_settled (roads : list RoadSegment.t) :
  Forall (fun road => PCIJoiner.lacksPCI road = false) roads ->
  forall (done : list RoadSegment.t) (count : nat) (rt : PCIJoiner.Runtime)
         (c : list logEntry),
    forOf roads (done, count) (PCIJoiner.fillStep toISODate) rt c =
      (Return (done ++ roads, count), rt, c).
Proof.
  induction 1 as [|road rest Hroad Hrest IH]; intros done count rt c.
  - simpl. unfold ret. rewrite app_nil_r. reflexivity.
  - simpl forOf. unfold bind at 1. rewrite Hroad. unfold ret at 1.
    rewrite IH, <- app_assoc. reflexivity.
Qed.




End Fill.

(** X18.  [joinToRoads] goes through the roads in order and changes
    nothing of a road but its metadata.  A road with a PCI record within
    50 m of its midpoint gets the score, condition, inspection date and
    surface of the nearest such record and the rounded distance; a road
    without one gets a [null] score and the condition [Unknown], the
    inspection date, surface and distance of an earlier join staying as
    they were.  Every other metadata key is kept.  The method returns the
    number of roads matched and writes one console line per road between
    its first and its last line. *)
Theorem joinToRoads_outcome (pciData : list PCIJoiner.PCIRecord)
    (roads : list RoadSegment.t) :
  let joinCount := List.length (List.filter (matched pciData) roads) in
  exists roads',
    PCIJoiner.joinToRoads pciData roads =
      (roads', joinCount,
       [PCIJoiner.LogJoining] ++ map (joinLine pciData) roads
         ++ [PCIJoiner.LogJoinComplete joinCount (List.length roads)]) /\
    Forall2 (joinOutcome pciData) roads roads'.
Proof.
  intros joinCount. unfold PCIJoiner.joinToRoads.
  destruct (joinToRoads_loop pciData roads [] 0%nat [PCIJoiner.LogJoining])
    as (roads' & Hrun & Hall & _).
  exists roads'. rewrite Hrun. split; [|exact Hall].
  reflexivity.
Qed.



(** X20.  The fill is idempotent: run again on the roads it returned, it
    fills none, returns 0, draws no random number and leaves every road as
    it is. *)
Theorem ensureAllRoadsHavePCI_idempotent (toISODate : R -> string)
    (roads : list RoadSegment.t) (rt : PCIJoiner.Runtime) :
  drawsInUnit rt ->
  exists filled syntheticCount,
    resultOf (PCIJoiner.ensureAllRoadsHavePCI toISODate roads) rt =
      Return (filled, syntheticCount) /\
    forall rt2,
      resultOf (PCIJoiner.ensureAllRoadsHavePCI toISODate filled) rt2 =
        Return (filled, 0%nat) /\
      stateAfter (PCIJoiner.ensureAllRoadsHavePCI toISODate filled) rt2 = rt2.
Proof.
  intros Hrt.
  destruct (fill_loop toISODate roads [] 0%nat rt ([] ++ [LogEnsuringPCI]) Hrt)
    as (filled & rt' & Hfill & Hout).
  exists filled, (List.length (List.filter PCIJoiner.lacksPCI roads)).
  split.
  { unfold resultOf.
    rewrite (ensureAllRoadsHavePCI_run toISODate roads rt rt' [] _ _ Hfill). reflexivity. }
  intros rt2.
  assert (Hsettled : Forall (fun road => PCIJoiner.lacksPCI road = false) filled).
  { clear Hfill. induction Hout as [|road road' rest rest' Hone Hrest IH]; constructor.
    - apply (fillOutcome_settled road road' Hone).
    - exact IH. }
  unfold resultOf, stateAfter.
  rewrite (ensureAllRoadsHavePCI_run toISODate filled rt2 rt2 [] _ _
             (fill_settled toISODate filled Hsettled [] 0%nat rt2 ([] ++ [LogEnsuringPCI]))).
  split; reflexivity.
Qed.

(** The road without a score, all draws one half. *)
Lemma ensureAllRoadsHavePCI_idempotent_witness :
  exists filled syntheticCount,
    resultOf (PCIJoiner.ensureAllRoadsHavePCI (fun _ => "2025-06-01"%string) [unmatchedRoad])
             halfRuntime =
      Return (filled, syntheticCount) /\
    forall rt2,
      resultOf (PCIJoiner.ensureAllRoadsHavePCI (fun _ => "2025-06-01"%string) filled) rt2 =
        Return (filled, 0%nat) /\
      stateAfter (PCIJoiner.ensureAllRoadsHavePCI (fun _ => "2025-06-01"%string) filled) rt2
        = rt2.
Proof.
  apply (ensureAllRoadsHavePCI_idempotent (fun _ => "2025-06-01"%string) [unmatchedRoad]
           halfRuntime).
  intros n. simpl. lra.
Defined.

Section Categories.

Lemma round_ge (t : Z) (x : R) : IZR t <= PCIJoiner.round x <-> IZR t - 1 / 2 <= x.
Proof.
  unfold PCIJoiner.round.
  pose proof (floor_bounds (x + 1 / 2)) as [Hlo Hhi].
  set (z := floor (x + 1 / 2)) in *. split; intros H.
  - lra.
  - apply IZR_le.
    assert (Hlt : IZR (t - 1) < IZR z) by (rewrite minus_IZR; lra).
    apply lt_IZR in Hlt. lia.
Qed.

End Categories.

(** X21.  The label and the colour of a score go together.
    [getPCICategory] gives [Unknown] for [null] and [undefined] and, for a
    finite score, [Excellent] from 80, [Good] from 70, [Fair] from 60 and
    [Poor] below; [getPCIColor] gives grey, green, light green, yellow and
    red on exactly the same cases. *)
Theorem getPCIColor_matches_category (pci : option number) :
  (forall x : R,
     (PCIJoiner.getPCICategory (Some (Fin x)) = "Excellent"%string <-> 80 <= x) /\
     (PCIJoiner.getPCICategory (Some (Fin x)) = "Good"%string <-> 70 <= x < 80) /\
     (PCIJoiner.getPCICategory (Some (Fin x)) = "Fair"%string <-> 60 <= x < 70) /\
     (PCIJoiner.getPCICategory (Some (Fin x)) = "Poor"%string <-> x < 60)) /\
  (PCIJoiner.getPCICategory pci = "Unknown"%string <->
   PCIJoiner.getPCIColor pci = "#888888"%string) /\
  (PCIJoiner.getPCICategory pci = "Excellent"%string <->
   PCIJoiner.getPCIColor pci = "#00ff00"%string) /\
  (PCIJoiner.getPCICategory pci = "Good"%string <->
   PCIJoiner.getPCIColor pci = "#90ee90"%string) /\
  (PCIJoiner.getPCICategory pci = "Fair"%string <->
   PCIJoiner.getPCIColor pci = "#ffd700"%string) /\
  (PCIJoiner.getPCICategory pci = "Poor"%string <->
   PCIJoiner.getPCIColor pci = "#ff4444"%string).
Proof.
  split.
  - intros x. unfold PCIJoiner.getPCICategory.
    destruct (Rle_dec 80 x); [|destruct (Rle_dec 70 x); [|destruct (Rle_dec 60 x)]];
      repeat split; intros; try congruence; lra.
  - unfold PCIJoiner.getPCICategory, PCIJoiner.getPCIColor.
    destruct pci as [[x| |]|];
      [destruct (Rle_dec 80 x); [|destruct (Rle_dec 70 x); [|destruct (Rle_dec 60 x)]]|..];
      repeat split; intros; congruence.
Qed.

(** X22.  The record [generateSyntheticPCI] returns carries the rounded
    score, but the condition of the score before rounding.  The condition
    is never [Unknown]; it is the category of the stored score except when
    the score before rounding lies within half a point below a threshold
    (60, 70 or 80), where the stored score has reached the next category
    and the condition has not. *)
Theorem generateSyntheticPCI_condition (toISODate : R -> string)
    (road : RoadSegment.t) (rt : PCIJoiner.Runtime) (c : list logEntry) :
  drawsInUnit rt ->
  let score := PCIJoiner.basePCIOf (RoadSegment.kind road)
               + (PCIJoiner.draws rt 0 - 1 / 2) * 20 in
  exists syn rt',
    PCIJoiner.generateSyntheticPCI toISODate road rt c = (Return syn, rt', c) /\
    PCIJoiner.synPci syn = PCIJoiner.round score /\
    PCIJoiner.synCondition syn = PCIJoiner.getPCICategory (Some (Fin score)) /\
    PCIJoiner.synCondition syn <> "Unknown"%string /\
    PCIJoiner.synthetic syn = true /\
    (PCIJoiner.synCondition syn =
       PCIJoiner.getPCICategory (Some (Fin (PCIJoiner.synPci syn))) <->
     ~ (60 - 1 / 2 <= score < 60 \/ 70 - 1 / 2 <= score < 70 \/ 80 - 1 / 2 <= score < 80)).
Proof.
  intros Hrt score.
  destruct (generateSyntheticPCI_run toISODate road rt c) as (lastInspection & surface & Hrun).
  rewrite (finalPCI_unclamped _ _ (Hrt 0%nat)) in Hrun. fold score in Hrun.
  eexists _, _. split; [exact Hrun|].
  cbn [PCIJoiner.synPci PCIJoiner.synCondition PCIJoiner.synthetic].
  split; [reflexivity|]. split; [reflexivity|].
  pose proof (round_ge 80 score) as H80.
  pose proof (round_ge 70 score) as H70.
  pose proof (round_ge 60 score) as H60.
  set (stored := PCIJoiner.round score) in *. clearbody stored score.
  unfold PCIJoiner.getPCICategory.
  split; [|split; [reflexivity|]].
  - destruct (Rle_dec 80 score); [|destruct (Rle_dec 70 score); [|destruct (Rle_dec 60 score)]];
      intros H; discriminate H.
  - destruct (Rle_dec 80 score); [|destruct (Rle_dec 70 score); [|destruct (Rle_dec 60 score)]];
      (destruct (Rle_dec 80 stored);
       [|destruct (Rle_dec 70 stored); [|destruct (Rle_dec 60 stored)]]);
      (split; [intros Heq; try discriminate Heq; lra
              | intros Hno; try reflexivity; exfalso; lra]).
Qed.

(** A residential road, the first draw one half: a score of 65. *)
Lemma generateSyntheticPCI_condition_witness :
  let score := PCIJoiner.basePCIOf (RoadSegment.kind unmatchedRoad)
               + (PCIJoiner.draws halfRuntime 0 - 1 / 2) * 20 in
  exists syn rt',
    PCIJoiner.generateSyntheticPCI (fun _ => "2025-06-01"%string) unmatchedRoad
                                   halfRuntime [] = (Return syn, rt', []) /\
    PCIJoiner.synPci syn = PCIJoiner.round score /\
    PCIJoiner.synCondition syn = PCIJoiner.getPCICategory (Some (Fin score)) /\
    PCIJoiner.synCondition syn <> "Unknown"%string /\
    PCIJoiner.synthetic syn = true /\
    (PCIJoiner.synCondition syn =
       PCIJoiner.getPCICategory (Some (Fin (PCIJoiner.synPci syn))) <->
     ~ (60 - 1 / 2 <= score < 60 \/ 70 - 1 / 2 <= score < 70 \/ 80 - 1 / 2 <= score < 80)).
Proof.
  apply (generateSyntheticPCI_condition (fun _ => "2025-06-01"%string) unmatchedRoad
           halfRuntime []).
  intros n. simpl. lra.
Defined.

(** X23.  With a draw in [0, 1), [getRandomInspectionDate] prints a
    moment of the 365 days before the clock's [now]: never a moment after
    [now], never one more than 31 536 000 000 ms before it. *)
Theorem getRandomInspectionDate_range (toISODate : R -> string)
    (rt : PCIJoiner.Runtime) (c : list logEntry) :
  drawsInUnit rt ->
  exists randomTime rt',
    PCIJoiner.getRandomInspectionDate toISODate rt c =
      (Return (toISODate randomTime), rt', c) /\
    PCIJoiner.clock rt - 31536000000 <= randomTime < PCIJoiner.clock rt /\
    PCIJoiner.clock rt' = PCIJoiner.clock rt /\
    (forall n, PCIJoiner.draws rt' n = PCIJoiner.draws rt (S n)).
Proof.
  intros Hrt.
  exists (PCIJoiner.clock rt - 365 * 24 * 60 * 60 * 1000
          + PCIJoiner.draws rt 0
            * (PCIJoiner.clock rt - (PCIJoiner.clock rt - 365 * 24 * 60 * 60 * 1000))),
         (PCIJoiner.mkRuntime (fun n => PCIJoiner.draws rt (S n)) (PCIJoiner.clock rt)).
  split; [reflexivity|].
  cbn [PCIJoiner.clock PCIJoiner.draws].
  pose proof (Hrt 0%nat) as Hr.
  split; [|split; [reflexivity | intros n; reflexivity]].
  split; nra.
Qed.

(** The clock at zero, all draws one half. *)
Lemma getRandomInspectionDate_range_witness :
  exists randomTime rt',
    PCIJoiner.getRandomInspectionDate (fun _ => "2025-06-01"%string) halfRuntime [] =
      (Return ((fun _ => "2025-06-01"%string) randomTime), rt', []) /\
    PCIJoiner.clock halfRuntime - 31536000000 <= randomTime < PCIJoiner.clock halfRuntime /\
    PCIJoiner.clock rt' = PCIJoiner.clock halfRuntime /\
    (forall n, PCIJoiner.draws rt' n = PCIJoiner.draws halfRuntime (S n)).
Proof.
  apply (getRandomInspectionDate_range (fun _ => "2025-06-01"%string) halfRuntime []).
  intros n. simpl. lra.
Defined.

(** ** Signals and their roads *)

Section SignalsOfRoads.


End SignalsOfRoads.



(** X25.  Every signal the loader records on a fresh manager refers to a
    road of the index: its road id resolves through [getRoad] to a
    segment, its road name is the name of that segment, and the signal
    lies at a finite distance of less than 25 m from it. *)
Theorem signals_refer_to_roads (ops : list op) (elements : list Element.t)
    (signal : SignalManager.Signal) :
  NoDup (map (fun p => (Element.lon (fst p), Element.lat (fst p)))
             (associated (gridAfter ops) elements)) ->
  let idx := gridAfter ops in
  let sm := stateAfter (SignalManager.loadFromOSM (OsmData.mk (Some elements)))
                       (SignalManager.new idx) in
  signal ∈ SignalManager.signals sm ->
  exists id road d,
    SignalManager.roadId signal = Some id /\
    resultOf (Grid.getRoad id) idx = Return (Some road) /\
    RoadSegment.id road = id /\
    SignalManager.roadName signal = RoadSegment.name road /\
    distanceIs (SignalManager.lon signal) (SignalManager.lat signal) road d /\
    0 <= d < 25.
Proof.
  intros _ idx sm Hin. subst sm. unfold stateAfter in Hin.
  rewrite signals_load_run in Hin. simpl in Hin.
  apply list_elem_of_fmap in Hin as ([element road] & -> & Hfound).
  unfold associated in Hfound. apply list_elem_of_omap in Hfound as (e & He & Hsome).
  destruct (SignalManager.isSignalNode e); [|discriminate].
  destruct (nearestTo idx e) as [r|] eqn:Hnear; [|discriminate].
  injection Hsome as -> ->.
  unfold nearestTo in Hnear.
  pose proof Hnear as Hshape.
  apply nearest_Some in Hshape as (pre & post & d & Hc & Hd & Hlt & _).
  assert (Hcand : Some road ∈ Grid.candidates (Element.lon element) (Element.lat element) idx).
  { rewrite Hc. apply elem_of_app. right. left. }
  destruct (grid_candidate_origin ops _ _ road Hcand) as [Hlast _].
  destruct (distanceIs_shape _ _ d road Hd) as [Hpos _].
  exists (RoadSegment.id road), road, d. simpl.
  split; [reflexivity|]. split.
  - unfold resultOf, Grid.getRoad, gets. simpl. subst idx.
    rewrite gridAfter_fields. simpl. rewrite setRoad_get, Hlast. reflexivity.
  - repeat split; auto.
Qed.

(** One signal node on the east road. *)
Lemma signals_refer_to_roads_witness :
  exists id road d,
    SignalManager.roadId (signalFor (signalNode "9" 0 0, eastRoad)) = Some id /\
    resultOf (Grid.getRoad id) (gridAfter [AddRoad eastRoad]) = Return (Some road) /\
    RoadSegment.id road = id /\
    SignalManager.roadName (signalFor (signalNode "9" 0 0, eastRoad)) = RoadSegment.name road /\
    distanceIs (SignalManager.lon (signalFor (signalNode "9" 0 0, eastRoad)))
               (SignalManager.lat (signalFor (signalNode "9" 0 0, eastRoad))) road d /\
    0 <= d < 25.
Proof.
  assert (Hnear : nearestTo (gridAfter [AddRoad eastRoad]) (signalNode "9" 0 0)
                  = Some eastRoad).
  { pose proof eastRoad_found as Hfound. unfold resultOf in Hfound.
    rewrite Grid_findNearest_run in Hfound. simpl in Hfound.
    injection Hfound as Hfound. exact Hfound. }
  apply (signals_refer_to_roads [AddRoad eastRoad] [signalNode "9" 0 0]
           (signalFor (signalNode "9" 0 0, eastRoad))).
  - unfold associated. simpl omap. rewrite Hnear. simpl. apply NoDup_singleton.
  - unfold stateAfter. rewrite signals_load_run. simpl.
    unfold associated. simpl omap. rewrite Hnear. simpl. left.
Defined.

(** ** The speed limit *)

Section SpeedLimit.












End SpeedLimit.


(** ** The forecast chart *)

Section Chart.

Lemma minOf_spec (rest : list R) :
  forall first,
    TrafficInfoPanel.minOf first rest <= first /\
    (forall v, v ∈ rest -> TrafficInfoPanel.minOf first rest <= v) /\
    TrafficInfoPanel.minOf first rest ∈ first :: rest.
Proof.
  unfold TrafficInfoPanel.minOf.
  induction rest as [|x rest IH]; intros first; simpl.
  - split; [lra|]. split; [intros v Hv; inversion Hv | left].
  - destruct (IH (Rmin first x)) as (Hle & Hall & Hin).
    pose proof (Rmin_l first x). pose proof (Rmin_r first x).
    split; [lra|]. split.
    + intros v Hv. apply elem_of_cons in Hv as [-> | Hv]; [lra | auto].
    + apply elem_of_cons in Hin as [Heq | Hin].
      * rewrite Heq. unfold Rmin. destruct (Rle_dec first x); [left | right; left].
      * right. right. exact Hin.
Qed.

Lemma maxOf_spec (rest : list R) :
  forall first,
    first <= TrafficInfoPanel.maxOf first rest /\
    (forall v, v ∈ rest -> v <= TrafficInfoPanel.maxOf first rest) /\
    TrafficInfoPanel.maxOf first rest ∈ first :: rest.
Proof.
  unfold TrafficInfoPanel.maxOf.
  induction rest as [|x rest IH]; intros first; simpl.
  - split; [lra|]. split; [intros v Hv; inversion Hv | left].
  - destruct (IH (Rmax first x)) as (Hle & Hall & Hin).
    pose proof (Rmax_l first x). pose proof (Rmax_r first x).
    split; [lra|]. split.
    + intros v Hv. apply elem_of_cons in Hv as [-> | Hv]; [lra | auto].
    + apply elem_of_cons in Hin as [Heq | Hin].
      * rewrite Heq. unfold Rmax. destruct (Rle_dec first x); [right; left | left].
      * right. right. exact Hin.
Qed.

Lemma arcCentres_app (a b : list TrafficInfoPanel.CanvasCall) :
  arcCentres (a ++ b) = arcCentres a ++ arcCentres b.
Proof. apply omap_app. Qed.

Lemma arcCentres_imap_none (data : list R) :
  forall f : nat -> R -> TrafficInfoPanel.CanvasCall,
    (forall i v, match f i v with
                 | TrafficInfoPanel.Arc _ _ _ _ _ => False
                 | _ => True
                 end) ->
    arcCentres (imap f data) = [].
Proof.
  induction data as [|v rest IH]; intros f Hf; [reflexivity|].
  simpl. unfold arcCentres in *. simpl.
  specialize (Hf 0%nat v) as Hhead.
  destruct (f 0%nat v); try contradiction;
    apply (IH (f ∘ S)); intros i u; apply (Hf (S i) u).
Qed.

Lemma arcCentres_dataLine (data : list R) (point : nat -> R -> number * R) :
  arcCentres (TrafficInfoPanel.dataLine point data) = [].
Proof.
  unfold TrafficInfoPanel.dataLine. apply arcCentres_imap_none.
  intros i v. destruct (i =? 0)%nat; exact I.
Qed.

Lemma arcCentres_dataPoints (data : list R) :
  forall point, arcCentres (TrafficInfoPanel.dataPoints point data) = imap point data.
Proof.
  unfold TrafficInfoPanel.dataPoints.
  induction data as [|v rest IH]; intros point; [reflexivity|].
  rewrite !imap_cons. cbn [concat]. rewrite arcCentres_app.
  transitivity ([point 0%nat v] ++ imap (point ∘ S) rest); [|reflexivity].
  f_equal; [destruct (point 0%nat v); reflexivity | exact (IH (point ∘ S))].
Qed.

Variables width height : R.
Variable data : list R.
Hypothesis wide : 20 <= width.
Hypothesis high : 20 <= height.
Hypothesis several : (2 <= List.length data)%nat.

(** The point plotted for the value at an index. *)
Lemma chart_point (first : R) (rest : list R) (i : nat) (v : R) :
  data = first :: rest ->
  data !! i = Some v ->
  let minVal := TrafficInfoPanel.minOf first rest in
  let maxVal := TrafficInfoPanel.maxOf first rest in
  let y := TrafficInfoPanel.yOf (height - 2 * TrafficInfoPanel.padding) minVal
             (TrafficInfoPanel.rangeOf maxVal minVal) v in
  exists x,
    TrafficInfoPanel.xOf (width - 2 * TrafficInfoPanel.padding) (List.length data) i = Fin x /\
    10 <= x <= width - 10 /\ 10 <= y <= height - 10 /\
    (i = 0%nat -> x = 10) /\
    (S i = List.length data -> x = width - 10) /\
    ((forall u, u ∈ data -> v <= u) -> y = height - 10) /\
    ((forall u, u ∈ data -> u <= v) -> (exists u, u ∈ data /\ u < v) -> y = 10) /\
    (forall w, w ∈ data -> v <= w ->
       TrafficInfoPanel.yOf (height - 2 * TrafficInfoPanel.padding) minVal
         (TrafficInfoPanel.rangeOf maxVal minVal) w <= y).
Proof.
  intros Hdata Hv minVal maxVal y.
  assert (Hi : (i < List.length data)%nat) by (apply lookup_lt_is_Some; eauto).
  assert (Hin : v ∈ data) by (apply list_elem_of_lookup; eauto).
  destruct (minOf_spec rest first) as (Hmin1 & Hmin2 & Hmin3).
  destruct (maxOf_spec rest first) as (Hmax1 & Hmax2 & Hmax3).
  fold minVal in Hmin1, Hmin2, Hmin3. fold maxVal in Hmax1, Hmax2, Hmax3.
  rewrite <- Hdata in Hmin3, Hmax3.
  assert (Hlow : forall u, u ∈ data -> minVal <= u <= maxVal).
  { intros u Hu. rewrite Hdata in Hu.
    apply elem_of_cons in Hu as [-> | Hu]; [lra|].
    split; [apply Hmin2 | apply Hmax2]; exact Hu. }
  set (range := TrafficInfoPanel.rangeOf maxVal minVal) in *.
  assert (Hrange : 0 < range /\ maxVal - minVal <= range /\
                   (maxVal - minVal <> 0 -> range = maxVal - minVal)).
  { unfold range, TrafficInfoPanel.rangeOf. pose proof (Hlow v Hin).
    destruct (Req_dec_T (maxVal - minVal) 0) as [Hz|Hnz].
    - split; [lra|]. split; [lra|]. intros Hno. contradiction.
    - split; [lra|]. split; [lra|]. intros _. reflexivity. }
  destruct Hrange as (Hpos & Hspan & Hfull).
  assert (Hshare : forall u, u ∈ data ->
            0 <= (u - minVal) / range <= 1 /\
            (u - minVal) / range * range = u - minVal).
  { intros u Hu. pose proof (Hlow u Hu) as Hb.
    assert (Heq : (u - minVal) / range * range = u - minVal) by (field; lra).
    split; [|exact Heq].
    split.
    - apply Rmult_le_reg_r with range; [exact Hpos|]. rewrite Heq. lra.
    - apply Rmult_le_reg_r with range; [exact Hpos|]. rewrite Heq. lra. }
  unfold TrafficInfoPanel.xOf, TrafficInfoPanel.padding in *.
  destruct (Nat.eqb_spec (List.length data) 1) as [Hone|_]; [lia|].
  set (n := List.length data) in *.
  assert (Hn : INR n - 1 = INR (n - 1)) by (rewrite minus_INR by lia; reflexivity).
  assert (Hden : 0 < INR n - 1).
  { rewrite Hn. apply (lt_INR 0). lia. }
  assert (Hnum : 0 <= INR i <= INR n - 1).
  { split; [apply pos_INR|]. rewrite Hn. apply le_INR. lia. }
  set (t := INR i / (INR n - 1)).
  assert (Ht : t * (INR n - 1) = INR i) by (unfold t; field; lra).
  assert (Ht01 : 0 <= t <= 1).
  { split.
    - apply Rmult_le_reg_r with (INR n - 1); [exact Hden|]. rewrite Ht. lra.
    - apply Rmult_le_reg_r with (INR n - 1); [exact Hden|]. rewrite Ht. lra. }
  exists (10 + t * (width - 2 * 10)).
  split; [f_equal; unfold t; field; lra|].
  destruct (Hshare v Hin) as [Hs Hsv].
  unfold y, TrafficInfoPanel.yOf, TrafficInfoPanel.padding.
  set (s := (v - minVal) / range) in *.
  split; [nra|]. split; [nra|]. split; [|split; [|split; [|split]]].
  - intros ->. assert (t = 0) as ->; [|lra].
    apply Rmult_eq_reg_r with (INR n - 1); [|lra]. rewrite Ht. simpl. lra.
  - intros Hlast. assert (t = 1) as ->; [|lra].
    assert (Hi1 : INR i = INR n - 1).
    { rewrite Hn. f_equal. lia. }
    apply Rmult_eq_reg_r with (INR n - 1); [|lra]. rewrite Ht. lra.
  - intros Hleast. pose proof (Hlow v Hin).
    assert (v = minVal) by (specialize (Hleast minVal Hmin3); lra).
    assert (s = 0) as ->; [|lra].
    apply Rmult_eq_reg_r with range; [|lra]. rewrite Hsv. lra.
  - intros Hmost (u & Hu & Hlt). pose proof (Hlow v Hin).
    assert (v = maxVal) by (specialize (Hmost maxVal Hmax3); lra).
    pose proof (Hlow u Hu).
    assert (range = v - minVal) by (rewrite Hfull; lra).
    assert (s = 1) as ->; [|lra].
    apply Rmult_eq_reg_r with range; [|lra]. rewrite Hsv. lra.
  - intros w Hw Hvw. destruct (Hshare w Hw) as [Hsw Hsweq].
    set (s' := (w - minVal) / range) in *.
    assert (s <= s').
    { apply Rmult_le_reg_r with range; [exact Hpos|]. lra. }
    nra.
Qed.

End Chart.

(** X27.  What [drawForecastChart] puts on the canvas.  For no data it
    only clears the canvas; for a single value the abscissa of its point
    is [0 / 0], not a number.  For two values or more on a canvas at least
    20 wide and 20 high, every point a line is taken to and every centre
    of a circle lies in the area 10 in from the edges; the circles have a
    radius of 3, so a circle reaches up to 3 out of that area and stays 7
    or more from the edges of the canvas.  There is one circle per value,
    centred on the left edge of the area for the first value and on its
    right edge for the last; a greater value is never drawn lower than a
    smaller one; a least value is drawn on the bottom line and, unless all
    values are equal, a greatest value on the top line. *)
Theorem drawForecastChart_inside (width height : R) (data : list R) :
  TrafficInfoPanel.drawForecastChart width height [] =
    [TrafficInfoPanel.ClearRect 0 0 width height] /\
  (forall v, arcCentres (TrafficInfoPanel.drawForecastChart width height [v]) =
             [(NaN, height - 10)]) /\
  (20 <= width -> 20 <= height -> (2 <= List.length data)%nat ->
   let calls := TrafficInfoPanel.drawForecastChart width height data in
   Forall (insideChart width height) calls /\
   List.length (arcCentres calls) = List.length data /\
   (forall i v,
      data !! i = Some v ->
      exists x y,
        arcCentres calls !! i = Some (Fin x, y) /\
        (i = 0%nat -> x = 10) /\
        (S i = List.length data -> x = width - 10) /\
        ((forall u, u ∈ data -> v <= u) -> y = height - 10) /\
        ((forall u, u ∈ data -> u <= v) -> (exists u, u ∈ data /\ u < v) -> y = 10)) /\
   (forall i j v w p q,
      data !! i = Some v -> data !! j = Some w ->
      arcCentres calls !! i = Some p -> arcCentres calls !! j = Some q ->
      v <= w -> snd q <= snd p)).
Proof.
  split; [reflexivity|]. split.
  { intros v. unfold arcCentres. simpl. f_equal. f_equal.
    unfold TrafficInfoPanel.yOf, TrafficInfoPanel.rangeOf, TrafficInfoPanel.minOf,
      TrafficInfoPanel.maxOf, TrafficInfoPanel.padding. simpl.
    destruct (Req_dec_T (v - v) 0); [field | lra]. }
  intros wide high several calls.
  destruct data as [|first rest]; [simpl in several; lia|].
  set (data := first :: rest) in *.
  assert (Hdata : data = first :: rest) by reflexivity.
  set (minVal := TrafficInfoPanel.minOf first rest).
  set (maxVal := TrafficInfoPanel.maxOf first rest).
  set (range := TrafficInfoPanel.rangeOf maxVal minVal).
  set (point := fun (i : nat) (v : R) =>
                  (TrafficInfoPanel.xOf (width - 2 * TrafficInfoPanel.padding)
                                        (List.length data) i,
                   TrafficInfoPanel.yOf (height - 2 * TrafficInfoPanel.padding)
                                        minVal range v)).
  assert (Hcalls : calls =
            TrafficInfoPanel.ClearRect 0 0 width height ::
            [TrafficInfoPanel.SetStrokeStyle "rgba(255, 255, 255, 0.1)";
             TrafficInfoPanel.SetLineWidth 1]
              ++ TrafficInfoPanel.gridLines width (height - 2 * TrafficInfoPanel.padding)
              ++ [TrafficInfoPanel.SetStrokeStyle "#00d4ff"; TrafficInfoPanel.SetLineWidth 2;
                  TrafficInfoPanel.BeginPath]
              ++ TrafficInfoPanel.dataLine point data
              ++ [TrafficInfoPanel.Stroke; TrafficInfoPanel.SetFillStyle "#00d4ff"]
              ++ TrafficInfoPanel.dataPoints point data).
  { reflexivity. }
  assert (Hpoint : forall i v, data !! i = Some v ->
            exists x,
              fst (point i v) = Fin x /\
              10 <= x <= width - 10 /\ 10 <= snd (point i v) <= height - 10 /\
              (i = 0%nat -> x = 10) /\
              (S i = List.length data -> x = width - 10) /\
              ((forall u, u ∈ data -> v <= u) -> snd (point i v) = height - 10) /\
              ((forall u, u ∈ data -> u <= v) -> (exists u, u ∈ data /\ u < v) ->
               snd (point i v) = 10) /\
              (forall w, w ∈ data -> v <= w -> forall j, snd (point j w) <= snd (point i v))).
  { intros i v Hv.
    destruct (chart_point width height data wide high several first rest i v Hdata Hv)
      as (x & Hx & Hxb & Hyb & H0 & Hlast & Hleast & Hmost & Hmono).
    exists x. unfold point. simpl snd. simpl fst.
    split; [exact Hx|]. repeat split; try tauto; try lra.
    intros w Hw Hvw j. apply Hmono; assumption. }
  assert (Harcs : arcCentres calls = imap point data).
  { rewrite Hcalls.
    change (arcCentres (TrafficInfoPanel.ClearRect 0 0 width height :: ?l))
      with (arcCentres l).
    rewrite !arcCentres_app, arcCentres_dataLine, arcCentres_dataPoints. reflexivity. }
  split; [|split; [|split]].
  - assert (Hgrid : Forall (insideChart width height)
                      (TrafficInfoPanel.gridLines width
                         (height - 2 * TrafficInfoPanel.padding))).
    { unfold TrafficInfoPanel.gridLines. cbn [seq flat_map app].
      repeat (apply List.Forall_cons;
              [first [exact I
                     | eexists; split; [reflexivity|];
                       unfold TrafficInfoPanel.padding; simpl INR; lra]|]).
      apply List.Forall_nil. }
    assert (Hline : Forall (insideChart width height)
                      (TrafficInfoPanel.dataLine point data)).
    { apply Forall_lookup_2. intros k call Hk.
      unfold TrafficInfoPanel.dataLine in Hk. rewrite list_lookup_imap in Hk.
      destruct (data !! k) as [v|] eqn:Hv; [|discriminate].
      simpl in Hk. injection Hk as <-.
      destruct (Hpoint k v Hv) as (x & Hx & Hxb & Hyb & _).
      destruct (k =? 0)%nat; exists x; (split; [exact Hx | tauto]). }
    assert (Hdots : Forall (insideChart width height)
                      (TrafficInfoPanel.dataPoints point data)).
    { unfold TrafficInfoPanel.dataPoints. apply Forall_concat, Forall_lookup_2.
      intros k group Hk. rewrite list_lookup_imap in Hk.
      destruct (data !! k) as [v|] eqn:Hv; [|discriminate].
      simpl in Hk. injection Hk as <-.
      destruct (Hpoint k v Hv) as (x & Hx & Hxb & Hyb & _).
      apply List.Forall_cons; [exact I|].
      apply List.Forall_cons; [|apply List.Forall_cons; [exact I | apply List.Forall_nil]].
      exists x. split; [exact Hx|].
      change (TrafficInfoPanel.yOf (height - 2 * TrafficInfoPanel.padding) minVal range v)
        with (snd (point k v)).
      set (y := snd (point k v)) in *. clearbody y. repeat split; lra. }
    rewrite Hcalls. cbn [app].
    do 3 (apply List.Forall_cons; [exact I|]).
    apply Forall_app_2; [exact Hgrid|]. cbn [app].
    do 3 (apply List.Forall_cons; [exact I|]).
    apply Forall_app_2; [exact Hline|]. cbn [app].
    do 2 (apply List.Forall_cons; [exact I|]).
    exact Hdots.
  - rewrite Harcs. apply length_imap.
  - intros i v Hv. rewrite Harcs, list_lookup_imap, Hv. simpl.
    destruct (Hpoint i v Hv) as (x & Hx & _ & _ & H0 & Hlast & Hleast & Hmost & _).
    exists x, (snd (point i v)).
    split; [rewrite (surjective_pairing (point i v)), Hx; reflexivity | auto].
  - intros i j v w p q Hv Hw Hp Hq Hvw.
    rewrite Harcs, list_lookup_imap in Hp, Hq. rewrite Hv in Hp. rewrite Hw in Hq.
    simpl in Hp, Hq. injection Hp as <-. injection Hq as <-.
    destruct (Hpoint i v Hv) as (x & _ & _ & _ & _ & _ & _ & _ & Hmono).
    apply Hmono; [|exact Hvw]. apply list_elem_of_lookup. eauto.
Qed.

(** The four values the panel plots, on the canvas of the panel: 280 by
    80. *)
Lemma drawForecastChart_inside_witness :
  let calls := TrafficInfoPanel.drawForecastChart 280 80 [1200; 1300; 900; 400] in
  Forall (insideChart 280 80) calls /\
  List.length (arcCentres calls) = List.length [1200; 1300; 900; 400] /\
  (forall i v,
     [1200; 1300; 900; 400] !! i = Some v ->
     exists x y,
       arcCentres calls !! i = Some (Fin x, y) /\
       (i = 0%nat -> x = 10) /\
       (S i = List.length [1200; 1300; 900; 400] -> x = 280 - 10) /\
       ((forall u, u ∈ [1200; 1300; 900; 400] -> v <= u) -> y = 80 - 10) /\
       ((forall u, u ∈ [1200; 1300; 900; 400] -> u <= v) ->
        (exists u, u ∈ [1200; 1300; 900; 400] /\ u < v) -> y = 10)) /\
  (forall i j v w p q,
     [1200; 1300; 900; 400] !! i = Some v -> [1200; 1300; 900; 400] !! j = Some w ->
     arcCentres calls !! i = Some p -> arcCentres calls !! j = Some q ->
     v <= w -> snd q <= snd p).
Proof.
  destruct (drawForecastChart_inside 280 80 [1200; 1300; 900; 400]) as (_ & _ & Hchart).
  apply Hchart; [lra | lra | simpl; lia].
Defined.
